(** * Ledger synchronisation layer of the wallet: a shallow embedding

    The development follows the TypeScript sources:
    - [lib/optimistic-updates]            the optimistic-update ledger
                                          (kept in the source tree behind
                                          [Generic/lib/digitalbits-address.ts]),
    - [optimistic-updates/set-options]    signer, master-weight and threshold overlays,
    - [optimistic-updates/change-trust]   trustline overlays ([unnamed/part_007]),
    - [optimistic-updates/index]          the fold of the overlays over a snapshot,
    - [Generic/lib/digitalbits]           asset helpers ([unnamed/part_005]),
    - [net-worker/digitalbits-network]    fetch queues, subscription caches,
                                          account polling and endpoint failover,
                                          the fetches and the handlers of the
                                          live streams,
    - [Generic/lib/digitalbits-address]   the three tests on addresses,
    - [Generic/lib/stream]                message deduplication and the
                                          connection of a stream.

    Module-level mutable state of the sources (the [Map]s and counters) is
    threaded explicitly.  Functions of third-party packages that the sources
    call (big.js, the ledger SDK) are collected in one interface class. *)

From stdpp Require Import base option list strings gmap pretty.
From Stdlib Require Import Ascii ZArith Lia.
From Stdlib Require PrimFloat.

Set Default Proof Using "Type".
#[global] Set Warnings "-inexact-float".

(* ===================================================================== *)
(** * JavaScript idioms used by the sources                              *)
(* ===================================================================== *)

Module JS.

(** [array.indexOf(x)] on an array of strings: the first index holding a
    string strictly equal to [x], and [-1] when there is none. *)
Fixpoint indexOfFrom (i : Z) (xs : list string) (x : string) : Z :=
  match xs with
  | [] => (-1)%Z
  | y :: ys => if String.eqb y x then i else indexOfFrom (i + 1)%Z ys x
  end.

Definition indexOf (xs : list string) (x : string) : Z := indexOfFrom 0%Z xs x.

(** [a || b] on an optional string: [undefined] and the empty string are
    falsy. *)
Definition orElse (a : option string) (b : string) : string :=
  match a with
  | Some s => if String.eqb s "" then b else s
  | None => b
  end.

(** Template-literal rendering of an optional number. *)
Definition showNumber (n : option Z) : string :=
  match n with
  | Some z => pretty z
  | None => "undefined"
  end.

End JS.

(* ===================================================================== *)
(** * lib/optimistic-updates : the optimistic-update ledger              *)
(* ===================================================================== *)

Module Ledger.

(** [interface OptimisticUpdate<T>] *)
Record OptimisticUpdate (T : Type) : Type := mkUpdate {
  apply : T → T;
  effectsAccountID : string;
  frontierURL : string;
  title : string;
  transactionHash : string
}.
Arguments mkUpdate {T} _ _ _ _ _.
Arguments apply {T} _ _.
Arguments effectsAccountID {T} _.
Arguments frontierURL {T} _.
Arguments title {T} _.
Arguments transactionHash {T} _.

(** [createAccountCacheKeyByFilter] and [createAccountCacheKey]; the offer
    ledger reuses both. *)
Definition createAccountCacheKeyByFilter (url accountID : string) : string :=
  url +:+ "/accounts/" +:+ accountID.

Definition createAccountCacheKey {T} (update : OptimisticUpdate T) : string :=
  createAccountCacheKeyByFilter (frontierURL update) (effectsAccountID update).

(** The closure state of one [OptimisticUpdateCache(...)] instance: the
    [updates] map and, for the [subject], the updates it has been handed so
    far (oldest first). *)
Record Cache (T : Type) : Type := mkCache {
  updates : gmap string (list (OptimisticUpdate T));
  emitted : list (OptimisticUpdate T)
}.
Arguments mkCache {T} _ _.
Arguments updates {T} _.
Arguments emitted {T} _.

(** State at module load: [new Map()], nothing emitted. *)
Definition newCache {T} : Cache T := mkCache ∅ [].

Section Operations.
Context {T : Type}.
Abbreviation Update := (OptimisticUpdate T).

(** One turn of the loop body of [addUpdates]. *)
Definition addUpdate (c : Cache T) (optimisticUpdate : Update) : Cache T :=
  let selector := createAccountCacheKey optimisticUpdate in
  let prevUpdates := default [] (updates c !! selector) in
  mkCache (<[selector := prevUpdates ++ [optimisticUpdate]]> (updates c))
          (emitted c ++ [optimisticUpdate]).

Definition addUpdates (optimisticUpdates : list Update) (c : Cache T) : Cache T :=
  foldl addUpdate c optimisticUpdates.

Definition getUpdates (url accountID : string) (c : Cache T) : list Update :=
  default [] (updates c !! createAccountCacheKeyByFilter url accountID).

(** The predicate negated inside the [filter] of [removeStaleUpdates]. *)
Definition isStale (url : string) (latestTransactionHashs : list string)
    (optUpdate : Update) : bool :=
  String.eqb (frontierURL optUpdate) url
  && (JS.indexOf latestTransactionHashs (transactionHash optUpdate) >? -1)%Z.

(** One turn of the loop over [updates.keys()]: reads the live map and
    writes the filtered array back only when its length changed. *)
Definition removeStaleAt (url : string) (latestTransactionHashs : list string)
    (m : gmap string (list Update)) (selector : string) : gmap string (list Update) :=
  match m !! selector with
  | Some prevOptimisticUpdates =>
      let nextOptimisticUpdates :=
        List.filter (λ u, negb (isStale url latestTransactionHashs u))
                    prevOptimisticUpdates in
      if Nat.eqb (length nextOptimisticUpdates) (length prevOptimisticUpdates)
      then m
      else <[selector := nextOptimisticUpdates]> m
  | None => m
  end.

(** A [Map] hands out its keys in insertion order and a [gmap] in an
    order of its own; the loop ends in the same map whatever the order. *)
Definition removeStaleUpdates (url : string) (latestTransactionHashs : list string)
    (c : Cache T) : Cache T :=
  mkCache (foldl (removeStaleAt url latestTransactionHashs) (updates c)
                 (map_to_list (updates c)).*1)
          (emitted c).

End Operations.

(** Retiring: [l'] is [l] with exactly the entries satisfying [P] taken
    out, the others kept in place. *)
Inductive RemovesExactly {A} (P : A → Prop) : list A → list A → Prop :=
  | RemovesExactly_nil : RemovesExactly P [] []
  | RemovesExactly_drop x l l' :
      P x → RemovesExactly P l l' → RemovesExactly P (x :: l) l'
  | RemovesExactly_keep x l l' :
      ¬ P x → RemovesExactly P l l' → RemovesExactly P (x :: l) (x :: l').

End Ledger.

(* ===================================================================== *)
(** * Ledger SDK values read by the overlays                             *)
(* ===================================================================== *)

Module Sdk.

(** An [Asset] object: its [code] and [issuer] fields.  The native asset
    has no issuer. *)
Record Asset : Type := mkAsset {
  code : string;
  issuer : option string
}.

(** [new Asset(code, issuer)].  The package checks its arguments and throws
    on malformed ones; where the sources pass fields of a ledger record or of
    an asset the package itself built, construction is this total function.
    [parseAssetID], which feeds it raw text, keeps the check. *)
Definition Asset_new (c : string) (i : option string) : Asset := mkAsset c i.

(** [Asset.native()] *)
Definition Asset_native : Asset := Asset_new "XDB" None.

(** [a.equals(b)]: same code and same issuer. *)
Definition Asset_equals (a b : Asset) : bool :=
  bool_decide (code a = code b) && bool_decide (issuer a = issuer b).

(** [a.isNative()] *)
Definition Asset_isNative (a : Asset) : bool :=
  match issuer a with
  | Some i => String.eqb i ""
  | None => true
  end.

(** A [LiquidityPoolAsset]: the fields read by [getLiquidityPoolIdFromAsset]. *)
Record LiquidityPoolAsset : Type := mkPoolAsset {
  assetA : Asset;
  assetB : Asset;
  fee : Z
}.

(** The [line] of a change-trust operation, told apart in the sources by
    [getAssetType() === "liquidity_pool_shares"]. *)
Inductive TrustLineAsset : Type :=
  | LineAsset (a : Asset)
  | LinePool (p : LiquidityPoolAsset).

(** [Signer] argument of a set-options operation; [weight] is optional.
    Weights and thresholds are whole numbers on the ledger and integers
    here. *)
Inductive Signer : Type :=
  | Ed25519PublicKey (ed25519PublicKey : string) (weight : option Z)
  | Sha256Hash (sha256Hash : string) (weight : option Z)
  | PreAuthTx (preAuthTx : string) (weight : option Z).

(** [Operation.SetOptions], the fields the overlay translator reads. *)
Record SetOptions : Type := mkSetOptions {
  so_source : option string;
  signer : option Signer;
  masterWeight : option Z;
  lowThreshold : option Z;
  medThreshold : option Z;
  highThreshold : option Z
}.

(** [Operation.ChangeTrust] *)
Record ChangeTrust : Type := mkChangeTrust {
  ct_source : option string;
  line : TrustLineAsset;
  limit : string
}.

(** [Operation], by its [type] tag.  Offer operations feed the offer ledger
    and every remaining type is ignored by the overlay layer. *)
Inductive Operation : Type :=
  | OpChangeTrust (op : ChangeTrust)
  | OpSetOptions (op : SetOptions)
  | OpOther (type : string).

(** [Transaction]: source account, [hash().toString("hex")], operations. *)
Record Transaction : Type := mkTransaction {
  source : string;
  hashHex : string;
  operations : list Operation
}.

(** Functions of third-party packages whose results the sources branch on
    or store. *)
Class Packages : Type := {
  (** [BigNumber(limit).eq(0)] of big.js *)
  limitEqZero : string → bool;
  (** [getLiquidityPoolId("constant_product", {assetA, assetB, fee}).toString("hex")] *)
  liquidityPoolIdHex : Asset → Asset → Z → string;
  (** whether [new Asset(code, issuer)] accepts these raw strings *)
  assetArgsAccepted : string → string → bool
}.

End Sdk.

(* ===================================================================== *)
(** * Ledger records: the account snapshot                               *)
(* ===================================================================== *)

Module Frontier.

Inductive SignerType : Type := ed25519_public_key | sha256_hash | preauth_tx.

#[global] Instance SignerType_eq_dec : EqDecision SignerType.
Proof. solve_decision. Defined.

Record AccountSigner : Type := mkSigner {
  key : string;
  type : SignerType;
  weight : Z
}.

#[global] Instance AccountSigner_eq_dec : EqDecision AccountSigner.
Proof. solve_decision. Defined.

Record AccountThresholds : Type := mkThresholds {
  low_threshold : Z;
  med_threshold : Z;
  high_threshold : Z
}.

Inductive CreditType : Type := credit_alphanum4 | credit_alphanum12.

(** [BalanceLineNative] *)
Record BalanceLineNative : Type := mkNativeLine {
  nat_balance : string;
  nat_buying_liabilities : string;
  nat_selling_liabilities : string
}.

(** [BalanceLineAsset].  [asset_issuer] is optional because [addTrustline]
    copies it from an asset that may have none. *)
Record BalanceLineAsset : Type := mkAssetLine {
  asset_code : string;
  asset_issuer : option string;
  asset_type : CreditType;
  balance : string;
  buying_liabilities : string;
  is_authorized : bool;
  is_authorized_to_maintain_liabilities : bool;
  last_modified_ledger : Z;
  limit : string;
  selling_liabilities : string;
  is_clawback_enabled : bool
}.

(** [BalanceLineLiquidityPool] *)
Record BalanceLineLiquidityPool : Type := mkPoolLine {
  pool_balance : string;
  pool_is_authorized : bool;
  pool_is_authorized_to_maintain_liabilities : bool;
  pool_is_clawback_enabled : bool;
  pool_last_modified_ledger : Z;
  pool_limit : string;
  liquidity_pool_id : string
}.

(** The union [BalanceLine], tagged by [asset_type]. *)
Inductive BalanceLine : Type :=
  | LineNative (b : BalanceLineNative)
  | LineCredit (b : BalanceLineAsset)
  | LinePoolShares (b : BalanceLineLiquidityPool).

#[global] Instance CreditType_eq_dec : EqDecision CreditType.
Proof. solve_decision. Defined.

#[global] Instance BalanceLineNative_eq_dec : EqDecision BalanceLineNative.
Proof. solve_decision. Defined.

#[global] Instance BalanceLineAsset_eq_dec : EqDecision BalanceLineAsset.
Proof. solve_decision. Defined.

#[global] Instance BalanceLineLiquidityPool_eq_dec : EqDecision BalanceLineLiquidityPool.
Proof. solve_decision. Defined.

#[global] Instance BalanceLine_eq_dec : EqDecision BalanceLine.
Proof. solve_decision. Defined.

(** [AccountResponse]: the fields the synchronisation layer reads or
    rewrites; an object spread carries all of them over. *)
Record AccountResponse : Type := mkAccount {
  account_id : string;
  sequence : string;
  subentry_count : Z;
  home_domain : option string;
  thresholds : AccountThresholds;
  signers : list AccountSigner;
  balances : list BalanceLine
}.

(** [{ ...prev, signers }], [{ ...prev, balances }], [{ ...prev, thresholds }] *)
Definition withSigners (prev : AccountResponse) (s : list AccountSigner) : AccountResponse :=
  mkAccount (account_id prev) (sequence prev) (subentry_count prev) (home_domain prev)
            (thresholds prev) s (balances prev).

Definition withBalances (prev : AccountResponse) (b : list BalanceLine) : AccountResponse :=
  mkAccount (account_id prev) (sequence prev) (subentry_count prev) (home_domain prev)
            (thresholds prev) (signers prev) b.

Definition withThresholds (prev : AccountResponse) (t : AccountThresholds) : AccountResponse :=
  mkAccount (account_id prev) (sequence prev) (subentry_count prev) (home_domain prev)
            t (signers prev) (balances prev).

End Frontier.

(* ===================================================================== *)
(** * optimistic-updates/set-options                                     *)
(* ===================================================================== *)

Module SetOptions.
Import Ledger Sdk Frontier.

Abbreviation AccountUpdate := (OptimisticUpdate AccountResponse).

(** [signerKey] and [signerWeight] are the [ed25519PublicKey] and the
    [weight] of the signer argument, which the caller has checked to be a
    number. *)
Definition addSigner (url : string) (operation : SetOptions)
    (signerKey : string) (signerWeight : Z) (transaction : Transaction) : AccountUpdate :=
  mkUpdate
    (λ prevAccountData,
       let allOtherSigners :=
         List.filter (λ existing, negb (String.eqb (key existing) signerKey))
                     (signers prevAccountData) in
       withSigners prevAccountData
         (allOtherSigners ++ [mkSigner signerKey ed25519_public_key signerWeight]))
    (JS.orElse (so_source operation) (source transaction))
    url
    ("Add signer " +:+ signerKey +:+ " (weight " +:+ pretty signerWeight +:+ ")")
    (hashHex transaction).

Definition removeSigner (url : string) (operation : SetOptions)
    (signerKey : string) (transaction : Transaction) : AccountUpdate :=
  mkUpdate
    (λ prevAccountData,
       withSigners prevAccountData
         (List.filter
            (λ prevSigner,
               negb (bool_decide (type prevSigner = ed25519_public_key)
                     && String.eqb (key prevSigner) signerKey))
            (signers prevAccountData)))
    (JS.orElse (so_source operation) (source transaction))
    url
    ("Remove signer " +:+ signerKey)
    (hashHex transaction).

Definition setMasterWeight (url : string) (operation : SetOptions)
    (masterWeight : Z) (transaction : Transaction) : AccountUpdate :=
  let accountID := JS.orElse (so_source operation) (source transaction) in
  mkUpdate
    (λ prevAccountData,
       withSigners prevAccountData
         (List.map
            (λ signer,
               if bool_decide (type signer = ed25519_public_key)
                  && String.eqb (key signer) accountID
               then mkSigner (key signer) (type signer) masterWeight
               else signer)
            (signers prevAccountData)))
    accountID
    url
    ("Set master key weight: " +:+ JS.showNumber (Sdk.masterWeight operation))
    (hashHex transaction).

Definition setThresholds (url : string) (operation : SetOptions)
    (transaction : Transaction) : AccountUpdate :=
  mkUpdate
    (λ prevAccountData,
       let t0 := thresholds prevAccountData in
       let t1 := match lowThreshold operation with
                 | Some v => mkThresholds v (med_threshold t0) (high_threshold t0)
                 | None => t0
                 end in
       let t2 := match medThreshold operation with
                 | Some v => mkThresholds (low_threshold t1) v (high_threshold t1)
                 | None => t1
                 end in
       let t3 := match highThreshold operation with
                 | Some v => mkThresholds (low_threshold t2) (med_threshold t2) v
                 | None => t2
                 end in
       withThresholds prevAccountData t3)
    (JS.orElse (so_source operation) (source transaction))
    url
    ("Set thresholds: " +:+ JS.showNumber (lowThreshold operation) +:+ "/"
       +:+ JS.showNumber (medThreshold operation) +:+ "/"
       +:+ JS.showNumber (highThreshold operation))
    (hashHex transaction).

(** [signer && "ed25519PublicKey" in signer && typeof signer.weight === "number"]:
    the key and the weight when all three hold. *)
Definition ed25519WithWeight (s : option Signer) : option (string * Z) :=
  match s with
  | Some (Ed25519PublicKey k (Some w)) => Some (k, w)
  | _ => None
  end.

Definition setAccountOptions (url : string) (operation : SetOptions)
    (transaction : Transaction) : list AccountUpdate :=
  let anyThreshold :=
    bool_decide (lowThreshold operation ≠ None)
    || bool_decide (medThreshold operation ≠ None)
    || bool_decide (highThreshold operation ≠ None) in
  let thresholdUpdates :=
    if anyThreshold then [setThresholds url operation transaction] else [] in
  let updates :=
    match ed25519WithWeight (signer operation) with
    | Some (k, w) =>
        if (w >? 0)%Z then [addSigner url operation k w transaction]
        else if (w =? 0)%Z then [removeSigner url operation k transaction]
        else thresholdUpdates
    | None => thresholdUpdates
    end in
  match Sdk.masterWeight operation with
  | Some mw => updates ++ [setMasterWeight url operation mw transaction]
  | None => updates
  end.


End SetOptions.

(* ===================================================================== *)
(** * optimistic-updates/change-trust                                    *)
(* ===================================================================== *)

Module ChangeTrust.
Import Ledger Sdk Frontier.

Section WithPackages.
Context `{Packages}.

(** [balancelineToAsset]; the sources call it on native and credit lines
    only. *)
Definition balancelineToAsset (b : BalanceLine) : option Asset :=
  match b with
  | LineNative _ => Some Asset_native
  | LineCredit c => Some (Asset_new (asset_code c) (asset_issuer c))
  | LinePoolShares _ => None
  end.

Definition getLiquidityPoolIdFromAsset (p : LiquidityPoolAsset) : string :=
  liquidityPoolIdHex (assetA p) (assetB p) (fee p).

Definition stringifyAssetToReadableString (l : TrustLineAsset) : string :=
  match l with
  | LineAsset a => if Asset_isNative a then "XDB" else code a
  | LinePool p =>
      "Liquidity Pool '" +:+ code (assetA p) +:+ " <-> " +:+ code (assetB p) +:+ "'"
  end.

(** The entry [addTrustline] appends. *)
Definition newBalance (operation : ChangeTrust) : BalanceLine :=
  match line operation with
  | LinePool p =>
      LinePoolShares
        (mkPoolLine "0" false false false 0 (Sdk.limit operation)
                    (getLiquidityPoolIdFromAsset p))
  | LineAsset a =>
      LineCredit
        (mkAssetLine (code a) (issuer a) credit_alphanum12 "0" "0" false false 0
                     (Sdk.limit operation) "0" false)
  end.

(** The callback of [balances.some(...)] in [addTrustline]. *)
Definition isTrustlineOf (operation : ChangeTrust) (balance : BalanceLine) : bool :=
  match balance, line operation with
  | LinePoolShares b, LinePool p =>
      String.eqb (liquidity_pool_id b) (getLiquidityPoolIdFromAsset p)
  | (LineNative _ | LineCredit _), LineAsset asset =>
      match balancelineToAsset balance with
      | Some a => Asset_equals a asset
      | None => false
      end
  | _, _ => false
  end.

(** The callback of [balances.filter(...)] in [removeTrustline]; its last
    branch, a pool entry against an asset line or the reverse, answers
    [false] as in the callback above. *)
Definition keptByRemoveTrustline (operation : ChangeTrust) (balance : BalanceLine) : bool :=
  match balance, line operation with
  | LinePoolShares b, LinePool p =>
      negb (String.eqb (liquidity_pool_id b) (getLiquidityPoolIdFromAsset p))
  | (LineNative _ | LineCredit _), LineAsset asset =>
      match balancelineToAsset balance with
      | Some a => negb (Asset_equals a asset)
      | None => false
      end
  | _, _ => false
  end.

Definition addTrustline (url : string) (operation : ChangeTrust)
    (transaction : Transaction) : OptimisticUpdate AccountResponse :=
  mkUpdate
    (λ prevAccountData,
       withBalances prevAccountData
         (if existsb (isTrustlineOf operation) (balances prevAccountData)
          then balances prevAccountData
          else balances prevAccountData ++ [newBalance operation]))
    (JS.orElse (ct_source operation) (source transaction))
    url
    ("Remove trustline for " +:+ stringifyAssetToReadableString (line operation))
    (hashHex transaction).

Definition removeTrustline (url : string) (operation : ChangeTrust)
    (transaction : Transaction) : OptimisticUpdate AccountResponse :=
  mkUpdate
    (λ prevAccountData,
       withBalances prevAccountData
         (List.filter (keptByRemoveTrustline operation) (balances prevAccountData)))
    (JS.orElse (ct_source operation) (source transaction))
    url
    ("Remove trustline for " +:+ stringifyAssetToReadableString (line operation))
    (hashHex transaction).

Definition changeTrust (url : string) (operation : ChangeTrust)
    (transaction : Transaction) : list (OptimisticUpdate AccountResponse) :=
  if limitEqZero (Sdk.limit operation)
  then [removeTrustline url operation transaction]
  else [addTrustline url operation transaction].

(** The balance entry [b] is the trustline of the line [l]. *)
Definition isEntryFor (l : TrustLineAsset) (b : BalanceLine) : Prop :=
  match l, b with
  | LinePool p, LinePoolShares shares =>
      liquidity_pool_id shares = getLiquidityPoolIdFromAsset p
  | LineAsset a, LineNative _ => Asset_native = a
  | LineAsset a, LineCredit c => asset_code c = code a ∧ asset_issuer c = issuer a
  | _, _ => False
  end.

(** The balance entry [b] is of the other kind than the line [l]: pool
    shares against an asset, or an asset against pool shares. *)
Definition isOtherKind (l : TrustLineAsset) (b : BalanceLine) : Prop :=
  match l, b with
  | LinePool _, (LineNative _ | LineCredit _) => True
  | LineAsset _, LinePoolShares _ => True
  | _, _ => False
  end.

End WithPackages.
End ChangeTrust.

(* ===================================================================== *)
(** * optimistic-updates/index                                           *)
(* ===================================================================== *)

Module Overlay.
Import Ledger Sdk Frontier.

Section WithPackages.
Context `{Packages}.

(** [ingestOperation], on the account ledger [accountDataUpdates]. *)
Definition ingestOperation (url : string) (operation : Operation)
    (transaction : Transaction) (c : Cache AccountResponse) : Cache AccountResponse :=
  match operation with
  | OpChangeTrust op => addUpdates (ChangeTrust.changeTrust url op transaction) c
  | OpSetOptions op => addUpdates (SetOptions.setAccountOptions url op transaction) c
  | OpOther _ => c
  end.

Definition handleSubmittedTransaction (url : string) (transaction : Transaction)
    (c : Cache AccountResponse) : Cache AccountResponse :=
  foldl (λ acc operation, ingestOperation url operation transaction acc)
        c (operations transaction).

End WithPackages.

Definition optimisticallyUpdateAccountData (url : string) (accountData : AccountResponse)
    (c : Cache AccountResponse) : AccountResponse :=
  let optimisticUpdates := getUpdates url (account_id accountData) c in
  foldl (λ updatedAccountData update, apply update updatedAccountData)
        accountData optimisticUpdates.

(** The fold of the live overlays over a snapshot. *)
Definition applyAll (us : list (OptimisticUpdate AccountResponse))
    (base : AccountResponse) : AccountResponse :=
  foldl (λ updated update, apply update updated) base us.

(** The updates of a list that a set of confirmed hashes leaves alive. *)
Definition notConfirmed (hashes : list string)
    (us : list (OptimisticUpdate AccountResponse)) : list (OptimisticUpdate AccountResponse) :=
  List.filter (λ u, negb (bool_decide (transactionHash u ∈ hashes))) us.

End Overlay.

(* ===================================================================== *)
(** * net-worker/digitalbits-network : module state and subscriptions    *)
(* ===================================================================== *)

Module Network.
Import Sdk.

(** A thrown exception or a returned value. *)
Inductive Outcome (A : Type) : Type :=
  | Returned (a : A)
  | Threw (message : string).
Arguments Returned {A} _.
Arguments Threw {A} _.

(** The options object handed to [new PromiseQueue(...)], and the identity
    of the queue object built from it. *)
Record PromiseQueue : Type := mkQueue {
  queue_id : nat;
  concurrency : Z;
  interval : Z;
  intervalCap : Z;
  timeout : Z;
  throwOnTimeout : bool
}.

(** What a request handed to a fetch queue asks for. *)
Inductive Resource : Type :=
  | AccountTransactionsPage (accountID : string)
  | OrderBookOf (sellingAsset buyingAsset : string).

Record Request : Type := mkRequest {
  target : string;
  resource : Resource;
  priority : Z
}.

Record OrderbookEntry : Type := mkEntry {
  price : string;
  amount : string
}.

(** [ServerApi.OrderbookRecord] *)
Record OrderbookRecord : Type := mkOrderbook {
  self_href : string;
  asks : list OrderbookEntry;
  bids : list OrderbookEntry;
  base : Asset;
  counter : Asset
}.

(** What a live stream watches. *)
Inductive Entity : Type :=
  | EffectsOf (accountID : string)
  | AccountOf (accountID : string)
  | OpenOrdersOf (accountID : string)
  | OrderbookOf (sellingAsset buyingAsset : string).

(** How an observable was built. *)
Inductive ObservableSource : Type :=
  (** [Observable.from([...])] *)
  | ObservableFrom (values : list OrderbookRecord)
  (** [subscribeToUpdatesAndPoll(...)], with the endpoint picked for it *)
  | UpdatesAndPoll (watched : Entity) (frontierURLs : list string)
                   (frontierURL : option string)
  (** [multicast(upstream.pipe(flatMap(...)))], over the object [upstream] *)
  | MulticastOver (upstream : nat) (accountID : string).

(** An [Observable] object: [obs_id] is its identity, compared by [===]. *)
Record Observable : Type := mkObservable {
  obs_id : nat;
  obs_source : ObservableSource
}.

(** What an [async] function has reached once its synchronous part is done. *)
Inductive Async (A : Type) : Type :=
  | Resolved (a : A)
  | Rejected (message : string)
  | AwaitsResponse (r : Request).
Arguments Resolved {A} _.
Arguments Rejected {A} _.
Arguments AwaitsResponse {A} _.

(** The module-level variables that subscriptions and order-book fetches
    touch.  The fetch queues are keyed by an optional URL because
    [getRandomURL] yields [undefined] on an empty list.  [nextObject]
    numbers the objects built so far; [requested] lists the requests handed
    to fetch queues, every endpoint URL in use being taken as well formed. *)
Record NetState : Type := mkNet {
  accountSubscriptionCache : gmap string Observable;
  effectsSubscriptionCache : gmap string Observable;
  orderbookSubscriptionCache : gmap string Observable;
  ordersSubscriptionCache : gmap string Observable;
  transactionsSubscriptionCache : gmap string Observable;
  fetchQueuesByFrontier : gmap (option string) PromiseQueue;
  roundRobinIndex : nat;
  nextObject : nat;
  requested : list Request
}.

Definition initialState : NetState := mkNet ∅ ∅ ∅ ∅ ∅ ∅ 0 0 [].

(** Field updates. *)
Definition setAccountCache (m : gmap string Observable) (st : NetState) : NetState :=
  mkNet m (effectsSubscriptionCache st) (orderbookSubscriptionCache st)
        (ordersSubscriptionCache st) (transactionsSubscriptionCache st)
        (fetchQueuesByFrontier st) (roundRobinIndex st) (nextObject st) (requested st).
Definition setEffectsCache (m : gmap string Observable) (st : NetState) : NetState :=
  mkNet (accountSubscriptionCache st) m (orderbookSubscriptionCache st)
        (ordersSubscriptionCache st) (transactionsSubscriptionCache st)
        (fetchQueuesByFrontier st) (roundRobinIndex st) (nextObject st) (requested st).
Definition setOrderbookCache (m : gmap string Observable) (st : NetState) : NetState :=
  mkNet (accountSubscriptionCache st) (effectsSubscriptionCache st) m
        (ordersSubscriptionCache st) (transactionsSubscriptionCache st)
        (fetchQueuesByFrontier st) (roundRobinIndex st) (nextObject st) (requested st).
Definition setOrdersCache (m : gmap string Observable) (st : NetState) : NetState :=
  mkNet (accountSubscriptionCache st) (effectsSubscriptionCache st)
        (orderbookSubscriptionCache st) m (transactionsSubscriptionCache st)
        (fetchQueuesByFrontier st) (roundRobinIndex st) (nextObject st) (requested st).
Definition setTransactionsCache (m : gmap string Observable) (st : NetState) : NetState :=
  mkNet (accountSubscriptionCache st) (effectsSubscriptionCache st)
        (orderbookSubscriptionCache st) (ordersSubscriptionCache st) m
        (fetchQueuesByFrontier st) (roundRobinIndex st) (nextObject st) (requested st).
Definition setFetchQueues (m : gmap (option string) PromiseQueue) (st : NetState) : NetState :=
  mkNet (accountSubscriptionCache st) (effectsSubscriptionCache st)
        (orderbookSubscriptionCache st) (ordersSubscriptionCache st)
        (transactionsSubscriptionCache st)
        m (roundRobinIndex st) (nextObject st) (requested st).
Definition setRoundRobinIndex (n : nat) (st : NetState) : NetState :=
  mkNet (accountSubscriptionCache st) (effectsSubscriptionCache st)
        (orderbookSubscriptionCache st) (ordersSubscriptionCache st)
        (transactionsSubscriptionCache st)
        (fetchQueuesByFrontier st) n (nextObject st) (requested st).
Definition setNextObject (n : nat) (st : NetState) : NetState :=
  mkNet (accountSubscriptionCache st) (effectsSubscriptionCache st)
        (orderbookSubscriptionCache st) (ordersSubscriptionCache st)
        (transactionsSubscriptionCache st)
        (fetchQueuesByFrontier st) (roundRobinIndex st) n (requested st).
Definition setRequested (l : list Request) (st : NetState) : NetState :=
  mkNet (accountSubscriptionCache st) (effectsSubscriptionCache st)
        (orderbookSubscriptionCache st) (ordersSubscriptionCache st)
        (transactionsSubscriptionCache st)
        (fetchQueuesByFrontier st) (roundRobinIndex st) (nextObject st) l.

(** Building a new observable object, as [Observable.from] and [multicast]
    do. *)
Definition newObservable (src : ObservableSource) (st : NetState) : Observable * NetState :=
  (mkObservable (nextObject st) src, setNextObject (S (nextObject st)) st).

(** Modelled from the spec: [subscribeToUpdatesAndPoll] of [lib/subscription],
    which is not among the sources.  Each call sets up an update-and-poll
    coordinator of its own and returns its stream, a new observable; what
    the coordinator does once it is subscribed to is not part of this
    model. *)
Definition subscribeToUpdatesAndPoll (watched : Entity) (frontierURLs : list string)
    (frontierURL : option string) (st : NetState) : Observable * NetState :=
  newObservable (UpdatesAndPoll watched frontierURLs frontierURL) st.

(** [String(frontierURLs.map(url => url + ":"))]: an array renders as its
    elements joined by commas. *)
Fixpoint joinWithComma (xs : list string) : string :=
  match xs with
  | [] => ""
  | [x] => x
  | x :: rest => x +:+ "," +:+ joinWithComma rest
  end.

Definition createAccountCacheKey (frontierURLs : list string) (accountID : string) : string :=
  joinWithComma (List.map (λ url, url +:+ ":") frontierURLs) +:+ accountID.

Definition createOrderbookCacheKey (frontierURLs : list string)
    (sellingAsset buyingAsset : string) : string :=
  joinWithComma (List.map (λ url, url +:+ ":") frontierURLs)
    +:+ sellingAsset +:+ ":" +:+ buyingAsset.

(** [getRandomURL]: [undefined] on an empty array. *)
Definition getRandomURL (frontierURLs : list string) (st : NetState) : option string * NetState :=
  (frontierURLs !! (roundRobinIndex st `mod` length frontierURLs),
   setRoundRobinIndex (roundRobinIndex st + 1) st).

Definition getFetchQueue (frontierURL : option string) (st : NetState) : PromiseQueue * NetState :=
  match fetchQueuesByFrontier st !! frontierURL with
  | Some q => (q, st)
  | None =>
      let fetchQueue := mkQueue (nextObject st) 4 1000 4 10000 true in
      (fetchQueue,
       setFetchQueues (<[frontierURL := fetchQueue]> (fetchQueuesByFrontier st))
                      (setNextObject (S (nextObject st)) st))
  end.

(** [cachify], over the cache it is given (read by [getCache], written by
    [setCache]). *)
Definition cachify {Args : Type}
    (getCache : NetState → gmap string Observable)
    (setCache : gmap string Observable → NetState → NetState)
    (subscribe : Args → NetState → Outcome Observable * NetState)
    (createCacheKey : Args → string)
    (args : Args) (st : NetState) : Outcome Observable * NetState :=
  let cacheKey := createCacheKey args in
  match getCache st !! cacheKey with
  | Some cached => (Returned cached, st)
  | None =>
      match subscribe args st with
      | (Returned observable, st') =>
          (Returned observable, setCache (<[cacheKey := observable]> (getCache st')) st')
      | (Threw e, st') => (Threw e, st')
      end
  end.

(** [resetAllSubscriptions]; the trailing [resetSubscriptions()] of
    [lib/subscription] acts on the state of that module, not on this one. *)
Definition resetAllSubscriptions (st : NetState) : NetState :=
  mkNet ∅ ∅ ∅ ∅ ∅ (fetchQueuesByFrontier st) (roundRobinIndex st) (nextObject st)
        (requested st).

(** [text.split(":")] *)
Fixpoint splitOnColon (text : string) : list string :=
  match text with
  | EmptyString => [""]
  | String c rest =>
      let parts := splitOnColon rest in
      if Ascii.eqb c ":"%char then "" :: parts
      else match parts with
           | first :: others => String c first :: others
           | [] => [String c ""]
           end
  end.

Section WithPackages.
Context `{Packages}.

(** [parseAssetID].  With no colon in the text [split] leaves [code]
    undefined, where the constructor is declared for a string: such text is
    counted among what the constructor rejects. *)
Definition parseAssetID (assetID : string) : Outcome Asset :=
  if String.eqb assetID "XDB" then Returned Asset_native
  else match splitOnColon assetID with
       | issuer :: code :: _ =>
           if assetArgsAccepted code issuer
           then Returned (Asset_new code (Some issuer))
           else Threw ("invalid asset " +:+ assetID)
       | _ => Threw ("invalid asset " +:+ assetID)
       end.

Definition createEmptyOrderbookRecord (base counter : Asset) : OrderbookRecord :=
  mkOrderbook "" [] [] base counter.

(** The synchronous part of [fetchAccountTransactions]: pick an endpoint,
    take its queue, hand the request over.  Without an endpoint
    [new URL(path, undefined)] throws and nothing is handed over. *)
Definition fetchAccountTransactions (frontierURLs : list string) (accountID : string)
    (st : NetState) : option Request * NetState :=
  let '(frontierURL, st1) := getRandomURL frontierURLs st in
  let '(_, st2) := getFetchQueue frontierURL st1 in
  match frontierURL with
  | Some endpoint =>
      let request := mkRequest endpoint (AccountTransactionsPage accountID) 1 in
      (Some request, setRequested (requested st2 ++ [request]) st2)
  | None => (None, st2)
  end.

Definition subscribeToAccountEffectsUncached (args : list string * string)
    (st : NetState) : Outcome Observable * NetState :=
  let '(frontierURLs, accountID) := args in
  let '(frontierURL, st1) := getRandomURL frontierURLs st in
  let '(_, st2) := getFetchQueue frontierURL st1 in
  let '(observable, st3) :=
    subscribeToUpdatesAndPoll (EffectsOf accountID) frontierURLs frontierURL st2 in
  (Returned observable, st3).

Definition subscribeToAccountEffects :
    list string * string → NetState → Outcome Observable * NetState :=
  cachify effectsSubscriptionCache setEffectsCache
          subscribeToAccountEffectsUncached
          (λ args, createAccountCacheKey args.1 args.2).

Definition subscribeToAccountUncached (args : list string * string)
    (st : NetState) : Outcome Observable * NetState :=
  let '(frontierURLs, accountID) := args in
  let '(frontierURL, st1) := getRandomURL frontierURLs st in
  let '(observable, st2) :=
    subscribeToUpdatesAndPoll (AccountOf accountID) frontierURLs frontierURL st1 in
  (Returned observable, st2).

Definition subscribeToAccount :
    list string * string → NetState → Outcome Observable * NetState :=
  cachify accountSubscriptionCache setAccountCache
          subscribeToAccountUncached
          (λ args, createAccountCacheKey args.1 args.2).

(** [fetchInitial()] runs up to its first [await] before the stream is put
    together from the (memoized) effects stream. *)
Definition subscribeToAccountTransactionsUncached (args : list string * string)
    (st : NetState) : Outcome Observable * NetState :=
  let '(frontierURLs, accountID) := args in
  let '(_, st1) := fetchAccountTransactions frontierURLs accountID st in
  match subscribeToAccountEffects (frontierURLs, accountID) st1 with
  | (Returned effects, st2) =>
      let '(observable, st3) :=
        newObservable (MulticastOver (obs_id effects) accountID) st2 in
      (Returned observable, st3)
  | (Threw e, st2) => (Threw e, st2)
  end.

Definition subscribeToAccountTransactions :
    list string * string → NetState → Outcome Observable * NetState :=
  cachify transactionsSubscriptionCache setTransactionsCache
          subscribeToAccountTransactionsUncached
          (λ args, createAccountCacheKey args.1 args.2).

Definition subscribeToOpenOrdersUncached (args : list string * string)
    (st : NetState) : Outcome Observable * NetState :=
  let '(frontierURLs, accountID) := args in
  let '(frontierURL, st1) := getRandomURL frontierURLs st in
  let '(observable, st2) :=
    subscribeToUpdatesAndPoll (OpenOrdersOf accountID) frontierURLs frontierURL st1 in
  (Returned observable, st2).

Definition subscribeToOpenOrders :
    list string * string → NetState → Outcome Observable * NetState :=
  cachify ordersSubscriptionCache setOrdersCache
          subscribeToOpenOrdersUncached
          (λ args, createAccountCacheKey args.1 args.2).

(** [createOrderbookQuery], called between the parsing and the comparison,
    only reads the two assets. *)
Definition subscribeToOrderbookUncached (args : list string * string * string)
    (st : NetState) : Outcome Observable * NetState :=
  let '(frontierURLs, sellingAsset, buyingAsset) := args in
  match parseAssetID buyingAsset with
  | Threw e => (Threw e, st)
  | Returned buying =>
      match parseAssetID sellingAsset with
      | Threw e => (Threw e, st)
      | Returned selling =>
          if Asset_equals selling buying then
            let '(observable, st1) :=
              newObservable (ObservableFrom [createEmptyOrderbookRecord buying buying]) st in
            (Returned observable, st1)
          else
            let '(frontierURL, st1) := getRandomURL frontierURLs st in
            let '(_, st2) := getFetchQueue frontierURL st1 in
            let '(observable, st3) :=
              subscribeToUpdatesAndPoll (OrderbookOf sellingAsset buyingAsset)
                                        frontierURLs frontierURL st2 in
            (Returned observable, st3)
      end
  end.

Definition subscribeToOrderbook :
    list string * string * string → NetState → Outcome Observable * NetState :=
  cachify orderbookSubscriptionCache setOrderbookCache
          subscribeToOrderbookUncached
          (λ args, createOrderbookCacheKey args.1.1 args.1.2 args.2).

(** [fetchOrderbookRecord], up to the point where it waits for the
    endpoint's answer. *)
Definition fetchOrderbookRecord (frontierURLs : list string)
    (sellingAsset buyingAsset : string) (st : NetState) : Async OrderbookRecord * NetState :=
  if String.eqb buyingAsset sellingAsset then
    match parseAssetID buyingAsset with
    | Returned buying => (Resolved (createEmptyOrderbookRecord buying buying), st)
    | Threw e => (Rejected e, st)
    end
  else
    let '(frontierURL, st1) := getRandomURL frontierURLs st in
    let '(_, st2) := getFetchQueue frontierURL st1 in
    match parseAssetID sellingAsset with
    | Threw e => (Rejected e, st2)
    | Returned _ =>
        match parseAssetID buyingAsset with
        | Threw e => (Rejected e, st2)
        | Returned _ =>
            match frontierURL with
            | Some endpoint =>
                let request :=
                  mkRequest endpoint (OrderBookOf sellingAsset buyingAsset) 1 in
                (AwaitsResponse request, setRequested (requested st2 ++ [request]) st2)
            | None => (Rejected "Invalid URL", st2)
            end
        end
    end.

(** A call to one of the five memoized subscription functions. *)
Inductive Subscription : Type :=
  | ToAccount (frontierURLs : list string) (accountID : string)
  | ToAccountEffects (frontierURLs : list string) (accountID : string)
  | ToOpenOrders (frontierURLs : list string) (accountID : string)
  | ToOrderbook (frontierURLs : list string) (sellingAsset buyingAsset : string)
  | ToAccountTransactions (frontierURLs : list string) (accountID : string).

Definition subscribe (call : Subscription) (st : NetState) : Outcome Observable * NetState :=
  match call with
  | ToAccount urls id => subscribeToAccount (urls, id) st
  | ToAccountEffects urls id => subscribeToAccountEffects (urls, id) st
  | ToOpenOrders urls id => subscribeToOpenOrders (urls, id) st
  | ToOrderbook urls selling buying => subscribeToOrderbook (urls, selling, buying) st
  | ToAccountTransactions urls id => subscribeToAccountTransactions (urls, id) st
  end.

(** The cache a call goes through and the key it looks up. *)
Definition cacheOf (call : Subscription) (st : NetState) : gmap string Observable :=
  match call with
  | ToAccount _ _ => accountSubscriptionCache st
  | ToAccountEffects _ _ => effectsSubscriptionCache st
  | ToOpenOrders _ _ => ordersSubscriptionCache st
  | ToOrderbook _ _ _ => orderbookSubscriptionCache st
  | ToAccountTransactions _ _ => transactionsSubscriptionCache st
  end.

Definition keyOf (call : Subscription) : string :=
  match call with
  | ToAccount urls id | ToAccountEffects urls id
  | ToOpenOrders urls id | ToAccountTransactions urls id =>
      createAccountCacheKey urls id
  | ToOrderbook urls selling buying => createOrderbookCacheKey urls selling buying
  end.

(** Two calls to the same function. *)
Definition sameFunction (a b : Subscription) : bool :=
  match a, b with
  | ToAccount _ _, ToAccount _ _
  | ToAccountEffects _ _, ToAccountEffects _ _
  | ToOpenOrders _ _, ToOpenOrders _ _
  | ToOrderbook _ _ _, ToOrderbook _ _ _
  | ToAccountTransactions _ _, ToAccountTransactions _ _ => true
  | _, _ => false
  end.

(** Whether the call's arguments get past [parseAssetID]. *)
Definition argumentsParse (call : Subscription) : bool :=
  match call with
  | ToOrderbook _ selling buying =>
      match parseAssetID buying, parseAssetID selling with
      | Returned _, Returned _ => true
      | _, _ => false
      end
  | _ => true
  end.

(** Further subscription calls, their results dropped. *)
Definition subscribeAll (calls : list Subscription) (st : NetState) : NetState :=
  foldl (λ acc call, (subscribe call acc).2) st calls.

(** Every cached handle is an object built earlier. *)
Definition handlesAllocated (st : NetState) : Prop :=
  ∀ call key h, cacheOf call st !! key = Some h → obs_id h < nextObject st.

(** One state follows another when no cached handle was replaced or
    dropped and no object number was given back. *)
Definition follows (st st' : NetState) : Prop :=
  (∀ call key h, cacheOf call st !! key = Some h → cacheOf call st' !! key = Some h)
  ∧ nextObject st ≤ nextObject st'
  ∧ (handlesAllocated st → handlesAllocated st').

(** What an uncached subscription function must do for its memoized form
    to behave: keep what is cached, and hand back an object built during
    the call. *)
Definition buildsFreshHandle {Args}
    (subscribe : Args → NetState → Outcome Observable * NetState) : Prop :=
  ∀ args st,
    follows st (subscribe args st).2
    ∧ ∀ h, (subscribe args st).1 = Returned h →
           nextObject st ≤ obs_id h < nextObject (subscribe args st).2.

(** [get] and [set] read and write the cache that calls like [rep] go
    through, and nothing else that matters here. *)
Definition lensOf (rep : Subscription)
    (get : NetState → gmap string Observable)
    (set : gmap string Observable → NetState → NetState) : Prop :=
  (∀ st, get st = cacheOf rep st)
  ∧ ∀ m st,
      nextObject (set m st) = nextObject st
      ∧ ∀ call, cacheOf call (set m st) = if sameFunction rep call then m else cacheOf call st.

(** Every fetch queue on record has the options [getFetchQueue] builds
    queues with. *)
Definition queuesConfigured (st : NetState) : Prop :=
  ∀ url q, fetchQueuesByFrontier st !! url = Some q →
    concurrency q = 4%Z ∧ interval q = 1000%Z ∧ intervalCap q = 4%Z
    ∧ timeout q = 10000%Z ∧ throwOnTimeout q = true.

End WithPackages.

End Network.

(* ===================================================================== *)
(** * net-worker/digitalbits-network : waiting for an account            *)
(* ===================================================================== *)

Module Http.

(** The fields of a fetch [Response] the sources read. *)
Record Response : Type := mkResponse {
  status : Z;
  url : string;
  body : string
}.

(** How a fetch ends: with a response, or with a rejection (a request that
    could not be made, a network error, the queue's timeout error). *)
Inductive FetchOutcome : Type :=
  | Responded (response : Response)
  | FetchFailed (message : string).

(** Modelled from the spec: the error constructors [Cancellation] and
    [CustomError] of [Generic/lib/errors], which is not among the sources.  A
    cancellation is a kind of its own, apart from the named errors that
    carry the failed request; [Passed] stands for errors thrown elsewhere
    and passed through. *)
Inductive Error : Type :=
  | Cancellation (message : string)
  | CustomError (name message target : string) (status : Z)
  | Passed (message : string).

End Http.

Module AccountWait.
Import Http PrimFloat.

(** What the surroundings answer during one turn of the loop: the value of
    [shouldCancel()], read only when a callback was passed, and the end of
    the fetch, read only when the turn gets that far. *)
Record Round : Type := mkRound {
  cancelAnswer : bool;
  fetched : FetchOutcome
}.

(** What a run does, in order.  The delay is the number handed to
    [delay], a double. *)
Inductive Event : Type :=
  | PolledShouldCancel (answer : bool)
  | FetchedAccount
  | Slept (ms : PrimFloat.float).

(** How a run stands when the recorded rounds are used up. *)
Inductive WaitResult (Data : Type) : Type :=
  | Done (accountData : Data) (initialFetchFailed : bool)
  | Thrown (e : Error)
  | StillWaiting (interval : PrimFloat.float) (initialFetchFailed : bool).
Arguments Done {Data} _ _.
Arguments Thrown {Data} _.
Arguments StillWaiting {Data} _ _.

(** [Math.min(a, b)] on two doubles: [NaN] when either is, the smaller
    one otherwise, and [-0] before [+0]. *)
Definition Math_min (a b : PrimFloat.float) : PrimFloat.float :=
  if PrimFloat.is_nan a || PrimFloat.is_nan b then PrimFloat.nan
  else if PrimFloat.ltb a b then a
  else if PrimFloat.ltb b a then b
  else if PrimFloat.get_sign a then a else b.

(** The loop header: [interval = 2500] and
    [interval = Math.min(interval * 1.05, 5000)], in the double arithmetic
    of the sources; the literals denote the doubles nearest to them. *)
Definition firstInterval : PrimFloat.float := 2500%float.

Definition nextInterval (interval : PrimFloat.float) : PrimFloat.float :=
  Math_min (PrimFloat.mul interval 1.05%float) 5000%float.

Section Loop.
Context {Data : Type}.
(** [parseJSONResponse] of [lib/rest]: the parsed body, or the error it throws. *)
Variable parseJSONResponse : Response → Error + Data.
(** Whether a [shouldCancel] callback was passed. *)
Variable haveShouldCancel : bool.

Fixpoint waitFrom (interval : PrimFloat.float) (initialFetchFailed : bool)
    (rounds : list Round)
    : list Event * WaitResult Data :=
  match rounds with
  | [] => ([], StillWaiting interval initialFetchFailed)
  | round :: later =>
      let polled :=
        if haveShouldCancel then [PolledShouldCancel (cancelAnswer round)] else [] in
      if haveShouldCancel && cancelAnswer round then
        (polled,
         Thrown (Cancellation "Stopping to wait for account to become present in network."))
      else
        match fetched round with
        | FetchFailed message => (polled ++ [FetchedAccount], Thrown (Passed message))
        | Responded response =>
            if (status response =? 200)%Z then
              (polled ++ [FetchedAccount],
               match parseJSONResponse response with
               | inr accountData => Done accountData initialFetchFailed
               | inl e => Thrown e
               end)
            else if (status response =? 404)%Z then
              let '(events, result) := waitFrom (nextInterval interval) true later in
              (polled ++ [FetchedAccount; Slept interval] ++ events, result)
            else
              (polled ++ [FetchedAccount],
               Thrown (CustomError "RequestFailedError"
                         ("Request to " +:+ url response +:+ " failed with status "
                            +:+ pretty (status response))
                         (url response) (status response)))
        end
  end.

Definition waitForAccountDataUncached (rounds : list Round) : list Event * WaitResult Data :=
  waitFrom firstInterval false rounds.

End Loop.

(** The delays of a run, in order, and the number of polls. *)
Definition delaysOf (events : list Event) : list PrimFloat.float :=
  omap (λ e, match e with Slept ms => Some ms | _ => None end) events.

Definition pollsOf (events : list Event) : nat :=
  length (List.filter (λ e, match e with PolledShouldCancel _ => true | _ => false end) events).

Definition fetchesOf (events : list Event) : nat :=
  length (List.filter (λ e, match e with FetchedAccount => true | _ => false end) events).

(** The first [n] retry intervals, starting with [interval]. *)
Fixpoint backoff (n : nat) (interval : PrimFloat.float) : list PrimFloat.float :=
  match n with
  | 0 => []
  | S n' => interval :: backoff n' (nextInterval interval)
  end.

(** The interval of the loop in its [n]-th turn, counted from 0. *)
Fixpoint intervalAt (n : nat) : PrimFloat.float :=
  match n with
  | 0 => firstInterval
  | S n' => nextInterval (intervalAt n')
  end.

(** The delays in milliseconds a wait sleeps for, first to sixteenth, as
    JavaScript prints the doubles; every later one is 5000. *)
Definition retryDelays : list PrimFloat.float :=
  [2500; 2625; 2756.25; 2894.0625; 3038.765625; 3190.7039062500003;
   3350.2391015625003; 3517.7510566406254; 3693.6386094726568; 3878.32053994629;
   4072.2365669436044; 4275.8483952907845; 4489.6408150553243; 4714.1228558080911;
   4949.8289985984957; 5000]%float.

(** A round answering with the given status and not asking to cancel. *)
Definition answering (st : Z) : Round :=
  mkRound false (Responded (mkResponse st "https://frontier.example/accounts/G" "{}")).

(** A parser for the sample runs: the body itself is the account data. *)
Definition bodyAsData (response : Response) : Error + string := inr (body response).

End AccountWait.

(* ===================================================================== *)
(** * net-worker/digitalbits-network : endpoint failover                 *)
(* ===================================================================== *)

Module Failover.
Import Http.

(** Which promise of the [Promise.race] settles first: the primary request,
    or [delay(2500)], the delay of 2500 ms that then throws. *)
Inductive Race : Type :=
  | RequestFirst (outcome : FetchOutcome)
  | DelayFirst.

(** [status < 300 || status === 404] *)
Definition seemsFine (response : Response) : bool :=
  (status response <? 300)%Z || (status response =? 404)%Z.

(** The function resolves with a URL or rejects; [contacted] lists the
    endpoints it sent a request to. *)
Record Selection : Type := mkSelection {
  selected : Error + string;
  contacted : list string
}.

Definition checkFrontierOrFailover (primaryFrontierURL secondaryFrontierURL : string)
    (primary : Race) (secondary : FetchOutcome) : Selection :=
  let primaryFine :=
    match primary with
    | RequestFirst (Responded primaryResponse) => seemsFine primaryResponse
    | RequestFirst (FetchFailed _) => false
    | DelayFirst => false
    end in
  if primaryFine then mkSelection (inr primaryFrontierURL) [primaryFrontierURL]
  else
    match secondary with
    | Responded secondaryResponse =>
        let serverToUse :=
          if seemsFine secondaryResponse then secondaryFrontierURL else primaryFrontierURL in
        mkSelection (inr serverToUse) [primaryFrontierURL; secondaryFrontierURL]
    | FetchFailed message =>
        mkSelection (inl (Passed message)) [primaryFrontierURL; secondaryFrontierURL]
    end.

(** The primary answers in time: its response is there before the delay
    runs out, and seems fine. *)
Definition primaryAnswersInTime (primary : Race) : Prop :=
  ∃ response, primary = RequestFirst (Responded response) ∧ seemsFine response = true.

(** The selection as the specification words it: the secondary URL
    whenever the primary does not answer well in time, the primary URL when
    it does. *)
Definition failoverAsClaimed : Prop :=
  ∀ primaryURL secondaryURL primary secondary,
    (¬ primaryAnswersInTime primary →
       selected (checkFrontierOrFailover primaryURL secondaryURL primary secondary)
       = inr secondaryURL)
    ∧ (primaryAnswersInTime primary →
       selected (checkFrontierOrFailover primaryURL secondaryURL primary secondary)
       = inr primaryURL).

End Failover.

(* ===================================================================== *)
(** * Sample data                                                        *)
(* ===================================================================== *)

Module Sample.
Import Ledger Sdk Frontier.

(** Stand-ins for the third-party functions: a limit is zero when written
    ["0"] or ["0.0000000"], a pool is named after its two asset codes, and
    every pair of a non-empty code and a non-empty issuer makes an asset. *)
Definition packages : Packages :=
  Build_Packages
    (λ limit, bool_decide (limit = "0") || bool_decide (limit = "0.0000000"))
    (λ a b fee, code a +:+ "-" +:+ code b +:+ "-" +:+ pretty fee)
    (λ code issuer, negb (String.eqb code "") && negb (String.eqb issuer "")).

Definition frontier : string := "https://frontier.example".
Definition accountA : string := "GACCOUNTA".
Definition issuerI : string := "GISSUER".

Definition assetFOO : Asset := Asset_new "FOO" (Some issuerI).
Definition poolXdbFoo : LiquidityPoolAsset := mkPoolAsset Asset_native assetFOO 30.

Definition nativeLine : BalanceLine := LineNative (mkNativeLine "100" "0" "0").

(** An account holding 100 XDB, signed by its own key and by a co-signer. *)
Definition snapshot : AccountResponse :=
  mkAccount accountA "7" 1 None (mkThresholds 0 0 0)
    [mkSigner accountA ed25519_public_key 1; mkSigner "GCOSIGNER" ed25519_public_key 1]
    [nativeLine].

Definition trustFOO : ChangeTrust := mkChangeTrust None (LineAsset assetFOO) "1000".
Definition untrustPool : ChangeTrust := mkChangeTrust None (LinePool poolXdbFoo) "0".
Definition zeroMasterWeight : SetOptions := mkSetOptions None None (Some 0%Z) None None None.
Definition dropCosigner : SetOptions :=
  mkSetOptions None (Some (Ed25519PublicKey "GCOSIGNER" (Some 0%Z))) None None None None.

Definition tx1 : Transaction := mkTransaction accountA "aa01" [OpChangeTrust trustFOO].
Definition tx2 : Transaction := mkTransaction accountA "bb02" [OpSetOptions zeroMasterWeight].
Definition tx3 : Transaction := mkTransaction accountA "cc03" [OpChangeTrust untrustPool].

Definition addFOO : OptimisticUpdate AccountResponse :=
  ChangeTrust.addTrustline (H := packages) frontier trustFOO tx1.

Definition zeroMaster : OptimisticUpdate AccountResponse :=
  SetOptions.setMasterWeight frontier zeroMasterWeight 0 tx2.

(** Two [addUpdates] calls, one per submitted transaction. *)
Definition batches : list (list (OptimisticUpdate AccountResponse)) :=
  [[addFOO]; [zeroMaster]].

End Sample.

(* ===================================================================== *)
(** * optimistic-updates/index : both ledgers                            *)
(* ===================================================================== *)

Module Index.
Import Ledger Sdk Frontier.

(** [ServerApi.OfferRecord], the fields the subscriptions read. *)
Record OfferRecord : Type := mkOffer {
  offer_id : string;
  offer_paging_token : string
}.

(** The two module-level ledgers [accountDataUpdates] and [offerUpdates]. *)
Record Ledgers : Type := mkLedgers {
  accountDataUpdates : Cache AccountResponse;
  offerUpdates : Cache (list OfferRecord)
}.

Definition newLedgers : Ledgers := mkLedgers newCache newCache.

Section WithPackages.
Context `{Packages}.
(** [handleManageOffer] of [optimistic-updates/manage-offer], which is not
    among the sources: it is handed the endpoint, the operation (here its
    type tag) and the transaction. *)
Variable handleManageOffer :
  string → string → Transaction → list (OptimisticUpdate (list OfferRecord)).

Definition ingestOperation (url : string) (operation : Operation)
    (transaction : Transaction) (l : Ledgers) : Ledgers :=
  match operation with
  | OpChangeTrust op =>
      mkLedgers (addUpdates (ChangeTrust.changeTrust url op transaction)
                            (accountDataUpdates l))
                (offerUpdates l)
  | OpSetOptions op =>
      mkLedgers (addUpdates (SetOptions.setAccountOptions url op transaction)
                            (accountDataUpdates l))
                (offerUpdates l)
  | OpOther type =>
      if String.eqb type "manageBuyOffer" || String.eqb type "manageSellOffer"
      then mkLedgers (accountDataUpdates l)
                     (addUpdates (handleManageOffer url type transaction) (offerUpdates l))
      else l
  end.

Definition handleSubmittedTransaction (url : string) (transaction : Transaction)
    (l : Ledgers) : Ledgers :=
  foldl (λ acc operation, ingestOperation url operation transaction acc)
        l (operations transaction).

End WithPackages.

Definition optimisticallyUpdateOffers (url accountID : string)
    (openOffers : list OfferRecord) (l : Ledgers) : list OfferRecord :=
  let optimisticUpdates := getUpdates url accountID (offerUpdates l) in
  foldl (λ updatedOffers update, apply update updatedOffers) openOffers optimisticUpdates.

Definition removeStaleOptimisticUpdates (url : string)
    (latestTransactionHashs : list string) (l : Ledgers) : Ledgers :=
  mkLedgers (removeStaleUpdates url latestTransactionHashs (accountDataUpdates l))
            (removeStaleUpdates url latestTransactionHashs (offerUpdates l)).

(** The account overlays of a transaction: what the two translators make
    of its operations, in the order of the operations. *)
Definition accountOverlaysOf `{Packages} (url : string) (transaction : Transaction)
    : list (OptimisticUpdate AccountResponse) :=
  concat
    (List.map
       (λ operation,
          match operation with
          | OpChangeTrust op => ChangeTrust.changeTrust url op transaction
          | OpSetOptions op => SetOptions.setAccountOptions url op transaction
          | OpOther _ => []
          end)
       (operations transaction)).

End Index.

(* ===================================================================== *)
(** * net-worker/digitalbits-network : what the fetches resolve with     *)
(* ===================================================================== *)

Module Fetches.
Import Ledger Sdk Frontier Http Index.

(** [Frontier.TransactionResponse], the fields read here. *)
Record TransactionRecord : Type := mkTxRecord {
  hash : string;
  paging_token : string
}.

(** [CollectionPage<T>] *)
Record CollectionPage (T : Type) : Type := mkPage {
  records : list T;
  self_href : string;
  next_href : string;
  prev_href : string
}.
Arguments mkPage {T} _ _ _ _.
Arguments records {T} _.
Arguments self_href {T} _.
Arguments next_href {T} _.
Arguments prev_href {T} _.

Section WithPackages.
Context `{Packages}.
Variable handleManageOffer :
  string → string → Transaction → list (OptimisticUpdate (list OfferRecord)).

(** [submitTransaction] once the endpoint has answered: [transaction] is
    [new Transaction(txEnvelopeXdr, network)].  The ledgers take the
    transaction in on status 200 only. *)
Definition submitTransaction (url : string) (transaction : Transaction)
    (response : Response) (l : Ledgers) : Ledgers :=
  if (status response =? 200)%Z
  then Index.handleSubmittedTransaction handleManageOffer url transaction l
  else l.

End WithPackages.

Section Parsing.
(** [parseJSONResponse] of [lib/rest], at the two types it is used at. *)
Variable parseAccount : Response → Error + AccountResponse.
Variable parsePage : Response → Error + CollectionPage TransactionRecord.

(** [b.asset_type !== "liquidity_pool_shares"] *)
Definition notPoolShares (b : BalanceLine) : bool :=
  match b with
  | LinePoolShares _ => false
  | _ => true
  end.

(** [fetchAccountData] once the response is there; [url] is the endpoint
    the request went to.  [None] is [null]. *)
Definition fetchAccountData (url : string) (response : Response) (l : Ledgers)
    : Error + option AccountResponse :=
  if (status response =? 404)%Z then inr None
  else
    match parseAccount response with
    | inl e => inl e
    | inr accountData =>
        let stripped :=
          withBalances accountData (List.filter notPoolShares (balances accountData)) in
        inr (Some (Overlay.optimisticallyUpdateAccountData url stripped
                     (accountDataUpdates l)))
    end.

(** [fetchAccountTransactions] once the response is there; [url] is the
    endpoint the request went to and [requestURL] the text of the request
    URL. *)
Definition fetchAccountTransactions (url requestURL : string) (emptyOn404 : bool)
    (response : Response) (l : Ledgers)
    : (Error + CollectionPage TransactionRecord) * Ledgers :=
  if (status response =? 404)%Z && emptyOn404
  then (inr (mkPage [] requestURL requestURL requestURL), l)
  else
    match parsePage response with
    | inl e => (inl e, l)
    | inr collection =>
        (inr collection,
         removeStaleOptimisticUpdates url (List.map hash (records collection)) l)
    end.

End Parsing.

End Fetches.

(* ===================================================================== *)
(** * A sample submission and its confirmation                           *)
(* ===================================================================== *)

Module Scenario.
Import Ledger Sdk Frontier Http Index Fetches.

(** A [handleManageOffer] that records nothing. *)
Definition noOffers (url type : string) (transaction : Transaction)
    : list (OptimisticUpdate (list OfferRecord)) := [].

Definition accepted : Response := mkResponse 200 "https://frontier.example/transactions" "".
Definition answered : Response :=
  mkResponse 200 "https://frontier.example/accounts/GACCOUNTA/transactions" "".
Definition missing : Response :=
  mkResponse 404 "https://frontier.example/accounts/GACCOUNTA" "".

(** The page the endpoint answers with once [Sample.tx1] is in a ledger. *)
Definition confirmingPage : CollectionPage TransactionRecord :=
  mkPage [mkTxRecord "aa01" "1001"; mkTxRecord "0f0f" "1000"] "self" "next" "prev".

Definition parseConfirming (response : Response)
    : Error + CollectionPage TransactionRecord := inr confirmingPage.

Definition otherFrontier : string := "https://frontier2.example".

(** The account of [Sample.snapshot] as the endpoint reports it once it
    also holds shares of a pool. *)
Definition poolShares : BalanceLine :=
  LinePoolShares (mkPoolLine "5" true true false 0 "10" "pool-1").

Definition reported : AccountResponse :=
  withBalances Sample.snapshot [poolShares; Sample.nativeLine].

Definition parseReported (response : Response) : Error + AccountResponse := inr reported.

(** Giving up the trustline of FOO, on an account that holds FOO and
    shares of a pool. *)
Definition untrustFOO : ChangeTrust :=
  mkChangeTrust None (LineAsset Sample.assetFOO) "0".

Definition untrustTx : Transaction :=
  mkTransaction Sample.accountA "dd04" [OpChangeTrust untrustFOO].

Definition lineFOO : BalanceLine :=
  LineCredit (mkAssetLine "FOO" (Some Sample.issuerI) credit_alphanum4 "12" "0" true true 0
                          "1000" "0" false).

Definition trusting : AccountResponse :=
  withBalances Sample.snapshot [lineFOO; poolShares; Sample.nativeLine].

Definition parseTrusting (response : Response) : Error + AccountResponse := inr trusting.

End Scenario.

(* ===================================================================== *)
(** * Generic/lib/digitalbits : asset identifiers and balance lookup     *)
(* ===================================================================== *)

Module Assets.
Import Sdk Frontier Network.

(** An optional string inside a template literal. *)
Definition showText (text : option string) : string :=
  match text with
  | Some s => s
  | None => "undefined"
  end.

(** [stringifyAsset], whose argument is an [Asset] ([inl]) or a
    [BalanceLine] ([inr]).  A pool entry has neither [asset_issuer] nor
    [asset_code]. *)
Definition stringifyAsset (assetOrTrustline : Asset + BalanceLine) : string :=
  match assetOrTrustline with
  | inl asset =>
      if Asset_isNative asset then "XDB"
      else showText (issuer asset) +:+ ":" +:+ code asset
  | inr (LineNative _) => "XDB"
  | inr (LineCredit line) => showText (asset_issuer line) +:+ ":" +:+ asset_code line
  | inr (LinePoolShares _) => "undefined:undefined"
  end.

(** The text holds no colon. *)
Fixpoint noColon (text : string) : bool :=
  match text with
  | EmptyString => true
  | String c rest => negb (Ascii.eqb c ":"%char) && noColon rest
  end.

(** [findMatchingBalanceLine]: [balances.find(...)] with the callback
    [balancelineToAsset(balance).equals(asset)].  On a pool entry the
    callback hands two undefined fields to the [Asset] constructor, which
    throws, and the search ends there. *)
Fixpoint findMatchingBalanceLine (balances : list BalanceLine) (asset : Asset)
    : Outcome (option BalanceLine) :=
  match balances with
  | [] => Returned None
  | balance :: rest =>
      match ChangeTrust.balancelineToAsset balance with
      | Some a =>
          if Asset_equals a asset then Returned (Some balance)
          else findMatchingBalanceLine rest asset
      | None => Threw "Issuer cannot be null"
      end
  end.

End Assets.

(* ===================================================================== *)
(** * Runs of the net-worker                                             *)
(* ===================================================================== *)

Module Runs.
Import Sdk Network.

(** [count] calls of [getRandomURL] in a row, with one list of URLs. *)
Fixpoint pickURLs (count : nat) (frontierURLs : list string) (st : NetState)
    : list (option string) * NetState :=
  match count with
  | 0 => ([], st)
  | S n =>
      let '(url, st1) := getRandomURL frontierURLs st in
      let '(urls, st2) := pickURLs n frontierURLs st1 in
      (url :: urls, st2)
  end.

(** What a caller of the module can do to its state. *)
Inductive Action : Type :=
  | Subscribe (call : Subscription)
  | ResetAllSubscriptions
  | FetchOrderbookRecord (frontierURLs : list string) (sellingAsset buyingAsset : string)
  | FetchAccountTransactions (frontierURLs : list string) (accountID : string).

Section WithPackages.
Context `{Packages}.

Definition perform (action : Action) (st : NetState) : NetState :=
  match action with
  | Subscribe call => (subscribe call st).2
  | ResetAllSubscriptions => resetAllSubscriptions st
  | FetchOrderbookRecord urls selling buying =>
      (fetchOrderbookRecord urls selling buying st).2
  | FetchAccountTransactions urls accountID =>
      (fetchAccountTransactions urls accountID st).2
  end.

Definition run (actions : list Action) (st : NetState) : NetState :=
  foldl (λ acc action, perform action acc) st actions.

End WithPackages.

(** No stream object is cached under two keys or in two caches. *)
Definition handlesApart (st : NetState) : Prop :=
  ∀ call1 key1 h1 call2 key2 h2,
    cacheOf call1 st !! key1 = Some h1 →
    cacheOf call2 st !! key2 = Some h2 →
    obs_id h1 = obs_id h2 →
    sameFunction call1 call2 = true ∧ key1 = key2.

(** From one state to a later one no fetch queue is dropped or replaced,
    and the queues stay configured. *)
Definition queuesKept (st st' : NetState) : Prop :=
  (∀ url q, fetchQueuesByFrontier st !! url = Some q →
            fetchQueuesByFrontier st' !! url = Some q)
  ∧ (queuesConfigured st → queuesConfigured st').

(** The handle is newer than every cached one. *)
Definition aboveCached (h : Observable) (st : NetState) : Prop :=
  (∀ call key h', cacheOf call st !! key = Some h' → obs_id h' < obs_id h)
  ∧ obs_id h < nextObject st.

End Runs.

(* ===================================================================== *)
(** * The handlers of the live streams                                   *)
(* ===================================================================== *)

Module Streams.
Import Ledger Sdk Frontier Network.

(** [!!text] for an optional string. *)
Definition truthy (text : option string) : bool :=
  match text with
  | Some s => negb (String.eqb s "")
  | None => false
  end.

Section Coordinator.
Context {Update Closure : Type}.
Variable shouldApplyUpdate : Update → Closure → bool.
Variable applyUpdate : Update → Closure → Update * Closure.

(** Modelled from the spec: the live phase of the update-and-poll
    coordinator of [lib/subscription], which is not among the sources.  A
    candidate is applied only if [shouldApplyUpdate] returns true; the
    applied values, oldest first, are what the stream yields. *)
Fixpoint live (candidates : list Update) (c : Closure) : list Update * Closure :=
  match candidates with
  | [] => ([], c)
  | candidate :: later =>
      if shouldApplyUpdate candidate c then
        let '(applied, c1) := applyUpdate candidate c in
        let '(rest, c2) := live later c1 in
        (applied :: rest, c2)
      else live later c
  end.

End Coordinator.

(** ** [subscribeToAccountEffectsUncached] *)

(** [ServerApi.EffectRecord], the fields read. *)
Record EffectRecord : Type := mkEffect {
  effect_paging_token : string;
  created_at : string;
  effect_type : string;
  effect_account : string
}.

(** The variables [latestCursor] and [latestEffectCreatedAt] of one call. *)
Record EffectsClosure : Type := mkEffects {
  latestCursor : option string;
  latestEffectCreatedAt : option string
}.

Definition newEffectsClosure : EffectsClosure := mkEffects None None.

Definition effectsApplyUpdate (update : EffectRecord) (c : EffectsClosure)
    : EffectRecord * EffectsClosure :=
  (update, mkEffects (Some (effect_paging_token update)) (Some (created_at update))).

(** [init], from the point where the latest effect is known ([None] when
    there is none, also after the wait for the account). *)
Definition effectsInit (effect : option EffectRecord) (c : EffectsClosure)
    : option EffectRecord * EffectsClosure :=
  (effect,
   mkEffects
     (match effect with Some e => Some (effect_paging_token e) | None => latestCursor c end)
     (match effect with Some e => Some (created_at e) | None => latestEffectCreatedAt c end)).

(** [shouldApplyUpdate].  [>=] on strings compares code units; time stamps
    are ASCII, where that is the order of [String.leb].  Against
    [undefined] the comparison is false. *)
Definition effectsShouldApplyUpdate (update : EffectRecord) (c : EffectsClosure) : bool :=
  negb (truthy (latestEffectCreatedAt c))
  || (match latestEffectCreatedAt c with
      | Some latest => String.leb latest (created_at update)
      | None => false
      end
      && negb (bool_decide (Some (effect_paging_token update) = latestCursor c))).

(** [cursor: latestCursor || "now"] in [createURL] *)
Definition effectsCursor (c : EffectsClosure) : string :=
  match latestCursor c with
  | Some cursor => if String.eqb cursor "" then "now" else cursor
  | None => "now"
  end.

(** ** [subscribeToAccountUncached] *)

Section AccountStream.
(** [JSON.stringify] on the pair of a sequence number and the balances. *)
Variable stringify : string * list BalanceLine → string.

Definition createSnapshot (accountData : AccountResponse) : string :=
  stringify (sequence accountData, balances accountData).

(** The module-level [accountDataCache] and the variable [latestSnapshot]
    of one call. *)
Record AccountClosure : Type := mkAccountClosure {
  accountDataCache : gmap string (option AccountResponse);
  latestSnapshot : option string
}.

Definition accountApplyUpdate (cacheKey : string) (update : option AccountResponse)
    (c : AccountClosure) : option AccountResponse * AccountClosure :=
  match update with
  | Some accountData =>
      (update,
       mkAccountClosure (<[cacheKey := Some accountData]> (accountDataCache c))
                        (Some (createSnapshot accountData)))
  | None => (update, c)
  end.

Definition accountShouldApplyUpdate (update : option AccountResponse) (c : AccountClosure)
    : bool :=
  match update with
  | Some accountData =>
      negb (truthy (latestSnapshot c))
      || negb (bool_decide (Some (createSnapshot accountData) = latestSnapshot c))
  | None => false
  end.

(** [init]; [waited] is the account data [waitForAccountData] resolves
    with, asked for only when the cache has nothing for the key. *)
Definition accountInit (cacheKey : string) (waited : AccountResponse) (c : AccountClosure)
    : AccountResponse * AccountClosure :=
  match accountDataCache c !! cacheKey with
  | Some (Some lastKnownAccountData) =>
      (lastKnownAccountData,
       mkAccountClosure (accountDataCache c) (Some (createSnapshot lastKnownAccountData)))
  | _ =>
      (waited,
       mkAccountClosure (<[cacheKey := Some waited]> (accountDataCache c)) (latestSnapshot c))
  end.

(** [handleNewOptimisticUpdate] followed by
    [filter(accountData => Boolean(accountData))]: [None] when the filter
    drops the value. *)
Definition handleNewOptimisticUpdate (accountID : string) (frontierURL : option string)
    (cacheKey : string) (newOptimisticUpdate : OptimisticUpdate AccountResponse)
    (ledger : Cache AccountResponse) (c : AccountClosure) : option AccountResponse :=
  let accountData := accountDataCache c !! cacheKey in
  if String.eqb (effectsAccountID newOptimisticUpdate) accountID
     && bool_decide (Some (Ledger.frontierURL newOptimisticUpdate) = frontierURL)
  then
    match accountData, frontierURL with
    | Some (Some data), Some url =>
        Some (Overlay.optimisticallyUpdateAccountData url data ledger)
    | _, _ => None
    end
  else
    match accountData with
    | Some (Some data) => Some data
    | _ => None
    end.

End AccountStream.

(** ** [createMessageDeduplicator] of [Generic/lib/stream] *)

Section MessageDeduplicator.
Context {Message : Type}.
(** [JSON.stringify] on messages. *)
Variable stringify : Message → string.

(** One call of [deduplicateMessage]: the message handed to the handler,
    if any, and the new [lastMessageJson]. *)
Definition deduplicateMessage (message : Message) (lastMessageJson : string)
    : option Message * string :=
  let serialized := stringify message in
  if negb (String.eqb serialized lastMessageJson)
  then (Some message, serialized)
  else (None, lastMessageJson).

(** The messages handed to the handler over a series of calls. *)
Fixpoint deduplicated (messages : list Message) (lastMessageJson : string)
    : list Message * string :=
  match messages with
  | [] => ([], lastMessageJson)
  | message :: later =>
      let '(handled, last1) := deduplicateMessage message lastMessageJson in
      let '(rest, last2) := deduplicated later last1 in
      (match handled with Some m => m :: rest | None => rest end, last2)
  end.

(** The messages that differ from the message received just before them. *)
Fixpoint changesOnly (previous : string) (messages : list Message) : list Message :=
  match messages with
  | [] => []
  | message :: later =>
      (if String.eqb (stringify message) previous then [] else [message])
      ++ changesOnly (stringify message) later
  end.

End MessageDeduplicator.

(** ** [manageStreamConnection] of [Generic/lib/stream] *)

(** [event.data] of a message event, as the handler tells them apart. *)
Inductive WindowMessage : Type := AppPause | AppResume | OtherMessage.

(** The calls made to the surroundings: [connectStream()], numbered in
    the order of the calls, and the unsubscribe function the n-th call
    returned. *)
Inductive StreamCall : Type :=
  | Connect (n : nat)
  | Unsubscribe (n : nat).

#[global] Instance StreamCall_eq_dec : EqDecision StreamCall.
Proof. solve_decision. Defined.

(** [unsubscribeFromCurrent] (the number of the connection whose
    unsubscribe function it holds), the number of connections made,
    whether the message handler is registered, and the calls so far. *)
Record Manager : Type := mkManager {
  unsubscribeFromCurrent : nat;
  connectionsMade : nat;
  listening : bool;
  calls : list StreamCall
}.

(** [manageStreamConnection(connectStream)] up to its [return]. *)
Definition manageStreamConnection : Manager := mkManager 0 1 true [Connect 0].

Definition messageHandler (event : WindowMessage) (m : Manager) : Manager :=
  if listening m then
    match event with
    | AppPause =>
        mkManager (unsubscribeFromCurrent m) (connectionsMade m) true
                  (calls m ++ [Unsubscribe (unsubscribeFromCurrent m)])
    | AppResume =>
        mkManager (connectionsMade m) (S (connectionsMade m)) true
                  (calls m ++ [Connect (connectionsMade m)])
    | OtherMessage => m
    end
  else m.

Definition unsubscribeCompletely (m : Manager) : Manager :=
  mkManager (unsubscribeFromCurrent m) (connectionsMade m) false
            (calls m ++ [Unsubscribe (unsubscribeFromCurrent m)]).

(** A session: messages arrive, then the stream is given up. *)
Definition session (events : list WindowMessage) : Manager :=
  unsubscribeCompletely (foldl (λ m event, messageHandler event m) manageStreamConnection events).

(** Pauses and resumes take turns, a pause first. *)
Fixpoint takeTurns (paused : bool) (events : list WindowMessage) : bool :=
  match events with
  | [] => true
  | AppPause :: later => negb paused && takeTurns true later
  | AppResume :: later => paused && takeTurns false later
  | OtherMessage :: later => takeTurns paused later
  end.

End Streams.

(* ===================================================================== *)
(** * Generic/lib/digitalbits-address : the kinds of addresses           *)
(* ===================================================================== *)

Module Addresses.

(** The regular expressions the three tests are written with: classes of
    characters, sequence, choice and [+]. *)
Inductive Re : Type :=
  | Nothing
  | Eps
  | Class (p : ascii → bool)
  | Cat (r1 r2 : Re)
  | Alt (r1 r2 : Re)
  | Plus (r : Re).

(** [r{n}] *)
Fixpoint times (n : nat) (r : Re) : Re :=
  match n with
  | 0 => Eps
  | S n' => Cat r (times n' r)
  end.

Fixpoint nullable (r : Re) : bool :=
  match r with
  | Nothing => false
  | Eps => true
  | Class _ => false
  | Cat r1 r2 => nullable r1 && nullable r2
  | Alt r1 r2 => nullable r1 || nullable r2
  | Plus r1 => nullable r1
  end.

(** What is left of [r] after the character [c]. *)
Fixpoint deriv (c : ascii) (r : Re) : Re :=
  match r with
  | Nothing => Nothing
  | Eps => Nothing
  | Class p => if p c then Eps else Nothing
  | Cat r1 r2 =>
      Alt (Cat (deriv c r1) r2) (if nullable r1 then deriv c r2 else Nothing)
  | Alt r1 r2 => Alt (deriv c r1) (deriv c r2)
  | Plus r1 => Cat (deriv c r1) (Alt Eps (Plus r1))
  end.

(** [^r$] matched against the whole text. *)
Fixpoint matchesAll (r : Re) (text : list ascii) : bool :=
  match text with
  | [] => nullable r
  | c :: rest => matchesAll (deriv c r) rest
  end.

(** The texts of a regular expression. *)
Inductive Lang : Re → list ascii → Prop :=
  | Lang_eps : Lang Eps []
  | Lang_class p c : p c = true → Lang (Class p) [c]
  | Lang_cat r1 r2 s1 s2 : Lang r1 s1 → Lang r2 s2 → Lang (Cat r1 r2) (s1 ++ s2)
  | Lang_alt_l r1 r2 s : Lang r1 s → Lang (Alt r1 r2) s
  | Lang_alt_r r1 r2 s : Lang r2 s → Lang (Alt r1 r2) s
  | Lang_plus_one r s : Lang r s → Lang (Plus r) s
  | Lang_plus_more r s1 s2 : Lang r s1 → Lang (Plus r) s2 → Lang (Plus r) (s1 ++ s2).

(** The character classes. *)
Definition exactly (x : ascii) (c : ascii) : bool := Ascii.eqb c x.

Definition noneOf (excluded : list ascii) (c : ascii) : bool :=
  negb (existsb (Ascii.eqb c) excluded).

(** [[A-Z0-9]] *)
Definition upperOrDigit (c : ascii) : bool :=
  let n := N_of_ascii c in
  ((65 <=? n)%N && (n <=? 90)%N) || ((48 <=? n)%N && (n <=? 57)%N).

Definition star : ascii := "*"%char.
Definition dot : ascii := "."%char.
Definition blanks : list ascii :=
  [">"%char; " "%char; ascii_of_nat 9; ascii_of_nat 10; ascii_of_nat 13].

(** [/^G[A-Z0-9]{55}$/] *)
Definition publicKeyRe : Re := Cat (Class (exactly "G"%char)) (times 55 (Class upperOrDigit)).

(** [/^M[A-Z0-9]{68}$/] *)
Definition muxedAddressRe : Re := Cat (Class (exactly "M"%char)) (times 68 (Class upperOrDigit)).

(** [/^[^\*> \t\n\r]+\*[^\*\.> \t\n\r]+\.[^\*> \t\n\r]+$/] *)
Definition digitalBitsAddressRe : Re :=
  Cat (Plus (Class (noneOf (star :: blanks))))
      (Cat (Class (exactly star))
           (Cat (Plus (Class (noneOf (star :: dot :: blanks))))
                (Cat (Class (exactly dot))
                     (Plus (Class (noneOf (star :: blanks))))))).

Definition isPublicKey (str : string) : bool :=
  matchesAll publicKeyRe (String.list_ascii_of_string str).

Definition isMuxedAddress (str : string) : bool :=
  matchesAll muxedAddressRe (String.list_ascii_of_string str).

Definition isDigitalBitsAddress (str : string) : bool :=
  matchesAll digitalBitsAddressRe (String.list_ascii_of_string str).

End Addresses.

(* ===================================================================== *)
(** * net-worker/digitalbits-network : waiting for an account, once      *)
(* ===================================================================== *)

Module Waiting.
Import Network.

(** A wait that was started: the endpoint picked for it, the account, and
    whether it was given a [shouldCancel] callback. *)
Record Started : Type := mkStarted {
  waitsAt : option string;
  waitsFor : string;
  withShouldCancel : bool
}.

(** A promise object.  [promise_id] is its identity, the objects being
    numbered as they are made; [settlesAs] is the number of the promise
    whose outcome it takes: its own, or that of the promise it was
    resolved with. *)
Record Promise : Type := mkPromise {
  promise_id : nat;
  settlesAs : nat
}.

(** The module state [waitForAccountData] touches: the state of the
    subscriptions, the map [accountDataWaitingCache] from keys to pending
    promises, the number of promise objects made, and the waits started
    so far. *)
Record WaitState : Type := mkWaitState {
  net : NetState;
  accountDataWaitingCache : gmap string Promise;
  promisesMade : nat;
  waits : list Started
}.

(** [waitForAccountData] up to its [return].  It is an [async] function:
    every call makes a promise object of its own and returns it, resolved
    with what the body returns, the pending promise or [justStarted].  A
    wait that is started runs [waitForAccountDataUncached], which makes
    [justStarted], up to its first [await], which takes the fetch queue of
    the endpoint; [justStarted.then(...)] makes a third object. *)
Definition waitForAccountData (frontierURLs : list string) (accountID : string)
    (shouldCancel : bool) (st : WaitState) : Promise * WaitState :=
  let returned := promisesMade st in
  let cacheKey := createAccountCacheKey frontierURLs accountID in
  let pending := accountDataWaitingCache st !! cacheKey in
  let '(frontierURL, net1) := getRandomURL frontierURLs (net st) in
  match pending with
  | Some promise =>
      (mkPromise returned (settlesAs promise),
       mkWaitState net1 (accountDataWaitingCache st) (S returned) (waits st))
  | None =>
      let '(_, net2) := getFetchQueue frontierURL net1 in
      let justStarted := mkPromise (S returned) (S returned) in
      (mkPromise returned (settlesAs justStarted),
       mkWaitState net2 (<[cacheKey := justStarted]> (accountDataWaitingCache st))
                   (S (S (S returned)))
                   (waits st ++ [mkStarted frontierURL accountID shouldCancel]))
  end.

(** The callbacks of [justStarted.then(...)]: whether the promise was
    fulfilled or rejected, the key is taken out. *)
Definition settled (frontierURLs : list string) (accountID : string) (st : WaitState)
    : WaitState :=
  mkWaitState (net st)
              (delete (createAccountCacheKey frontierURLs accountID)
                      (accountDataWaitingCache st))
              (promisesMade st) (waits st).

End Waiting.

(* ===================================================================== *)
(** * Runs of the wait for an account                                    *)
(* ===================================================================== *)

Module WaitRuns.
Import Http AccountWait.

(** A turn that ends in a retry: no cancellation, and the endpoint
    answers with status 404. *)
Definition retried (haveShouldCancel : bool) (round : Round) : bool :=
  negb (haveShouldCancel && cancelAnswer round)
  && match fetched round with
     | Responded response => (status response =? 404)%Z
     | FetchFailed _ => false
     end.

(** A turn that finds the account: no cancellation, and the endpoint
    answers with status 200; the response it answers with. *)
Definition found (haveShouldCancel : bool) (round : Round) : option Response :=
  if haveShouldCancel && cancelAnswer round then None
  else match fetched round with
       | Responded response => if (status response =? 200)%Z then Some response else None
       | FetchFailed _ => None
       end.

End WaitRuns.

(* ===================================================================== *)
(** * Facts about the optimistic-update ledger                           *)
(* ===================================================================== *)

Section LedgerFacts.
Import Ledger.
Context {T : Type}.
Implicit Types (c : Cache T) (u : OptimisticUpdate T) (l : list (OptimisticUpdate T)).
Implicit Types (m : gmap string (list (OptimisticUpdate T))).

Lemma indexOfFrom_range (xs : list string) x i :
  JS.indexOfFrom i xs x = (-1)%Z ∨ (i ≤ JS.indexOfFrom i xs x)%Z.
Proof.
  revert i; induction xs as [|y ys IH]; intros i; simpl; [by left|].
  destruct (String.eqb y x); [right; lia|].
  destruct (IH (i + 1)%Z) as [->|Hle]; [by left | right; lia].
Qed.

Lemma indexOfFrom_found (xs : list string) x i :
  (0 ≤ i)%Z → (JS.indexOfFrom i xs x >? -1)%Z = true ↔ x ∈ xs.
Proof.
  revert i; induction xs as [|y ys IH]; intros i Hi; simpl.
  - split; [done | by intros ?%elem_of_nil].
  - destruct (String.eqb_spec y x) as [->|Hne].
    + split; [intros _; left | intros _; lia].
    + rewrite IH; [|lia]. rewrite elem_of_cons.
      split; [by right | intros [Heq|Hin]; [by destruct Hne | done]].
Qed.

Lemma indexOf_found (xs : list string) x :
  (JS.indexOf xs x >? -1)%Z = true ↔ x ∈ xs.
Proof. by apply indexOfFrom_found. Qed.

Lemma isStale_true url (hashes : list string) u :
  isStale url hashes u = true ↔ frontierURL u = url ∧ transactionHash u ∈ hashes.
Proof.
  unfold isStale. rewrite andb_true_iff, indexOf_found, String.eqb_eq. done.
Qed.

Lemma isStale_same_url url (hashes : list string) u :
  frontierURL u = url →
  negb (isStale url hashes u) = negb (bool_decide (transactionHash u ∈ hashes)).
Proof.
  intros Hu. f_equal. apply eq_true_iff_eq.
  rewrite isStale_true, bool_decide_eq_true.
  split; [by intros [_ ?] | by intros ?].
Qed.

Lemma filter_RemovesExactly {A} (keep : A → bool) (xs : list A) :
  RemovesExactly (λ x, keep x = false) xs (List.filter keep xs).
Proof.
  induction xs as [|x xs IH]; simpl; [constructor|].
  destruct (keep x) eqn:Hk.
  - apply RemovesExactly_keep; [congruence | done].
  - by apply RemovesExactly_drop.
Qed.

Lemma RemovesExactly_iff {A} (P Q : A → Prop) (xs ys : list A) :
  (∀ x, P x ↔ Q x) → RemovesExactly P xs ys → RemovesExactly Q xs ys.
Proof.
  intros HPQ; induction 1.
  - constructor.
  - apply RemovesExactly_drop; [by apply HPQ | done].
  - apply RemovesExactly_keep; [by rewrite <- HPQ | done].
Qed.

Lemma filter_same_length {A} (keep : A → bool) (xs : list A) :
  length (List.filter keep xs) = length xs → List.filter keep xs = xs.
Proof.
  induction xs as [|x xs IH]; simpl; [done|].
  destruct (keep x); simpl; intros Hlen.
  - f_equal. apply IH. lia.
  - pose proof (List.filter_length_le keep xs). lia.
Qed.

Lemma filter_twice {A} (keep : A → bool) (xs : list A) :
  List.filter keep (List.filter keep xs) = List.filter keep xs.
Proof.
  induction xs as [|x xs IH]; simpl; [done|].
  destruct (keep x) eqn:Hk; simpl; rewrite ?Hk, IH; done.
Qed.

Lemma removeStaleAt_lookup url hashes m selector k :
  removeStaleAt url hashes m selector !! k
  = if decide (selector = k)
    then List.filter (λ u, negb (isStale url hashes u)) <$> m !! k
    else m !! k.
Proof.
  unfold removeStaleAt.
  destruct (m !! selector) as [prev|] eqn:Hprev.
  - destruct (Nat.eqb_spec
      (length (List.filter (λ u, negb (isStale url hashes u)) prev)) (length prev))
      as [Hlen|Hlen].
    + case_decide; subst; [|done].
      rewrite Hprev; simpl. by rewrite filter_same_length.
    + rewrite lookup_insert. case_decide; subst; [|done]. by rewrite Hprev.
  - case_decide; subst; [|done]. by rewrite Hprev.
Qed.

Lemma removeStale_fold_lookup url hashes (selectors : list string) m k :
  foldl (removeStaleAt url hashes) m selectors !! k
  = if decide (k ∈ selectors)
    then List.filter (λ u, negb (isStale url hashes u)) <$> m !! k
    else m !! k.
Proof.
  revert m; induction selectors as [|s rest IH]; intros m.
  - destruct (decide (k ∈ [])) as [Hin|Hin]; [by apply elem_of_nil in Hin | done].
  - cbn [foldl]. rewrite IH, removeStaleAt_lookup.
    destruct (decide (s = k)) as [->|Hne].
    + destruct (decide (k ∈ k :: rest)) as [_|Hout]; [|by destruct Hout; left].
      destruct (decide (k ∈ rest)); [|done].
      destruct (m !! k) as [prev|]; simpl; [|done]. by rewrite filter_twice.
    + destruct (decide (k ∈ rest)) as [Hin|Hin].
      * destruct (decide (k ∈ s :: rest)) as [_|Hout]; [done | by destruct Hout; right].
      * destruct (decide (k ∈ s :: rest)) as [Hin'|_]; [|done].
        apply elem_of_cons in Hin' as [->|?]; done.
Qed.

Lemma removeStaleUpdates_lookup url hashes c k :
  updates (removeStaleUpdates url hashes c) !! k
  = List.filter (λ u, negb (isStale url hashes u)) <$> updates c !! k.
Proof.
  unfold removeStaleUpdates; simpl. rewrite removeStale_fold_lookup.
  case_decide as Hin; [done|].
  destruct (updates c !! k) as [prev|] eqn:Hk; [|done].
  exfalso; apply Hin. apply list_elem_of_fmap. exists (k, prev).
  split; [done|]. by apply elem_of_map_to_list.
Qed.

Lemma getUpdates_removeStaleUpdates url hashes c frontier accountID :
  getUpdates frontier accountID (removeStaleUpdates url hashes c)
  = List.filter (λ u, negb (isStale url hashes u)) (getUpdates frontier accountID c).
Proof.
  unfold getUpdates. rewrite removeStaleUpdates_lookup.
  by destruct (updates c !! _).
Qed.

Lemma addUpdate_lookup c u k :
  updates (addUpdate c u) !! k
  = if decide (createAccountCacheKey u = k)
    then Some (default [] (updates c !! k) ++ [u])
    else updates c !! k.
Proof.
  unfold addUpdate; simpl. rewrite lookup_insert.
  case_decide; by subst.
Qed.

Lemma getUpdates_addUpdate c u url accountID :
  getUpdates url accountID (addUpdate c u)
  = getUpdates url accountID c
    ++ (if decide (createAccountCacheKey u = createAccountCacheKeyByFilter url accountID)
        then [u] else []).
Proof.
  unfold getUpdates. rewrite addUpdate_lookup.
  case_decide; simpl; [done | by rewrite app_nil_r].
Qed.

Lemma getUpdates_addUpdates us c url accountID :
  Forall (λ u, frontierURL u = url ∧ effectsAccountID u = accountID) us →
  getUpdates url accountID (addUpdates us c) = getUpdates url accountID c ++ us.
Proof.
  unfold addUpdates. revert c; induction us as [|u us IH]; intros c Hus; simpl.
  - by rewrite app_nil_r.
  - apply Forall_cons in Hus as [[Hurl Hacc] Hus].
    rewrite IH by done. rewrite getUpdates_addUpdate.
    rewrite decide_True; [by rewrite <- app_assoc|].
    unfold createAccountCacheKey. by rewrite Hurl, Hacc.
Qed.

Lemma emitted_addUpdates us c : emitted (addUpdates us c) = emitted c ++ us.
Proof.
  unfold addUpdates. revert c; induction us as [|u us IH]; intros c; simpl.
  - by rewrite app_nil_r.
  - rewrite IH; simpl. by rewrite <- app_assoc.
Qed.

Lemma addUpdates_batches (batches : list (list (OptimisticUpdate T))) c :
  foldl (λ acc batch, addUpdates batch acc) c batches = addUpdates (concat batches) c.
Proof.
  unfold addUpdates. revert c; induction batches as [|b bs IH]; intros c; simpl; [done|].
  by rewrite IH, foldl_app.
Qed.

End LedgerFacts.

Section RetiringFacts.
Import Ledger.
Context {A : Type}.

Lemma RemovesExactly_elem_of (P : A → Prop) (xs ys : list A) x :
  RemovesExactly P xs ys → x ∈ ys ↔ x ∈ xs ∧ ¬ P x.
Proof.
  induction 1 as [|y xs ys Hy _ IH|y xs ys Hy _ IH].
  - split; [by intros ?%elem_of_nil | by intros [?%elem_of_nil _]].
  - rewrite IH, elem_of_cons. split; [tauto|].
    intros [[->|Hin] Hx]; [contradiction | done].
  - rewrite !elem_of_cons, IH. split.
    + intros [->|[Hin Hx]]; [split; [by left | done] | split; [by right | done]].
    + intros [[->|Hin] Hx]; [by left | by right].
Qed.

Lemma RemovesExactly_sublist (P : A → Prop) (xs ys : list A) :
  RemovesExactly P xs ys → sublist ys xs.
Proof. induction 1; by constructor. Qed.

Lemma RemovesExactly_functional (P : A → Prop) (xs ys zs : list A) :
  RemovesExactly P xs ys → RemovesExactly P xs zs → ys = zs.
Proof.
  intros Hy; revert zs; induction Hy as [|x xs ys Hx _ IH|x xs ys Hx _ IH];
    intros zs Hz; inversion Hz; subst; try done; try contradiction.
  - by apply IH.
  - f_equal. by apply IH.
Qed.

Lemma RemovesExactly_without (P Q : A → Prop) (xs ys : list A) :
  RemovesExactly (λ x, P x ∨ Q x) xs ys →
  Forall (λ x, ¬ Q x) xs →
  RemovesExactly P xs ys.
Proof.
  induction 1 as [|x xs ys Hx _ IH|x xs ys Hx _ IH]; intros Hnone;
    [constructor| |]; apply Forall_cons in Hnone as [Hq Hrest].
  - apply RemovesExactly_drop; [by destruct Hx | by apply IH].
  - apply RemovesExactly_keep; [tauto | by apply IH].
Qed.

End RetiringFacts.

Section LedgerClaims.
Import Ledger Frontier Overlay.

(** C1.  In every ledger state, for every endpoint URL and every list of
    transaction hashes, [removeStaleUpdates] takes out of each stored list
    exactly the entries whose [frontierURL] is that URL and whose
    [transactionHash] occurs in the list; all other entries stay, in their
    order, under the same selectors, and nothing is emitted. *)
Theorem removeStaleUpdates_removes_exactly {T} (c : Cache T) (url : string)
    (hashes : list string) :
  dom (updates (removeStaleUpdates url hashes c)) = dom (updates c)
  ∧ emitted (removeStaleUpdates url hashes c) = emitted c
  ∧ ∀ selector,
      match updates c !! selector with
      | Some entries =>
          ∃ remaining,
            updates (removeStaleUpdates url hashes c) !! selector = Some remaining
            ∧ RemovesExactly
                (λ e, frontierURL e = url ∧ transactionHash e ∈ hashes)
                entries remaining
      | None => updates (removeStaleUpdates url hashes c) !! selector = None
      end.
Proof.
  split; [|split; [done|]].
  - apply set_eq; intros k. rewrite !elem_of_dom, removeStaleUpdates_lookup.
    by rewrite fmap_is_Some.
  - intros selector. rewrite removeStaleUpdates_lookup.
    destruct (updates c !! selector) as [entries|]; simpl; [|done].
    eexists; split; [done|].
    eapply RemovesExactly_iff; [|apply filter_RemovesExactly].
    intros e; simpl. rewrite negb_false_iff. apply isStale_true.
Qed.

(** Three entries under two endpoints: retiring hash ["aa01"] at the first
    endpoint leaves the entry with that hash at the other endpoint, and
    the entry with another hash at the first. *)
Example removeStaleUpdates_on_sample :
  let entry url hash : OptimisticUpdate AccountResponse :=
    mkUpdate (λ s, s) Sample.accountA url (url +:+ "#" +:+ hash) hash in
  let ledger :=
    addUpdates [entry "https://one" "aa01"; entry "https://two" "aa01";
                entry "https://one" "bb02"] newCache in
  List.map title
    (getUpdates "https://one" Sample.accountA (removeStaleUpdates "https://one" ["aa01"] ledger))
  = ["https://one#bb02"]
  ∧ List.map title
      (getUpdates "https://two" Sample.accountA
         (removeStaleUpdates "https://one" ["aa01"] ledger))
    = ["https://two#aa01"].
Proof. split; vm_compute; reflexivity. Qed.

Lemma filter_not_stale_same_url url hashes (us : list (OptimisticUpdate AccountResponse)) :
  Forall (λ u, frontierURL u = url) us →
  List.filter (λ u, negb (isStale url hashes u)) us = notConfirmed hashes us.
Proof.
  unfold notConfirmed. induction 1 as [|u us Hu _ IH]; simpl; [done|].
  by rewrite IH, (isStale_same_url _ _ _ Hu).
Qed.

Lemma optimisticallyUpdateAccountData_fold url base c :
  optimisticallyUpdateAccountData url base c
  = applyAll (getUpdates url (account_id base) c) base.
Proof. done. Qed.

Lemma applyAll_app us vs base : applyAll (us ++ vs) base = applyAll vs (applyAll us base).
Proof. unfold applyAll. by rewrite foldl_app. Qed.

(** C2.  Updates added by any number of [addUpdates] calls for one
    (frontierURL, account) key come back from [getUpdates] behind the ones
    already stored, in the order they were added, and the optimistic
    snapshot is the left fold of their [apply] functions in that order;
    after [removeStaleUpdates] for a list of hashes, what comes back and
    what is folded are the updates whose hash is not in the list. *)
Theorem updates_fold_in_insertion_order
    (c0 : Cache AccountResponse)
    (batches : list (list (OptimisticUpdate AccountResponse)))
    (url accountID : string) (base : AccountResponse) (hashes : list string) :
  Forall (Forall (λ u, frontierURL u = url ∧ effectsAccountID u = accountID)) batches →
  account_id base = accountID →
  getUpdates url accountID (foldl (λ acc batch, addUpdates batch acc) c0 batches)
    = getUpdates url accountID c0 ++ concat batches
  ∧ optimisticallyUpdateAccountData url base
      (foldl (λ acc batch, addUpdates batch acc) c0 batches)
    = applyAll (concat batches) (optimisticallyUpdateAccountData url base c0)
  ∧ getUpdates url accountID
      (removeStaleUpdates url hashes (foldl (λ acc batch, addUpdates batch acc) c0 batches))
    = getUpdates url accountID (removeStaleUpdates url hashes c0)
      ++ notConfirmed hashes (concat batches)
  ∧ optimisticallyUpdateAccountData url base
      (removeStaleUpdates url hashes (foldl (λ acc batch, addUpdates batch acc) c0 batches))
    = applyAll (notConfirmed hashes (concat batches))
        (optimisticallyUpdateAccountData url base (removeStaleUpdates url hashes c0)).
Proof.
  intros Hbatches Hbase.
  assert (Hall : Forall (λ u, frontierURL u = url ∧ effectsAccountID u = accountID)
                        (concat batches)).
  { induction Hbatches; simpl; [constructor | by apply Forall_app]. }
  assert (Hurl : Forall (λ u, frontierURL u = url) (concat batches)).
  { eapply Forall_impl; [exact Hall | by intros ? [? _]]. }
  rewrite addUpdates_batches.
  assert (Hget : getUpdates url accountID (addUpdates (concat batches) c0)
                 = getUpdates url accountID c0 ++ concat batches)
    by by apply getUpdates_addUpdates.
  assert (Hlive : getUpdates url accountID
                    (removeStaleUpdates url hashes (addUpdates (concat batches) c0))
                  = getUpdates url accountID (removeStaleUpdates url hashes c0)
                    ++ notConfirmed hashes (concat batches)).
  { rewrite !getUpdates_removeStaleUpdates, Hget, List.filter_app.
    by rewrite (filter_not_stale_same_url _ _ _ Hurl). }
  rewrite !optimisticallyUpdateAccountData_fold, Hbase, Hget, Hlive, !applyAll_app.
  done.
Qed.

Lemma updates_fold_in_insertion_order_witness :
  optimisticallyUpdateAccountData Sample.frontier Sample.snapshot
    (removeStaleUpdates Sample.frontier ["aa01"]
       (foldl (λ acc batch, addUpdates batch acc) newCache Sample.batches))
  = applyAll (notConfirmed ["aa01"] (concat Sample.batches))
      (optimisticallyUpdateAccountData Sample.frontier Sample.snapshot
         (removeStaleUpdates Sample.frontier ["aa01"] newCache)).
Proof.
  apply (updates_fold_in_insertion_order newCache Sample.batches Sample.frontier
           Sample.accountA Sample.snapshot ["aa01"]).
  - repeat constructor.
  - reflexivity.
Defined.

(** Both sample overlays are live before any confirmation: the snapshot
    shows the FOO trustline and the zeroed master weight.  Once the hash of
    the trustline transaction is confirmed only the weight change is
    overlaid. *)
Example sample_overlays_before_and_after_confirmation :
  optimisticallyUpdateAccountData Sample.frontier Sample.snapshot
    (foldl (λ acc batch, addUpdates batch acc) newCache Sample.batches)
  = withSigners
      (withBalances Sample.snapshot
         [Sample.nativeLine;
          LineCredit (mkAssetLine "FOO" (Some Sample.issuerI) credit_alphanum12 "0" "0"
                                  false false 0 "1000" "0" false)])
      [mkSigner Sample.accountA ed25519_public_key 0;
       mkSigner "GCOSIGNER" ed25519_public_key 1]
  ∧ optimisticallyUpdateAccountData Sample.frontier Sample.snapshot
      (removeStaleUpdates Sample.frontier ["aa01"]
         (foldl (λ acc batch, addUpdates batch acc) newCache Sample.batches))
    = withSigners Sample.snapshot
        [mkSigner Sample.accountA ed25519_public_key 0;
         mkSigner "GCOSIGNER" ed25519_public_key 1].
Proof. split; vm_compute; reflexivity. Qed.

(** On a ledger that has just been created the stored updates are the
    added ones and nothing else. *)
Corollary fresh_ledger_holds_added_updates
    (us : list (OptimisticUpdate AccountResponse)) (url accountID : string)
    (hashes : list string) :
  Forall (λ u, frontierURL u = url ∧ effectsAccountID u = accountID) us →
  getUpdates url accountID (addUpdates us newCache) = us
  ∧ getUpdates url accountID (removeStaleUpdates url hashes (addUpdates us newCache))
    = notConfirmed hashes us.
Proof.
  intros Hus.
  assert (Hurl : Forall (λ u, frontierURL u = url) us).
  { eapply Forall_impl; [exact Hus | by intros ? [? _]]. }
  rewrite getUpdates_removeStaleUpdates, getUpdates_addUpdates by done.
  split; [done|]. by apply filter_not_stale_same_url.
Qed.

End LedgerClaims.

(* ===================================================================== *)
(** * Facts about the signer, weight and threshold overlays              *)
(* ===================================================================== *)

Section SetOptionsFacts.
Import Ledger Sdk Frontier SetOptions.

Lemma withSigners_twice s a b : withSigners (withSigners s a) b = withSigners s b.
Proof. done. Qed.

Lemma withSigners_signers s : withSigners s (signers s) = s.
Proof. by destruct s. Qed.

Lemma addSigner_apply url op k w tx s :
  apply (addSigner url op k w tx) s
  = withSigners s
      (List.filter (λ existing, negb (String.eqb (key existing) k)) (signers s)
         ++ [mkSigner k ed25519_public_key w]).
Proof. done. Qed.

Lemma removeSigner_apply url op k tx s :
  apply (removeSigner url op k tx) s
  = withSigners s
      (List.filter
         (λ x, negb (bool_decide (type x = ed25519_public_key) && String.eqb (key x) k))
         (signers s)).
Proof. done. Qed.

Lemma addSigner_idempotent url op k w tx s :
  apply (addSigner url op k w tx) (apply (addSigner url op k w tx) s)
  = apply (addSigner url op k w tx) s.
Proof.
  rewrite !addSigner_apply, withSigners_twice. simpl.
  rewrite List.filter_app, filter_twice. simpl.
  by rewrite String.eqb_refl, app_nil_r.
Qed.

Lemma removeSigner_idempotent url op k tx s :
  apply (removeSigner url op k tx) (apply (removeSigner url op k tx) s)
  = apply (removeSigner url op k tx) s.
Proof.
  rewrite !removeSigner_apply, withSigners_twice. simpl. by rewrite filter_twice.
Qed.

Lemma setMasterWeight_idempotent url op w tx s :
  apply (setMasterWeight url op w tx) (apply (setMasterWeight url op w tx) s)
  = apply (setMasterWeight url op w tx) s.
Proof.
  unfold setMasterWeight; simpl. rewrite withSigners_twice. f_equal.
  rewrite List.map_map. apply List.map_ext. intros x.
  destruct (bool_decide (type x = ed25519_public_key)
            && String.eqb (key x) (JS.orElse (so_source op) (source tx))) eqn:Hown;
    simpl; by rewrite Hown.
Qed.

Lemma setThresholds_idempotent url op tx s :
  apply (setThresholds url op tx) (apply (setThresholds url op tx) s)
  = apply (setThresholds url op tx) s.
Proof.
  unfold setThresholds; simpl. unfold withThresholds; simpl.
  destruct (lowThreshold op), (medThreshold op), (highThreshold op);
    destruct (thresholds s); done.
Qed.

Lemma setAccountOptions_cases url op tx u :
  u ∈ setAccountOptions url op tx →
  (∃ k w, u = addSigner url op k w tx)
  ∨ (∃ k, u = removeSigner url op k tx)
  ∨ u = setThresholds url op tx
  ∨ (∃ w, u = setMasterWeight url op w tx).
Proof.
  unfold setAccountOptions.
  assert (Hfirst : ∀ v,
    v ∈ match ed25519WithWeight (signer op) with
        | Some (k, w) =>
            if (w >? 0)%Z then [addSigner url op k w tx]
            else if (w =? 0)%Z then [removeSigner url op k tx]
            else if bool_decide (lowThreshold op ≠ None)
                    || bool_decide (medThreshold op ≠ None)
                    || bool_decide (highThreshold op ≠ None)
                 then [setThresholds url op tx] else []
        | None =>
            if bool_decide (lowThreshold op ≠ None)
               || bool_decide (medThreshold op ≠ None)
               || bool_decide (highThreshold op ≠ None)
            then [setThresholds url op tx] else []
        end →
    (∃ k w, v = addSigner url op k w tx)
    ∨ (∃ k, v = removeSigner url op k tx)
    ∨ v = setThresholds url op tx).
  { intros v.
    destruct (ed25519WithWeight (signer op)) as [[k w]|];
      repeat match goal with |- context [if ?b then _ else _] => destruct b end;
      rewrite ?list_elem_of_singleton; try (by intros ?%elem_of_nil);
      intros ->; eauto. }
  destruct (Sdk.masterWeight op) as [mw|].
  - rewrite elem_of_app, list_elem_of_singleton. intros [Hin| ->]; [|eauto 6].
    destruct (Hfirst _ Hin) as [?|[?|?]]; eauto.
  - intros Hin. destruct (Hfirst _ Hin) as [?|[?|?]]; eauto.
Qed.

End SetOptionsFacts.

(* ===================================================================== *)
(** * Facts about the trustline overlays                                 *)
(* ===================================================================== *)

Section ChangeTrustFacts.
Import Ledger Sdk Frontier ChangeTrust.
Context `{Packages}.

Lemma withBalances_twice s a b : withBalances (withBalances s a) b = withBalances s b.
Proof. done. Qed.

Lemma Asset_equals_true a b : Asset_equals a b = true ↔ a = b.
Proof.
  unfold Asset_equals. rewrite andb_true_iff, !bool_decide_eq_true.
  destruct a, b; simpl. split; [by intros [-> ->] | by intros [= -> ->]].
Qed.

Lemma isTrustlineOf_true op b :
  isTrustlineOf op b = true ↔ isEntryFor (line op) b.
Proof.
  unfold isTrustlineOf, isEntryFor.
  destruct b as [n|c|shares], (line op) as [a|p]; simpl;
    rewrite ?Asset_equals_true, ?String.eqb_eq; try done.
  unfold Asset_new. destruct a as [ac ai]; simpl.
  split; [by intros [= -> ->] | by intros [-> ->]].
Qed.

Lemma keptByRemoveTrustline_false op b :
  keptByRemoveTrustline op b = false ↔ isEntryFor (line op) b ∨ isOtherKind (line op) b.
Proof.
  unfold keptByRemoveTrustline, isEntryFor, isOtherKind.
  destruct b as [n|c|shares], (line op) as [a|p]; simpl;
    rewrite ?negb_false_iff, ?Asset_equals_true, ?String.eqb_eq; try tauto.
  unfold Asset_new. destruct a as [ac ai]; simpl.
  split; [intros [= -> ->]; by left | intros [[-> ->]|[]]; done].
Qed.

Lemma newBalance_isTrustline op : isTrustlineOf op (newBalance op) = true.
Proof.
  apply isTrustlineOf_true. unfold isEntryFor, newBalance.
  by destruct (line op).
Qed.

Lemma existsb_isTrustlineOf op (bs : list BalanceLine) :
  existsb (isTrustlineOf op) bs = true ↔ ∃ b, b ∈ bs ∧ isEntryFor (line op) b.
Proof.
  rewrite existsb_exists. split; intros (b & Hin & Hb); exists b.
  - by rewrite list_elem_of_In, <- isTrustlineOf_true.
  - by rewrite <- list_elem_of_In, isTrustlineOf_true.
Qed.

Lemma addTrustline_idempotent url op tx s :
  apply (addTrustline url op tx) (apply (addTrustline url op tx) s)
  = apply (addTrustline url op tx) s.
Proof.
  unfold addTrustline; simpl. rewrite withBalances_twice. f_equal.
  destruct (existsb (isTrustlineOf op) (balances s)) eqn:Hhas.
  - by rewrite Hhas.
  - by rewrite existsb_app, Hhas; simpl; rewrite newBalance_isTrustline.
Qed.

Lemma removeTrustline_idempotent url op tx s :
  apply (removeTrustline url op tx) (apply (removeTrustline url op tx) s)
  = apply (removeTrustline url op tx) s.
Proof.
  unfold removeTrustline; simpl. by rewrite withBalances_twice, filter_twice.
Qed.

(** A change of trust always yields one update. *)
Lemma changeTrust_one_update url op tx : length (changeTrust url op tx) = 1.
Proof. unfold changeTrust. by destruct (limitEqZero _). Qed.

(** With a limit other than zero the update adds the trustline: a snapshot
    without an entry for the line gets one appended, with balance ["0"] and
    the limit of the operation, and a snapshot with one is left as it is. *)
Lemma changeTrust_nonzero_limit url op tx :
  limitEqZero (Sdk.limit op) = false →
  changeTrust url op tx = [addTrustline url op tx]
  ∧ isEntryFor (line op) (newBalance op)
  ∧ match newBalance op with
    | LineCredit c => balance c = "0" ∧ limit c = Sdk.limit op
    | LinePoolShares shares => pool_balance shares = "0" ∧ pool_limit shares = Sdk.limit op
    | LineNative _ => False
    end
  ∧ ∀ s,
      apply (addTrustline url op tx) s
      = withBalances s (balances (apply (addTrustline url op tx) s))
      ∧ ((∀ b, b ∈ balances s → ¬ isEntryFor (line op) b) →
         balances (apply (addTrustline url op tx) s) = balances s ++ [newBalance op])
      ∧ ((∃ b, b ∈ balances s ∧ isEntryFor (line op) b) →
         balances (apply (addTrustline url op tx) s) = balances s).
Proof.
  intros Hlimit. unfold changeTrust. rewrite Hlimit.
  split; [done|]. split; [apply isTrustlineOf_true, newBalance_isTrustline|].
  split; [unfold newBalance; by destruct (line op)|].
  intros s. split; [done|]. simpl. split.
  - intros Hnone.
    destruct (existsb (isTrustlineOf op) (balances s)) eqn:Hhas; [|done].
    apply existsb_isTrustlineOf in Hhas as (b & Hin & Hb). by destruct (Hnone b Hin).
  - intros Hsome. apply existsb_isTrustlineOf in Hsome. by rewrite Hsome.
Qed.

(** With a zero limit the update filters the balances: it takes out the
    entry of the line and, with it, every entry of the other kind. *)
Lemma changeTrust_zero_limit url op tx :
  limitEqZero (Sdk.limit op) = true →
  changeTrust url op tx = [removeTrustline url op tx]
  ∧ ∀ s,
      apply (removeTrustline url op tx) s
      = withBalances s (balances (apply (removeTrustline url op tx) s))
      ∧ RemovesExactly (λ b, isEntryFor (line op) b ∨ isOtherKind (line op) b)
          (balances s) (balances (apply (removeTrustline url op tx) s)).
Proof.
  intros Hlimit. unfold changeTrust. rewrite Hlimit. split; [done|].
  intros s. split; [done|]. simpl.
  eapply RemovesExactly_iff; [|apply filter_RemovesExactly].
  intros b; simpl. apply keptByRemoveTrustline_false.
Qed.

(** On a snapshot whose entries are all of the kind of the line, the zero
    limit takes out the entry of the line and nothing else. *)
Lemma changeTrust_zero_limit_same_kind url op tx s :
  limitEqZero (Sdk.limit op) = true →
  Forall (λ b, ¬ isOtherKind (line op) b) (balances s) →
  RemovesExactly (isEntryFor (line op))
    (balances s) (balances (apply (removeTrustline url op tx) s)).
Proof.
  intros Hlimit Hkind.
  destruct (changeTrust_zero_limit url op tx Hlimit) as [_ Hremoves].
  destruct (Hremoves s) as [_ Hr].
  by eapply RemovesExactly_without.
Qed.

End ChangeTrustFacts.

(* ===================================================================== *)
(** * Claims about the overlays                                          *)
(* ===================================================================== *)

Section OverlayClaims.
Import Ledger Sdk Frontier SetOptions ChangeTrust.

(** C3.  Every update that the change-trust translator or the set-options
    translator returns has an idempotent [apply]: applying it to a snapshot
    it has already been applied to changes nothing. *)
Theorem overlay_updates_idempotent `{Packages} (url : string) (ct : Sdk.ChangeTrust)
    (so : Sdk.SetOptions) (tx : Transaction) (u : OptimisticUpdate AccountResponse)
    (s : AccountResponse) :
  u ∈ changeTrust url ct tx ∨ u ∈ setAccountOptions url so tx →
  apply u (apply u s) = apply u s.
Proof.
  intros [Hin|Hin].
  - unfold changeTrust in Hin.
    destruct (limitEqZero _); apply list_elem_of_singleton in Hin as ->.
    + apply removeTrustline_idempotent.
    + apply addTrustline_idempotent.
  - apply setAccountOptions_cases in Hin as [(k & w & ->)|[(k & ->)|[->|(w & ->)]]].
    + apply addSigner_idempotent.
    + apply removeSigner_idempotent.
    + apply setThresholds_idempotent.
    + apply setMasterWeight_idempotent.
Qed.

Lemma overlay_updates_idempotent_witness :
  Sample.addFOO
    ∈ changeTrust (H := Sample.packages) Sample.frontier Sample.trustFOO Sample.tx1
  ∧ apply Sample.addFOO (apply Sample.addFOO Sample.snapshot)
    = apply Sample.addFOO Sample.snapshot.
Proof.
  split.
  - apply list_elem_of_singleton. reflexivity.
  - apply (overlay_updates_idempotent (H := Sample.packages) Sample.frontier
             Sample.trustFOO Sample.dropCosigner Sample.tx1).
    left. apply list_elem_of_singleton. reflexivity.
Defined.




(** Zeroing the master weight of the sample account: its own entry gets
    weight 0 and the co-signer keeps weight 1. *)
Example zero_master_weight_on_snapshot :
  signers (apply (setMasterWeight Sample.frontier Sample.zeroMasterWeight 0 Sample.tx2)
             Sample.snapshot)
  = [mkSigner Sample.accountA ed25519_public_key 0;
     mkSigner "GCOSIGNER" ed25519_public_key 1].
Proof. reflexivity. Qed.

(** C5 at the input where it fails: removing the trustline of a liquidity
    pool from an account that holds 100 XDB and no pool shares leaves the
    account without any balance entry, although the XDB entry is not the
    entry of that pool. *)
Theorem changeTrust_zero_limit_pool_drops_native :
  List.map (λ u, balances (apply u Sample.snapshot))
      (changeTrust (H := Sample.packages) Sample.frontier Sample.untrustPool Sample.tx3)
    = [[]]
  ∧ balances Sample.snapshot = [Sample.nativeLine]
  ∧ ¬ isEntryFor (H := Sample.packages) (line Sample.untrustPool) Sample.nativeLine.
Proof. split; [reflexivity | split; [reflexivity | by intros []]]. Qed.

(** A trustline for FOO with limit 1000 on the sample account: the XDB
    entry stays and a FOO entry with balance 0 follows it. *)
Example trust_FOO_on_snapshot :
  List.map (λ u, balances (apply u Sample.snapshot))
      (changeTrust (H := Sample.packages) Sample.frontier Sample.trustFOO Sample.tx1)
  = [[Sample.nativeLine;
      LineCredit (mkAssetLine "FOO" (Some Sample.issuerI) credit_alphanum12 "0" "0"
                              false false 0 "1000" "0" false)]].
Proof. reflexivity. Qed.

End OverlayClaims.

(* ===================================================================== *)
(** * Facts about the subscription caches and the fetch queues           *)
(* ===================================================================== *)

Section NetworkFacts.
Import Sdk Network.
Context `{Packages}.

Lemma follows_refl st : follows st st.
Proof. by repeat split. Qed.

Lemma follows_trans st1 st2 st3 : follows st1 st2 → follows st2 st3 → follows st1 st3.
Proof.
  intros (Hc1 & Hn1 & Ha1) (Hc2 & Hn2 & Ha2). repeat split; [|lia|tauto].
  intros call key h Hh. by apply Hc2, Hc1.
Qed.

(** Steps that leave the five caches alone. *)
Lemma follows_same_caches st st' :
  (∀ call, cacheOf call st' = cacheOf call st) →
  nextObject st ≤ nextObject st' →
  follows st st'.
Proof.
  intros Hsame Hnext. repeat split; [|done|].
  - intros call key h. by rewrite Hsame.
  - intros Halloc call key h. rewrite Hsame. intros Hh.
    specialize (Halloc call key h Hh). lia.
Qed.

Lemma getRandomURL_follows urls st : follows st (getRandomURL urls st).2.
Proof. apply follows_same_caches; [by intros []|done]. Qed.

Lemma getFetchQueue_follows url st : follows st (getFetchQueue url st).2.
Proof.
  unfold getFetchQueue. destruct (fetchQueuesByFrontier st !! url).
  - apply follows_refl.
  - apply follows_same_caches; [by intros []|simpl; lia].
Qed.

Lemma newObservable_follows src st : follows st (newObservable src st).2.
Proof. apply follows_same_caches; [by intros []|simpl; lia]. Qed.

Lemma newObservable_id src st :
  obs_id (newObservable src st).1 = nextObject st
  ∧ nextObject (newObservable src st).2 = S (nextObject st).
Proof. done. Qed.

Lemma subscribeToUpdatesAndPoll_follows watched urls url st :
  follows st (subscribeToUpdatesAndPoll watched urls url st).2.
Proof. apply newObservable_follows. Qed.

Lemma subscribeToUpdatesAndPoll_id watched urls url st :
  obs_id (subscribeToUpdatesAndPoll watched urls url st).1 = nextObject st
  ∧ nextObject (subscribeToUpdatesAndPoll watched urls url st).2 = S (nextObject st).
Proof. done. Qed.

Lemma setRequested_follows l st : follows st (setRequested l st).
Proof. apply follows_same_caches; [by intros []|done]. Qed.

Lemma fetchAccountTransactions_follows urls id st :
  follows st (fetchAccountTransactions urls id st).2.
Proof.
  unfold fetchAccountTransactions.
  destruct (getRandomURL urls st) as [url st1] eqn:H1.
  destruct (getFetchQueue url st1) as [q st2] eqn:H2.
  assert (Hqueue : follows st st2).
  { eapply follows_trans.
    - pose proof (getRandomURL_follows urls st) as Hf. by rewrite H1 in Hf.
    - pose proof (getFetchQueue_follows url st1) as Hf. by rewrite H2 in Hf. }
  destruct url as [endpoint|]; simpl; [|done].
  eapply follows_trans; [exact Hqueue | apply setRequested_follows].
Qed.

Lemma subscribeToAccountEffectsUncached_builds :
  buildsFreshHandle subscribeToAccountEffectsUncached.
Proof.
  intros [urls id] st. unfold subscribeToAccountEffectsUncached.
  destruct (getRandomURL urls st) as [url st1] eqn:H1.
  destruct (getFetchQueue url st1) as [q st2] eqn:H2.
  destruct (subscribeToUpdatesAndPoll _ _ _ st2) as [o st3] eqn:H3. simpl.
  pose proof (getRandomURL_follows urls st) as F1. rewrite H1 in F1.
  pose proof (getFetchQueue_follows url st1) as F2. rewrite H2 in F2.
  pose proof (subscribeToUpdatesAndPoll_follows (EffectsOf id) urls url st2) as F3.
  pose proof (subscribeToUpdatesAndPoll_id (EffectsOf id) urls url st2) as [I1 I2].
  rewrite H3 in F3, I1, I2. simpl in *.
  split; [by repeat (eapply follows_trans; [eassumption|])|].
  intros h [= <-]. destruct F1 as (_ & ? & _), F2 as (_ & ? & _). lia.
Qed.

Lemma subscribeToAccountUncached_builds :
  buildsFreshHandle subscribeToAccountUncached.
Proof.
  intros [urls id] st. unfold subscribeToAccountUncached.
  destruct (getRandomURL urls st) as [url st1] eqn:H1.
  destruct (subscribeToUpdatesAndPoll _ _ _ st1) as [o st2] eqn:H2. simpl.
  pose proof (getRandomURL_follows urls st) as F1. rewrite H1 in F1.
  pose proof (subscribeToUpdatesAndPoll_follows (AccountOf id) urls url st1) as F2.
  pose proof (subscribeToUpdatesAndPoll_id (AccountOf id) urls url st1) as [I1 I2].
  rewrite H2 in F2, I1, I2. simpl in *.
  split; [by eapply follows_trans|].
  intros h [= <-]. destruct F1 as (_ & ? & _). lia.
Qed.

Lemma subscribeToOpenOrdersUncached_builds :
  buildsFreshHandle subscribeToOpenOrdersUncached.
Proof.
  intros [urls id] st. unfold subscribeToOpenOrdersUncached.
  destruct (getRandomURL urls st) as [url st1] eqn:H1.
  destruct (subscribeToUpdatesAndPoll _ _ _ st1) as [o st2] eqn:H2. simpl.
  pose proof (getRandomURL_follows urls st) as F1. rewrite H1 in F1.
  pose proof (subscribeToUpdatesAndPoll_follows (OpenOrdersOf id) urls url st1) as F2.
  pose proof (subscribeToUpdatesAndPoll_id (OpenOrdersOf id) urls url st1) as [I1 I2].
  rewrite H2 in F2, I1, I2. simpl in *.
  split; [by eapply follows_trans|].
  intros h [= <-]. destruct F1 as (_ & ? & _). lia.
Qed.

Lemma subscribeToOrderbookUncached_builds :
  buildsFreshHandle subscribeToOrderbookUncached.
Proof.
  intros [[urls selling] buying] st. unfold subscribeToOrderbookUncached.
  destruct (parseAssetID buying) as [b|e]; [|split; [apply follows_refl|done]].
  destruct (parseAssetID selling) as [a|e]; [|split; [apply follows_refl|done]].
  destruct (Asset_equals a b).
  - simpl. split; [apply (newObservable_follows (ObservableFrom []) st)|].
    intros h [= <-]. simpl. lia.
  - destruct (getRandomURL urls st) as [url st1] eqn:H1.
    destruct (getFetchQueue url st1) as [q st2] eqn:H2.
    destruct (subscribeToUpdatesAndPoll _ _ _ st2) as [o st3] eqn:H3. simpl.
    pose proof (getRandomURL_follows urls st) as F1. rewrite H1 in F1.
    pose proof (getFetchQueue_follows url st1) as F2. rewrite H2 in F2.
    pose proof (subscribeToUpdatesAndPoll_follows
                  (OrderbookOf selling buying) urls url st2) as F3.
    pose proof (subscribeToUpdatesAndPoll_id
                  (OrderbookOf selling buying) urls url st2) as [I1 I2].
    rewrite H3 in F3, I1, I2. simpl in *.
    split; [by repeat (eapply follows_trans; [eassumption|])|].
    intros h [= <-]. destruct F1 as (_ & ? & _), F2 as (_ & ? & _). lia.
Qed.

Lemma sameFunction_cacheOf a b st :
  sameFunction a b = true → cacheOf a st = cacheOf b st.
Proof. by destruct a, b. Qed.

Lemma lens_account urls id : lensOf (ToAccount urls id) accountSubscriptionCache setAccountCache.
Proof. split; [done|]. intros m st. split; [done|]. by intros []. Qed.
Lemma lens_effects urls id :
  lensOf (ToAccountEffects urls id) effectsSubscriptionCache setEffectsCache.
Proof. split; [done|]. intros m st. split; [done|]. by intros []. Qed.
Lemma lens_orders urls id :
  lensOf (ToOpenOrders urls id) ordersSubscriptionCache setOrdersCache.
Proof. split; [done|]. intros m st. split; [done|]. by intros []. Qed.
Lemma lens_orderbook urls a b :
  lensOf (ToOrderbook urls a b) orderbookSubscriptionCache setOrderbookCache.
Proof. split; [done|]. intros m st. split; [done|]. by intros []. Qed.
Lemma lens_transactions urls id :
  lensOf (ToAccountTransactions urls id) transactionsSubscriptionCache setTransactionsCache.
Proof. split; [done|]. intros m st. split; [done|]. by intros []. Qed.

Lemma cachify_hit {Args} get set (subscribe : Args → NetState → Outcome Observable * NetState)
    key args st h :
  get st !! key args = Some h →
  cachify get set subscribe key args st = (Returned h, st).
Proof. intros Hh. unfold cachify. by rewrite Hh. Qed.

Lemma cachify_miss {Args} rep get set
    (subscribe : Args → NetState → Outcome Observable * NetState) key args st :
  lensOf rep get set →
  buildsFreshHandle subscribe →
  get st !! key args = None →
  follows st (cachify get set subscribe key args st).2
  ∧ (cachify get set subscribe key args st).1 = (subscribe args st).1
  ∧ ∀ h, (cachify get set subscribe key args st).1 = Returned h →
         get (cachify get set subscribe key args st).2 !! key args = Some h
         ∧ nextObject st ≤ obs_id h
           < nextObject (cachify get set subscribe key args st).2.
Proof.
  intros [Hget Hset] Hbuilds Hmiss. unfold cachify. rewrite Hmiss.
  destruct (Hbuilds args st) as [(Hkeep & Hnext & Halloc) Hfresh].
  destruct (subscribe args st) as [[o|e] st'] eqn:Hsub; simpl in *;
    [|by repeat split].
  specialize (Hfresh o eq_refl).
  destruct (Hset (<[key args:=o]> (get st')) st') as [Hn Hc].
  split; [|split; [done|]].
  - repeat split.
    + intros call k h Hh. rewrite Hc.
      destruct (sameFunction rep call) eqn:Hsame; [|by apply Hkeep].
      rewrite lookup_insert_ne.
      * rewrite Hget, (sameFunction_cacheOf _ _ _ Hsame). by apply Hkeep.
      * intros <-. rewrite Hget, (sameFunction_cacheOf _ _ _ Hsame) in Hmiss. congruence.
    + lia.
    + intros Hall call k h. rewrite Hc, Hn.
      destruct (sameFunction rep call) eqn:Hsame; [|by apply (Halloc Hall)].
      rewrite lookup_insert. case_decide; [intros [= <-]; lia|].
      rewrite Hget. by apply (Halloc Hall).
  - intros h [= <-]. rewrite Hn, Hget, Hc.
    assert (Hrr : sameFunction rep rep = true) by by destruct rep.
    rewrite Hrr, lookup_insert_eq. split; [done | lia].
Qed.

Lemma cachify_follows {Args} rep get set
    (subscribe : Args → NetState → Outcome Observable * NetState) key args st :
  lensOf rep get set →
  buildsFreshHandle subscribe →
  follows st (cachify get set subscribe key args st).2.
Proof.
  intros Hlens Hbuilds.
  destruct (get st !! key args) as [h|] eqn:Hh.
  - rewrite (cachify_hit _ _ _ _ _ _ _ Hh). apply follows_refl.
  - by eapply cachify_miss.
Qed.

Lemma subscribeToAccountTransactionsUncached_builds :
  buildsFreshHandle subscribeToAccountTransactionsUncached.
Proof.
  intros [urls id] st. unfold subscribeToAccountTransactionsUncached.
  destruct (fetchAccountTransactions urls id st) as [r st1] eqn:H1.
  pose proof (fetchAccountTransactions_follows urls id st) as F1. rewrite H1 in F1.
  pose proof (cachify_follows _ _ _ _ (λ args, createAccountCacheKey args.1 args.2)
                (urls, id) st1 (lens_effects urls id)
                subscribeToAccountEffectsUncached_builds) as F2.
  fold subscribeToAccountEffects in F2.
  destruct (subscribeToAccountEffects (urls, id) st1) as [[effects|e] st2]; simpl in *.
  - split.
    + eapply follows_trans; [exact F1|]. eapply follows_trans; [exact F2|].
      apply (newObservable_follows (MulticastOver (obs_id effects) id) st2).
    + intros h [= <-]. simpl.
      destruct F1 as (_ & ? & _), F2 as (_ & ? & _). lia.
  - split; [by eapply follows_trans|done].
Qed.

(** A call whose key is cached returns the cached handle and changes
    nothing. *)
Lemma subscribe_hit call st h :
  cacheOf call st !! keyOf call = Some h → subscribe call st = (Returned h, st).
Proof. destruct call; simpl; intros Hh; by apply cachify_hit. Qed.

Lemma subscribe_follows call st : follows st (subscribe call st).2.
Proof.
  destruct call as [urls id|urls id|urls id|urls a b|urls id]; simpl.
  - apply (cachify_follows _ _ _ _ _ _ _ (lens_account urls id)
             subscribeToAccountUncached_builds).
  - apply (cachify_follows _ _ _ _ _ _ _ (lens_effects urls id)
             subscribeToAccountEffectsUncached_builds).
  - apply (cachify_follows _ _ _ _ _ _ _ (lens_orders urls id)
             subscribeToOpenOrdersUncached_builds).
  - apply (cachify_follows _ _ _ _ _ _ _ (lens_orderbook urls a b)
             subscribeToOrderbookUncached_builds).
  - apply (cachify_follows _ _ _ _ _ _ _ (lens_transactions urls id)
             subscribeToAccountTransactionsUncached_builds).
Qed.

(** A call that returns a handle leaves it cached under the call's key. *)
Lemma subscribe_caches call st h st' :
  subscribe call st = (Returned h, st') → cacheOf call st' !! keyOf call = Some h.
Proof.
  intros Hsub.
  destruct (cacheOf call st !! keyOf call) as [h0|] eqn:Hlook.
  - rewrite (subscribe_hit _ _ _ Hlook) in Hsub. by simplify_eq.
  - destruct call as [urls id|urls id|urls id|urls a b|urls id]; simpl in *.
    + destruct (cachify_miss _ _ _ _ (λ args, createAccountCacheKey args.1 args.2)
                  (urls, id) st (lens_account urls id)
                  subscribeToAccountUncached_builds Hlook) as (_ & _ & Hh).
      fold subscribeToAccount in Hh. rewrite Hsub in Hh. by apply (Hh h).
    + destruct (cachify_miss _ _ _ _ (λ args, createAccountCacheKey args.1 args.2)
                  (urls, id) st (lens_effects urls id)
                  subscribeToAccountEffectsUncached_builds Hlook) as (_ & _ & Hh).
      fold subscribeToAccountEffects in Hh. rewrite Hsub in Hh. by apply (Hh h).
    + destruct (cachify_miss _ _ _ _ (λ args, createAccountCacheKey args.1 args.2)
                  (urls, id) st (lens_orders urls id)
                  subscribeToOpenOrdersUncached_builds Hlook) as (_ & _ & Hh).
      fold subscribeToOpenOrders in Hh. rewrite Hsub in Hh. by apply (Hh h).
    + destruct (cachify_miss _ _ _ _
                  (λ args, createOrderbookCacheKey args.1.1 args.1.2 args.2)
                  (urls, a, b) st (lens_orderbook urls a b)
                  subscribeToOrderbookUncached_builds Hlook) as (_ & _ & Hh).
      fold subscribeToOrderbook in Hh. rewrite Hsub in Hh. by apply (Hh h).
    + destruct (cachify_miss _ _ _ _ (λ args, createAccountCacheKey args.1 args.2)
                  (urls, id) st (lens_transactions urls id)
                  subscribeToAccountTransactionsUncached_builds Hlook) as (_ & _ & Hh).
      fold subscribeToAccountTransactions in Hh. rewrite Hsub in Hh. by apply (Hh h).
Qed.

Lemma subscribeAll_follows calls st : follows st (subscribeAll calls st).
Proof.
  unfold subscribeAll. revert st; induction calls as [|call calls IH]; intros st; simpl.
  - apply follows_refl.
  - eapply follows_trans; [apply subscribe_follows | apply IH].
Qed.

Lemma cacheOf_reset call st : cacheOf call (resetAllSubscriptions st) = ∅.
Proof. by destruct call. Qed.

Lemma subscribeToAccountEffects_returns args st :
  ∃ h, (subscribeToAccountEffects args st).1 = Returned h.
Proof.
  destruct args as [urls id]. unfold subscribeToAccountEffects, cachify.
  destruct (effectsSubscriptionCache st !! _); [by eexists|].
  unfold subscribeToAccountEffectsUncached.
  destruct (getRandomURL urls st) as [url st1].
  destruct (getFetchQueue url st1) as [q st2]. by eexists.
Qed.

(** Past [parseAssetID] every subscription call returns a handle. *)
Lemma subscribe_returns call st :
  argumentsParse call = true → ∃ h, (subscribe call st).1 = Returned h.
Proof.
  destruct call as [urls id|urls id|urls id|urls a b|urls id]; simpl; intros Hparse.
  - unfold subscribeToAccount, cachify.
    destruct (accountSubscriptionCache st !! _); [by eexists|].
    unfold subscribeToAccountUncached.
    destruct (getRandomURL urls st) as [url st1]. by eexists.
  - apply subscribeToAccountEffects_returns.
  - unfold subscribeToOpenOrders, cachify.
    destruct (ordersSubscriptionCache st !! _); [by eexists|].
    unfold subscribeToOpenOrdersUncached.
    destruct (getRandomURL urls st) as [url st1]. by eexists.
  - unfold subscribeToOrderbook, cachify.
    destruct (orderbookSubscriptionCache st !! _); [by eexists|].
    unfold subscribeToOrderbookUncached.
    destruct (parseAssetID b) as [buying|]; [|done].
    destruct (parseAssetID a) as [selling|]; [|done].
    destruct (Asset_equals selling buying); [by eexists|].
    destruct (getRandomURL urls st) as [url st1].
    destruct (getFetchQueue url st1) as [q st2]. by eexists.
  - unfold subscribeToAccountTransactions, cachify.
    destruct (transactionsSubscriptionCache st !! _); [by eexists|].
    unfold subscribeToAccountTransactionsUncached.
    destruct (fetchAccountTransactions urls id st) as [r st1].
    destruct (subscribeToAccountEffects_returns (urls, id) st1) as [e He].
    destruct (subscribeToAccountEffects (urls, id) st1) as [[effects|msg] st2];
      simpl in *; [by eexists | done].
Qed.

(** A call whose key is not cached builds the handle it returns. *)
Lemma subscribe_miss_fresh call st h st' :
  cacheOf call st !! keyOf call = None →
  subscribe call st = (Returned h, st') →
  nextObject st ≤ obs_id h < nextObject st'.
Proof.
  intros Hlook Hsub.
  destruct call as [urls id|urls id|urls id|urls a b|urls id]; simpl in *.
  - destruct (cachify_miss _ _ _ _ (λ args, createAccountCacheKey args.1 args.2)
                (urls, id) st (lens_account urls id)
                subscribeToAccountUncached_builds Hlook) as (_ & _ & Hh).
    fold subscribeToAccount in Hh. rewrite Hsub in Hh. by apply (Hh h).
  - destruct (cachify_miss _ _ _ _ (λ args, createAccountCacheKey args.1 args.2)
                (urls, id) st (lens_effects urls id)
                subscribeToAccountEffectsUncached_builds Hlook) as (_ & _ & Hh).
    fold subscribeToAccountEffects in Hh. rewrite Hsub in Hh. by apply (Hh h).
  - destruct (cachify_miss _ _ _ _ (λ args, createAccountCacheKey args.1 args.2)
                (urls, id) st (lens_orders urls id)
                subscribeToOpenOrdersUncached_builds Hlook) as (_ & _ & Hh).
    fold subscribeToOpenOrders in Hh. rewrite Hsub in Hh. by apply (Hh h).
  - destruct (cachify_miss _ _ _ _
                (λ args, createOrderbookCacheKey args.1.1 args.1.2 args.2)
                (urls, a, b) st (lens_orderbook urls a b)
                subscribeToOrderbookUncached_builds Hlook) as (_ & _ & Hh).
    fold subscribeToOrderbook in Hh. rewrite Hsub in Hh. by apply (Hh h).
  - destruct (cachify_miss _ _ _ _ (λ args, createAccountCacheKey args.1 args.2)
                (urls, id) st (lens_transactions urls id)
                subscribeToAccountTransactionsUncached_builds Hlook) as (_ & _ & Hh).
    fold subscribeToAccountTransactions in Hh. rewrite Hsub in Hh. by apply (Hh h).
Qed.

Lemma initialState_handlesAllocated : handlesAllocated initialState.
Proof. intros call key h. by destruct call. Qed.

(** The fetch gate is one queue per endpoint: the first call for a URL
    builds a queue with concurrency 4, interval 1000 ms, interval cap 4 and
    a throwing timeout of 10000 ms, and every later call for that URL
    returns this queue and builds nothing. *)
Lemma getFetchQueue_one_queue_per_url url st :
  queuesConfigured st →
  queuesConfigured (getFetchQueue url st).2
  ∧ fetchQueuesByFrontier (getFetchQueue url st).2 !! url = Some (getFetchQueue url st).1
  ∧ getFetchQueue url (getFetchQueue url st).2 = getFetchQueue url st
  ∧ concurrency (getFetchQueue url st).1 = 4%Z
  ∧ interval (getFetchQueue url st).1 = 1000%Z
  ∧ intervalCap (getFetchQueue url st).1 = 4%Z
  ∧ timeout (getFetchQueue url st).1 = 10000%Z
  ∧ throwOnTimeout (getFetchQueue url st).1 = true.
Proof.
  intros Hconf. unfold getFetchQueue.
  destruct (fetchQueuesByFrontier st !! url) as [q|] eqn:Hq; simpl.
  - rewrite Hq. destruct (Hconf url q Hq) as (? & ? & ? & ? & ?).
    split; [done|]. by repeat split.
  - rewrite lookup_insert_eq. split; [|by repeat split].
    intros url' q'. simpl. rewrite lookup_insert. case_decide.
    + by intros [= <-].
    + apply Hconf.
Qed.

End NetworkFacts.

(* ===================================================================== *)
(** * Claims about the subscription caches and the order book            *)
(* ===================================================================== *)

Section NetworkClaims.
Import Sdk Network.

(** C6.  When a memoized subscription function has returned a handle, a
    later call to the same function with an equal key returns that very
    handle and builds nothing, whatever other subscriptions were made in
    between; after [resetAllSubscriptions] the next such call builds a new
    object, caches it and returns it, and it is not the earlier handle. *)
Theorem memoized_subscription_shares_handle `{Packages} (st st1 : NetState)
    (first second : Subscription) (between : list Subscription) (h : Observable) :
  handlesAllocated st →
  sameFunction first second = true →
  keyOf first = keyOf second →
  subscribe first st = (Returned h, st1) →
  subscribe second (subscribeAll between st1) = (Returned h, subscribeAll between st1)
  ∧ (argumentsParse second = true →
     ∃ h' st2,
       subscribe second (resetAllSubscriptions (subscribeAll between st1))
         = (Returned h', st2)
       ∧ nextObject (subscribeAll between st1) ≤ obs_id h'
       ∧ h' ≠ h
       ∧ cacheOf second st2 !! keyOf second = Some h').
Proof.
  intros Halloc Hsame Hkey Hfirst.
  pose proof (subscribe_caches _ _ _ _ Hfirst) as Hcached.
  pose proof (subscribe_follows first st) as (_ & _ & Halloc1).
  rewrite Hfirst in Halloc1; simpl in Halloc1. specialize (Halloc1 Halloc).
  destruct (subscribeAll_follows between st1) as (Hkeep & Hnext & _).
  assert (Hlater : cacheOf second (subscribeAll between st1) !! keyOf second = Some h).
  { rewrite <- Hkey, <- (sameFunction_cacheOf _ _ _ Hsame). by apply Hkeep. }
  split; [by apply subscribe_hit|].
  intros Hparse.
  set (reset := resetAllSubscriptions (subscribeAll between st1)).
  destruct (subscribe_returns second reset Hparse) as [h' Hh'].
  destruct (subscribe second reset) as [r st2] eqn:Hsub. simpl in Hh'; subst r.
  exists h', st2. split; [done|].
  assert (Hmiss : cacheOf second reset !! keyOf second = None)
    by (unfold reset; by rewrite cacheOf_reset).
  pose proof (subscribe_miss_fresh _ _ _ _ Hmiss Hsub) as Hfresh.
  assert (Hold : obs_id h < nextObject st1) by by eapply Halloc1.
  assert (Hsame_next : nextObject reset = nextObject (subscribeAll between st1)) by done.
  repeat split.
  - lia.
  - intros ->. lia.
  - by eapply subscribe_caches.
Qed.

Lemma memoized_subscription_shares_handle_witness :
  ∃ h st1,
    subscribe (H := Sample.packages)
      (ToAccount [Sample.frontier] Sample.accountA) initialState = (Returned h, st1)
    ∧ subscribe (H := Sample.packages) (ToAccount [Sample.frontier] Sample.accountA)
        (subscribeAll (H := Sample.packages)
           [ToAccountTransactions [Sample.frontier] Sample.accountA] st1)
      = (Returned h,
         subscribeAll (H := Sample.packages)
           [ToAccountTransactions [Sample.frontier] Sample.accountA] st1).
Proof.
  eexists _, _. split; [reflexivity|].
  apply (memoized_subscription_shares_handle (H := Sample.packages) initialState _
           (ToAccount [Sample.frontier] Sample.accountA)
           (ToAccount [Sample.frontier] Sample.accountA)
           [ToAccountTransactions [Sample.frontier] Sample.accountA]).
  - apply initialState_handlesAllocated.
  - reflexivity.
  - reflexivity.
  - reflexivity.
Defined.

Lemma Asset_equals_refl a : Asset_equals a a = true.
Proof. unfold Asset_equals. by rewrite !bool_decide_eq_true_2. Qed.

(** C10.  For an asset identifier that [parseAssetID] accepts, taken as
    both the selling and the buying asset: [fetchOrderbookRecord] resolves
    at once with the record of that asset whose asks and bids are empty,
    leaving the module state as it was; the stream built by
    [subscribeToOrderbookUncached] is the one-element stream of that
    record; and [subscribeToOrderbook] picks no endpoint, touches no fetch
    queue and hands no request over, returning that stream when the key is
    not cached yet and the same handle on the next call. *)
Theorem same_asset_orderbook_is_empty `{Packages} (frontierURLs : list string)
    (assetID : string) (asset : Asset) (st : NetState) :
  parseAssetID assetID = Returned asset →
  fetchOrderbookRecord frontierURLs assetID assetID st
    = (Resolved (createEmptyOrderbookRecord asset asset), st)
  ∧ asks (createEmptyOrderbookRecord asset asset) = []
  ∧ bids (createEmptyOrderbookRecord asset asset) = []
  ∧ base (createEmptyOrderbookRecord asset asset) = asset
  ∧ counter (createEmptyOrderbookRecord asset asset) = asset
  ∧ subscribeToOrderbookUncached (frontierURLs, assetID, assetID) st
    = (Returned (mkObservable (nextObject st)
                   (ObservableFrom [createEmptyOrderbookRecord asset asset])),
       setNextObject (S (nextObject st)) st)
  ∧ requested (subscribeToOrderbook (frontierURLs, assetID, assetID) st).2 = requested st
  ∧ fetchQueuesByFrontier (subscribeToOrderbook (frontierURLs, assetID, assetID) st).2
    = fetchQueuesByFrontier st
  ∧ roundRobinIndex (subscribeToOrderbook (frontierURLs, assetID, assetID) st).2
    = roundRobinIndex st
  ∧ (orderbookSubscriptionCache st !! createOrderbookCacheKey frontierURLs assetID assetID
       = None →
     ∃ o st',
       subscribeToOrderbook (frontierURLs, assetID, assetID) st = (Returned o, st')
       ∧ obs_source o = ObservableFrom [createEmptyOrderbookRecord asset asset]
       ∧ subscribeToOrderbook (frontierURLs, assetID, assetID) st' = (Returned o, st')).
Proof.
  intros Hparse.
  assert (Huncached :
    subscribeToOrderbookUncached (frontierURLs, assetID, assetID) st
    = (Returned (mkObservable (nextObject st)
                   (ObservableFrom [createEmptyOrderbookRecord asset asset])),
       setNextObject (S (nextObject st)) st)).
  { unfold subscribeToOrderbookUncached. by rewrite Hparse, Asset_equals_refl. }
  assert (Hmiss :
    orderbookSubscriptionCache st !! createOrderbookCacheKey frontierURLs assetID assetID
      = None →
    subscribeToOrderbook (frontierURLs, assetID, assetID) st
    = (Returned (mkObservable (nextObject st)
                   (ObservableFrom [createEmptyOrderbookRecord asset asset])),
       setOrderbookCache
         (<[createOrderbookCacheKey frontierURLs assetID assetID :=
              mkObservable (nextObject st)
                (ObservableFrom [createEmptyOrderbookRecord asset asset])]>
            (orderbookSubscriptionCache st))
         (setNextObject (S (nextObject st)) st))).
  { intros Hnone. unfold subscribeToOrderbook, cachify. simpl fst; simpl snd.
    by rewrite Hnone, Huncached. }
  split; [|repeat (split; [done|])].
  { unfold fetchOrderbookRecord. by rewrite String.eqb_refl, Hparse. }
  destruct (orderbookSubscriptionCache st
              !! createOrderbookCacheKey frontierURLs assetID assetID)
    as [cached|] eqn:Hlook.
  - unfold subscribeToOrderbook.
    rewrite (cachify_hit _ _ _ _ (frontierURLs, assetID, assetID) st cached Hlook).
    by repeat (split; [done|]).
  - rewrite (Hmiss eq_refl). repeat (split; [done|]).
    intros _. eexists _, _. split; [done|]. split; [done|].
    apply cachify_hit. simpl. by rewrite lookup_insert_eq.
Qed.

Lemma same_asset_orderbook_is_empty_witness :
  fetchOrderbookRecord (H := Sample.packages) [Sample.frontier]
      "GISSUER:FOO" "GISSUER:FOO" initialState
  = (Resolved (createEmptyOrderbookRecord Sample.assetFOO Sample.assetFOO), initialState).
Proof.
  apply (same_asset_orderbook_is_empty (H := Sample.packages) [Sample.frontier]
           "GISSUER:FOO" Sample.assetFOO initialState).
  reflexivity.
Defined.

(** The stream compares the parsed assets, so two texts that parse to one
    asset give the empty stream as well. *)
Lemma subscribeToOrderbookUncached_same_asset `{Packages} (frontierURLs : list string)
    (sellingAsset buyingAsset : string) (asset : Asset) (st : NetState) :
  parseAssetID sellingAsset = Returned asset →
  parseAssetID buyingAsset = Returned asset →
  subscribeToOrderbookUncached (frontierURLs, sellingAsset, buyingAsset) st
  = (Returned (mkObservable (nextObject st)
                 (ObservableFrom [createEmptyOrderbookRecord asset asset])),
     setNextObject (S (nextObject st)) st).
Proof.
  intros Hselling Hbuying. unfold subscribeToOrderbookUncached.
  by rewrite Hselling, Hbuying, Asset_equals_refl.
Qed.

(** [fetchOrderbookRecord] compares the texts: of two different texts for
    one asset it asks an endpoint. *)
Example same_asset_written_differently :
  parseAssetID (H := Sample.packages) "GISSUER:FOO:" = Returned Sample.assetFOO
  ∧ (fetchOrderbookRecord (H := Sample.packages) [Sample.frontier]
       "GISSUER:FOO" "GISSUER:FOO:" initialState).1
    = AwaitsResponse (mkRequest Sample.frontier (OrderBookOf "GISSUER:FOO" "GISSUER:FOO:") 1).
Proof. split; reflexivity. Qed.

(** With two different identifiers the request goes to an endpoint. *)
Example different_assets_ask_upstream :
  (fetchOrderbookRecord (H := Sample.packages) [Sample.frontier]
     "GISSUER:FOO" "XDB" initialState).1
  = AwaitsResponse (mkRequest Sample.frontier (OrderBookOf "GISSUER:FOO" "XDB") 1).
Proof. reflexivity. Qed.

End NetworkClaims.

(* ===================================================================== *)
(** * Claims about waiting for an account and about failover             *)
(* ===================================================================== *)

Section AccountWaitClaims.
Import Http AccountWait PrimFloat.
Context {Data : Type}.
Variable parse : Response → Error + Data.
Variable haveShouldCancel : bool.

Abbreviation run := (waitFrom parse haveShouldCancel).

Lemma intervalAt_S n : intervalAt (S n) = nextInterval (intervalAt n).
Proof. done. Qed.

(** From the sixteenth turn on the interval is 5000 ms. *)
Lemma intervalAt_capped n : 15 ≤ n → intervalAt n = 5000%float.
Proof.
  intros Hn. replace n with (15 + (n - 15)) by lia.
  generalize (n - 15) as k. clear n Hn. intros k.
  induction k as [|k IH].
  - vm_compute. reflexivity.
  - rewrite Nat.add_succ_r, intervalAt_S, IH. vm_compute. reflexivity.
Qed.

(** The intervals are the doubles of [retryDelays]. *)
Lemma intervalAt_table n : intervalAt n = nth n retryDelays 5000%float.
Proof.
  destruct (le_lt_dec 16 n) as [Hlate|Hearly].
  - rewrite intervalAt_capped by lia. by rewrite nth_overflow by (simpl; lia).
  - do 16 (destruct n as [|n]; [vm_compute; reflexivity|]). simpl in Hearly. lia.
Qed.

(** The retry interval never shrinks and never passes 5000 ms; below
    5000 ms it grows, by the factor 1.05 as doubles multiply, until the
    product passes 5000 ms in the fifteenth turn. *)
Lemma nextInterval_grows n :
  leb (intervalAt n) (nextInterval (intervalAt n)) = true
  ∧ leb (nextInterval (intervalAt n)) 5000 = true
  ∧ leb 2500 (intervalAt n) = true
  ∧ (ltb (intervalAt n) 5000 = true →
     ltb (intervalAt n) (nextInterval (intervalAt n)) = true)
  ∧ (n < 14 → nextInterval (intervalAt n) = mul (intervalAt n) 1.05)
  ∧ (14 ≤ n → nextInterval (intervalAt n) = 5000%float).
Proof.
  destruct (le_lt_dec 16 n) as [Hlate|Hearly].
  - rewrite intervalAt_capped by lia.
    repeat split; intros;
      first [lia | by vm_compute
            | match goal with H : _ = true |- _ => vm_compute in H; discriminate end].
  - do 16 (destruct n as [|n];
           [repeat split; intros;
              first [lia | by vm_compute
                    | match goal with H : _ = true |- _ => vm_compute in H; discriminate end]
           |]).
    simpl in Hearly. lia.
Qed.

Lemma run_cancelled interval failed round later :
  haveShouldCancel = true → cancelAnswer round = true →
  run interval failed (round :: later)
  = ([PolledShouldCancel true],
     Thrown (Cancellation "Stopping to wait for account to become present in network.")).
Proof. intros -> Hc. simpl. by rewrite Hc. Qed.

(** A run ends with a cancellation only when the callback asked for it,
    or when the parser raised one. *)
Lemma cancellation_only_when_asked interval failed rounds message :
  (run interval failed rounds).2 = Thrown (Cancellation message) →
  (∃ response, parse response = inl (Cancellation message))
  ∨ (haveShouldCancel = true ∧ ∃ round, round ∈ rounds ∧ cancelAnswer round = true).
Proof.
  revert interval failed.
  induction rounds as [|round later IH]; intros interval failed; simpl; [done|].
  destruct (haveShouldCancel && cancelAnswer round) eqn:Hcancel.
  { intros _. right. apply andb_true_iff in Hcancel as [? ?].
    split; [done|]. exists round. split; [apply list_elem_of_here|done]. }
  destruct (fetched round) as [response|failure]; [|done].
  destruct (status response =? 200)%Z.
  { simpl. destruct (parse response) as [e|d] eqn:Hparse; [|done].
    intros [= ->]. left. by exists response. }
  destruct (status response =? 404)%Z; [|done].
  specialize (IH (nextInterval interval) true).
  destruct (run (nextInterval interval) true later) as [events result]. simpl in *.
  intros Hresult. destruct (IH Hresult) as [?|[? (r & Hin & Hr)]]; [by left|].
  right. split; [done|]. exists r. split; [by apply list_elem_of_further|done].
Qed.

(** C7.  One turn of the loop that waits for an account.  When a
    [shouldCancel] callback was passed it is polled once, before anything
    else, and an answer of true ends the run with a cancellation and no
    fetch.  Otherwise the account is fetched: status 200 ends the run with
    what [parseJSONResponse] makes of the response, whatever rounds might
    follow; status 404 sleeps for the current interval and goes on with the
    next one; any other status ends the run with a RequestFailedError
    naming the URL and the status.  The interval starts at 2500 ms and in
    every turn the next one is no shorter and at most 5000 ms; below
    5000 ms it is longer, the product with 1.05 in doubles, so that the
    first sixteen delays are the ones listed and every later one is
    5000 ms.  A cancellation is no such error, and a run ends with one
    only when the callback asked for it or the parser raised it. *)
Theorem waitForAccountData_turn (interval : float) (failed : bool)
    (round : Round) (later : list Round) :
  (haveShouldCancel = true → cancelAnswer round = true →
     run interval failed (round :: later)
     = ([PolledShouldCancel true],
        Thrown (Cancellation "Stopping to wait for account to become present in network.")))
  ∧ (haveShouldCancel && cancelAnswer round = false →
     ∀ response, fetched round = Responded response →
       (status response = 200%Z →
          run interval failed (round :: later)
          = ((if haveShouldCancel then [PolledShouldCancel false] else [])
               ++ [FetchedAccount],
             match parse response with
             | inr accountData => Done accountData failed
             | inl e => Thrown e
             end))
       ∧ (status response = 404%Z →
          run interval failed (round :: later)
          = ((if haveShouldCancel then [PolledShouldCancel false] else [])
               ++ [FetchedAccount; Slept interval]
               ++ (run (nextInterval interval) true later).1,
             (run (nextInterval interval) true later).2))
       ∧ (status response ≠ 200%Z → status response ≠ 404%Z →
          ∃ message,
            run interval failed (round :: later)
            = ((if haveShouldCancel then [PolledShouldCancel false] else [])
                 ++ [FetchedAccount],
               Thrown (CustomError "RequestFailedError" message
                         (url response) (status response)))))
  ∧ (∀ n, interval = intervalAt n →
       leb interval (nextInterval interval) = true
       ∧ leb (nextInterval interval) 5000 = true
       ∧ (ltb interval 5000 = true → ltb interval (nextInterval interval) = true)
       ∧ (n < 14 → nextInterval interval = mul interval 1.05)
       ∧ (14 ≤ n → nextInterval interval = 5000%float)
       ∧ interval = nth n [2500; 2625; 2756.25; 2894.0625; 3038.765625;
                          3190.7039062500003; 3350.2391015625003; 3517.7510566406254;
                          3693.6386094726568; 3878.32053994629; 4072.2365669436044;
                          4275.8483952907845; 4489.6408150553243; 4714.1228558080911;
                          4949.8289985984957; 5000]%float 5000%float)
  ∧ (∀ message,
       (run interval failed (round :: later)).2 = Thrown (Cancellation message) →
       (∃ response, parse response = inl (Cancellation message))
       ∨ (haveShouldCancel = true
          ∧ ∃ asked, asked ∈ round :: later ∧ cancelAnswer asked = true))
  ∧ (∀ text name message target code,
       Cancellation text ≠ CustomError name message target code).
Proof.
  split; [apply run_cancelled|]. split; [|split; [|split; [|done]]].
  - intros Hgo response Hfetched.
    assert (Hpolled : (if haveShouldCancel then [PolledShouldCancel (cancelAnswer round)]
                       else [])
                      = if haveShouldCancel then [PolledShouldCancel false] else []).
    { destruct haveShouldCancel; [|done]. simpl in Hgo. by rewrite Hgo. }
    split; [|split].
    + intros Hstatus. simpl. by rewrite Hgo, Hfetched, Hstatus, Hpolled.
    + intros Hstatus. simpl. rewrite Hgo, Hfetched, Hstatus, Hpolled. simpl.
      by destruct (run (nextInterval interval) true later).
    + intros H200 H404. eexists. simpl. rewrite Hgo, Hfetched, Hpolled.
      destruct (Z.eqb_spec (status response) 200); [done|].
      destruct (Z.eqb_spec (status response) 404); [done|]. reflexivity.
  - intros n ->.
    destruct (nextInterval_grows n) as (Hle & Hcap & _ & Hlt & Hmul & Hmax).
    repeat (split; [done|]). apply intervalAt_table.
  - intros message. apply cancellation_only_when_asked.
Qed.

(** The poll happens once per turn: with a callback there is one poll for
    every fetch, and at most one more, for the turn that was cancelled;
    without a callback there is none. *)
Lemma polled_once_per_turn interval failed rounds :
  if haveShouldCancel
  then fetchesOf (run interval failed rounds).1 ≤ pollsOf (run interval failed rounds).1
       ∧ pollsOf (run interval failed rounds).1 ≤ S (fetchesOf (run interval failed rounds).1)
  else pollsOf (run interval failed rounds).1 = 0.
Proof.
  revert interval failed.
  induction rounds as [|round later IH]; intros interval failed;
    [by destruct haveShouldCancel; simpl; unfold pollsOf, fetchesOf; simpl; try lia|].
  specialize (IH (nextInterval interval) true).
  simpl. destruct haveShouldCancel; simpl.
  - destruct (cancelAnswer round); [unfold pollsOf, fetchesOf; simpl; lia|].
    destruct (fetched round) as [response|message];
      [|unfold pollsOf, fetchesOf; simpl; lia].
    destruct (status response =? 200)%Z; [unfold pollsOf, fetchesOf; simpl; lia|].
    destruct (status response =? 404)%Z; [|unfold pollsOf, fetchesOf; simpl; lia].
    destruct (waitFrom parse true (nextInterval interval) true later) as [events result].
    unfold pollsOf, fetchesOf in *; simpl in *. lia.
  - destruct (fetched round) as [response|message]; [|done].
    destruct (status response =? 200)%Z; [done|].
    destruct (status response =? 404)%Z; [|done].
    destruct (waitFrom parse false (nextInterval interval) true later) as [events result].
    unfold pollsOf in *; simpl in *. done.
Qed.

(** The delays of a run are the retry intervals in their order. *)
Lemma delays_are_backoff interval failed rounds :
  delaysOf (run interval failed rounds).1
  = backoff (length (delaysOf (run interval failed rounds).1)) interval.
Proof.
  revert interval failed.
  induction rounds as [|round later IH]; intros interval failed; [done|].
  specialize (IH (nextInterval interval) true). simpl.
  destruct haveShouldCancel; simpl.
  - destruct (cancelAnswer round); [done|].
    destruct (fetched round) as [response|message]; [|done].
    destruct (status response =? 200)%Z; [done|].
    destruct (status response =? 404)%Z; [|done].
    destruct (waitFrom parse true (nextInterval interval) true later) as [events result].
    unfold delaysOf in *; simpl in *. by rewrite IH at 1.
  - destruct (fetched round) as [response|message]; [|done].
    destruct (status response =? 200)%Z; [done|].
    destruct (status response =? 404)%Z; [|done].
    destruct (waitFrom parse false (nextInterval interval) true later) as [events result].
    unfold delaysOf in *; simpl in *. by rewrite IH at 1.
Qed.

(** The retry intervals from the [k]-th turn on. *)
Lemma backoff_intervalAt n k :
  backoff n (intervalAt k) = List.map intervalAt (seq k n).
Proof.
  revert k; induction n as [|n IH]; intros k; simpl; [done|].
  by rewrite <- intervalAt_S, IH.
Qed.

(** The [i]-th delay of a wait is the [i]-th double of [retryDelays], and
    5000 ms from the sixteenth on. *)
Lemma backoff_table n i ms :
  backoff n firstInterval !! i = Some ms → ms = nth i retryDelays 5000%float.
Proof.
  change firstInterval with (intervalAt 0). rewrite backoff_intervalAt.
  change (List.map intervalAt (seq 0 n)) with (intervalAt <$> seq 0 n).
  rewrite list_lookup_fmap. intros Hms.
  destruct (seq 0 n !! i) as [j|] eqn:Hj; [|done].
  apply lookup_seq in Hj as [-> _]. simpl in Hms. injection Hms as <-.
  apply intervalAt_table.
Qed.

(** Of two delays in a row the later is no shorter, and longer when the
    earlier is below 5000 ms; every delay is between 2500 and 5000 ms. *)
Lemma backoff_grows n i a :
  backoff n firstInterval !! i = Some a →
  leb 2500 a = true ∧ leb a 5000 = true
  ∧ ∀ b, backoff n firstInterval !! S i = Some b →
         leb a b = true ∧ (ltb a 5000 = true → ltb a b = true).
Proof.
  change firstInterval with (intervalAt 0). rewrite backoff_intervalAt.
  change (List.map intervalAt (seq 0 n)) with (intervalAt <$> seq 0 n).
  rewrite !list_lookup_fmap. intros Ha.
  destruct (seq 0 n !! i) as [j|] eqn:Hj; [|done].
  apply lookup_seq in Hj as [-> _]. simpl in Ha. injection Ha as <-.
  destruct (nextInterval_grows i) as (Hle & Hcap & Hmin & Hlt & _).
  split; [done|]. split.
  - destruct i as [|i]; [by vm_compute|].
    rewrite intervalAt_S. by destruct (nextInterval_grows i) as (_ & ? & _).
  - intros b Hb.
    destruct (seq 0 n !! S i) as [j|] eqn:Hj; [|done].
    apply lookup_seq in Hj as [-> _]. simpl in Hb. injection Hb as <-.
    split; [exact Hle | exact Hlt].
Qed.

End AccountWaitClaims.

Section AccountWaitRuns.
Import Http AccountWait PrimFloat.

(** Two rounds of 404 and then a 200: the account data comes back, marked
    as having had to wait, after sleeping 2500 ms and then 2625 ms. *)
Example created_after_two_rounds :
  waitForAccountDataUncached bodyAsData true [answering 404; answering 404; answering 200]
  = ([PolledShouldCancel false; FetchedAccount; Slept 2500;
      PolledShouldCancel false; FetchedAccount; Slept 2625;
      PolledShouldCancel false; FetchedAccount],
     Done "{}" true).
Proof. reflexivity. Qed.

(** The delays of a wait that is answered with status 404 throughout: the
    sixth is the double 3190.7039062500003, and the sixteenth and all
    later ones are 5000. *)
Example delays_of_a_long_wait :
  delaysOf (waitForAccountDataUncached bodyAsData false (replicate 18 (answering 404))).1
  = retryDelays ++ [5000; 5000]%float.
Proof. vm_compute. reflexivity. Qed.

Lemma waitForAccountData_turn_witness :
  waitFrom bodyAsData true firstInterval false [answering 404; answering 200]
  = ([PolledShouldCancel false] ++ [FetchedAccount; Slept firstInterval]
       ++ (waitFrom bodyAsData true (nextInterval firstInterval) true [answering 200]).1,
     (waitFrom bodyAsData true (nextInterval firstInterval) true [answering 200]).2).
Proof.
  destruct (waitForAccountData_turn bodyAsData true firstInterval false
              (answering 404) [answering 200]) as (_ & Hfetch & _).
  destruct (Hfetch eq_refl _ eq_refl) as (_ & Hretry & _).
  exact (Hretry eq_refl).
Defined.

End AccountWaitRuns.

Section FailoverClaims.
Import Http Failover.

Lemma seemsFine_decides primary :
  primaryAnswersInTime primary
  ↔ match primary with
    | RequestFirst (Responded response) => seemsFine response = true
    | _ => False
    end.
Proof.
  unfold primaryAnswersInTime. split.
  - by intros (response & -> & Hfine).
  - destruct primary as [[response|message]|]; try done. intros Hfine. by exists response.
Qed.

(** C8 at an input where it fails.  The primary runs into the delay, so
    it has not answered in time, and the secondary answers 500: the primary
    URL is selected, not the secondary one. *)
Lemma failover_keeps_primary_when_secondary_is_unfit :
  ¬ primaryAnswersInTime DelayFirst
  ∧ selected
      (checkFrontierOrFailover "https://primary.example" "https://secondary.example"
         DelayFirst
         (Responded (mkResponse 500 "https://secondary.example/accounts/G" "")))
    = inr "https://primary.example"
  ∧ selected
      (checkFrontierOrFailover "https://primary.example" "https://secondary.example"
         DelayFirst
         (Responded (mkResponse 500 "https://secondary.example/accounts/G" "")))
    ≠ inr "https://secondary.example".
Proof.
  split; [by intros (? & ? & ?)|]. split; [reflexivity | discriminate].
Qed.

(** Hence the selection is not as the specification words it. *)
Lemma failoverAsClaimed_fails : ¬ failoverAsClaimed.
Proof.
  intros Hclaim.
  destruct (Hclaim "https://primary.example" "https://secondary.example" DelayFirst
              (Responded (mkResponse 500 "https://secondary.example/accounts/G" "")))
    as [Hsecondary _].
  assert (Hnot : ¬ primaryAnswersInTime DelayFirst) by by intros (? & ? & ?).
  specialize (Hsecondary Hnot). discriminate Hsecondary.
Qed.

(** C8, amended.  A primary that answers with a status below 300 or with
    404 before the delay of 2500 ms runs out is selected, and the secondary
    is not contacted.  In every other case the secondary is asked: it is
    selected when it answers with such a status, the primary is selected
    when the secondary answers with another status, and the call fails
    with the request's error when the secondary request fails. *)
Theorem checkFrontierOrFailover_selection (primaryURL secondaryURL : string)
    (primary : Race) (secondary : FetchOutcome) :
  (primaryAnswersInTime primary →
     checkFrontierOrFailover primaryURL secondaryURL primary secondary
     = mkSelection (inr primaryURL) [primaryURL])
  ∧ (¬ primaryAnswersInTime primary →
     contacted (checkFrontierOrFailover primaryURL secondaryURL primary secondary)
     = [primaryURL; secondaryURL]
     ∧ match secondary with
       | Responded response =>
           (seemsFine response = true →
              selected (checkFrontierOrFailover primaryURL secondaryURL primary secondary)
              = inr secondaryURL)
           ∧ (seemsFine response = false →
              selected (checkFrontierOrFailover primaryURL secondaryURL primary secondary)
              = inr primaryURL)
       | FetchFailed message =>
           selected (checkFrontierOrFailover primaryURL secondaryURL primary secondary)
           = inl (Passed message)
       end).
Proof.
  rewrite seemsFine_decides. unfold checkFrontierOrFailover.
  destruct primary as [[response|message]|]; simpl.
  - destruct (seemsFine response); split; try done.
    intros _. destruct secondary as [r|m]; simpl; [|done].
    split; [done|]. by split; intros ->.
  - split; [done|]. intros _. destruct secondary as [r|m]; simpl; [|done].
    split; [done|]. by split; intros ->.
  - split; [done|]. intros _. destruct secondary as [r|m]; simpl; [|done].
    split; [done|]. by split; intros ->.
Qed.

Lemma checkFrontierOrFailover_selection_witness :
  checkFrontierOrFailover "https://primary.example" "https://secondary.example"
    (RequestFirst (Responded (mkResponse 404 "https://primary.example/accounts/G" "")))
    (FetchFailed "unreachable")
  = mkSelection (inr "https://primary.example") ["https://primary.example"].
Proof.
  apply (checkFrontierOrFailover_selection "https://primary.example"
           "https://secondary.example"
           (RequestFirst (Responded (mkResponse 404 "https://primary.example/accounts/G" "")))
           (FetchFailed "unreachable")).
  eexists. split; reflexivity.
Defined.

(** The primary runs into the delay and the secondary answers 200. *)
Example failover_to_secondary :
  checkFrontierOrFailover "https://primary.example" "https://secondary.example"
    DelayFirst (Responded (mkResponse 200 "https://secondary.example/accounts/G" "{}"))
  = mkSelection (inr "https://secondary.example")
      ["https://primary.example"; "https://secondary.example"].
Proof. reflexivity. Qed.

End FailoverClaims.

(* ===================================================================== *)
(** * Further facts about the ledger                                     *)
(* ===================================================================== *)

Section LedgerComposition.
Import Ledger.
Context {T : Type}.
Implicit Types (c : Cache T) (u : OptimisticUpdate T).

Lemma Cache_eq c1 c2 :
  (∀ k, updates c1 !! k = updates c2 !! k) → emitted c1 = emitted c2 → c1 = c2.
Proof.
  destruct c1 as [m1 e1], c2 as [m2 e2]; simpl. intros Hm ->. f_equal. by apply map_eq.
Qed.

Lemma filter_filter {A} (p q : A → bool) (xs : list A) :
  List.filter q (List.filter p xs) = List.filter (λ x, p x && q x) xs.
Proof.
  induction xs as [|x xs IH]; simpl; [done|].
  destruct (p x) eqn:Hp; simpl; [|done].
  destruct (q x); by rewrite IH.
Qed.

Lemma filter_ext_bool {A} (p q : A → bool) (xs : list A) :
  (∀ x, p x = q x) → List.filter p xs = List.filter q xs.
Proof. intros Hpq. induction xs as [|x xs IH]; simpl; [done|]. by rewrite Hpq, IH. Qed.

Lemma isStale_app url (h1 h2 : list string) u :
  isStale url (h1 ++ h2) u = isStale url h1 u || isStale url h2 u.
Proof.
  apply eq_true_iff_eq. rewrite orb_true_iff, !isStale_true, elem_of_app. tauto.
Qed.

(** X1.  Retiring composes: two rounds for one endpoint amount to one
    round with both lists of hashes, a round done twice is done once, and
    rounds for any two endpoints can be swapped. *)
Theorem removeStaleUpdates_composes c (url url' : string) (h1 h2 : list string) :
  removeStaleUpdates url h2 (removeStaleUpdates url h1 c)
    = removeStaleUpdates url (h1 ++ h2) c
  ∧ removeStaleUpdates url h1 (removeStaleUpdates url h1 c) = removeStaleUpdates url h1 c
  ∧ removeStaleUpdates url h1 (removeStaleUpdates url' h2 c)
    = removeStaleUpdates url' h2 (removeStaleUpdates url h1 c).
Proof.
  split; [|split]; (apply Cache_eq; [|done]); intros k;
    rewrite !removeStaleUpdates_lookup; destruct (updates c !! k) as [l|]; simpl;
    try done; f_equal; rewrite !filter_filter; apply filter_ext_bool; intros u.
  - rewrite isStale_app. by destruct (isStale url h1 u), (isStale url h2 u).
  - by destruct (isStale url h1 u).
  - by destruct (isStale url h1 u), (isStale url' h2 u).
Qed.

Lemma removeStaleUpdates_unchanged c (url : string) (hashes : list string) :
  map_Forall (λ _ entries, Forall (λ u, isStale url hashes u = false) entries)
             (updates c) →
  removeStaleUpdates url hashes c = c.
Proof.
  intros Hnone. apply Cache_eq; [|done]. intros k.
  rewrite removeStaleUpdates_lookup.
  destruct (updates c !! k) as [l|] eqn:Hk; simpl; [|done]. f_equal.
  specialize (Hnone k l Hk). simpl in Hnone. clear Hk.
  induction Hnone as [|u l Hu _ IH]; simpl; [done|]. rewrite Hu; simpl. by rewrite IH.
Qed.

Lemma filter_fixed {A} (keep : A → bool) (xs : list A) :
  List.filter keep xs = xs → Forall (λ x, keep x = true) xs.
Proof.
  induction xs as [|x xs IH]; simpl; [constructor|].
  destruct (keep x) eqn:Hk; intros Heq.
  - constructor; [done|]. apply IH. congruence.
  - pose proof (List.filter_length_le keep xs) as Hle.
    rewrite Heq in Hle. simpl in Hle. lia.
Qed.

Lemma removeStaleUpdates_no_hashes c (url : string) : removeStaleUpdates url [] c = c.
Proof.
  apply removeStaleUpdates_unchanged. intros k l _.
  apply Forall_forall. intros u _. unfold isStale. simpl. apply andb_false_r.
Qed.

(** X2.  [removeStaleUpdates] leaves the ledger as it is exactly when no
    stored update is of the given endpoint with a hash of the list: a
    page of transactions that confirms nothing changes nothing, and a
    ledger that comes back unchanged held nothing to retire. *)
Theorem removeStaleUpdates_nothing_to_retire c (url : string) (hashes : list string) :
  removeStaleUpdates url hashes c = c
  ↔ map_Forall (λ _ entries, Forall (λ u, isStale url hashes u = false) entries)
               (updates c).
Proof.
  split; [|apply removeStaleUpdates_unchanged].
  intros Hsame k l Hk. simpl.
  pose proof (removeStaleUpdates_lookup url hashes c k) as Hlookup.
  rewrite Hsame, Hk in Hlookup. simpl in Hlookup.
  assert (Hfixed : List.filter (λ u, negb (isStale url hashes u)) l = l) by congruence.
  apply filter_fixed in Hfixed. eapply Forall_impl; [exact Hfixed|].
  intros u Hu. simpl in Hu. by apply negb_true_iff in Hu.
Qed.

Lemma getUpdates_addUpdates_by_key (us : list (OptimisticUpdate T)) c
    (url accountID : string) :
  getUpdates url accountID (addUpdates us c)
    = getUpdates url accountID c
      ++ List.filter
           (λ u, bool_decide
                   (createAccountCacheKey u = createAccountCacheKeyByFilter url accountID))
           us.
Proof.
  unfold addUpdates. revert c; induction us as [|u us IH]; intros c; simpl.
  - by rewrite app_nil_r.
  - rewrite IH, getUpdates_addUpdate.
    destruct (decide (createAccountCacheKey u
                      = createAccountCacheKeyByFilter url accountID)) as [Hk|Hk].
    + rewrite bool_decide_eq_true_2 by done. by rewrite <- app_assoc.
    + rewrite bool_decide_eq_false_2 by done. by rewrite app_nil_r.
Qed.

(** X3.  [addUpdates] files every update under its own key and nowhere
    else: what [getUpdates] returns for a key grows by the added updates
    of that key, in their order, and by no other, so a key that none of
    the added updates has is answered as before; and the subject is
    handed every added update, in order. *)
Theorem addUpdates_files_by_key (us : list (OptimisticUpdate T)) c (url accountID : string) :
  getUpdates url accountID (addUpdates us c)
    = getUpdates url accountID c
      ++ List.filter
           (λ u, bool_decide
                   (createAccountCacheKey u = createAccountCacheKeyByFilter url accountID))
           us
  ∧ (Forall (λ u, createAccountCacheKey u ≠ createAccountCacheKeyByFilter url accountID) us →
     getUpdates url accountID (addUpdates us c) = getUpdates url accountID c)
  ∧ emitted (addUpdates us c) = emitted c ++ us.
Proof.
  split; [apply getUpdates_addUpdates_by_key|]. split; [|apply emitted_addUpdates].
  intros Hother. rewrite getUpdates_addUpdates_by_key.
  assert (Hnone : List.filter
                    (λ u, bool_decide
                            (createAccountCacheKey u
                             = createAccountCacheKeyByFilter url accountID)) us = []).
  { induction Hother as [|u us Hu _ IH]; simpl; [done|].
    by rewrite bool_decide_eq_false_2. }
  by rewrite Hnone, app_nil_r.
Qed.

End LedgerComposition.

Section LedgerCompositionRuns.
Import Ledger Frontier.

Lemma removeStaleUpdates_nothing_to_retire_witness :
  removeStaleUpdates Sample.frontier ["ee05"]
    (foldl (λ acc batch, addUpdates batch acc) newCache Sample.batches)
  = foldl (λ acc batch, addUpdates batch acc) newCache Sample.batches.
Proof.
  apply (removeStaleUpdates_nothing_to_retire
           (foldl (λ acc batch, addUpdates batch acc) newCache Sample.batches)
           Sample.frontier ["ee05"]).
  apply map_Forall_to_list. vm_compute. repeat constructor.
Defined.

End LedgerCompositionRuns.

(* ===================================================================== *)
(** * Facts about submitting, confirming and fetching                    *)
(* ===================================================================== *)

Section SubmissionFacts.
Import Ledger Sdk Frontier Http Index Fetches.
Context `{Packages}.
Variable handleManageOffer :
  string → string → Transaction → list (OptimisticUpdate (list OfferRecord)).

Lemma ingest_account_ledger url tx (ops : list Operation) l :
  accountDataUpdates
    (foldl (λ acc operation, Index.ingestOperation handleManageOffer url operation tx acc)
           l ops)
  = addUpdates
      (concat
         (List.map
            (λ operation,
               match operation with
               | OpChangeTrust op => ChangeTrust.changeTrust url op tx
               | OpSetOptions op => SetOptions.setAccountOptions url op tx
               | OpOther _ => []
               end) ops))
      (accountDataUpdates l).
Proof.
  revert l; induction ops as [|op ops IH]; intros l; simpl; [done|].
  rewrite IH. unfold addUpdates. rewrite foldl_app. f_equal.
  destruct op as [ct|so|type]; simpl; try done.
  by destruct (String.eqb type "manageBuyOffer" || String.eqb type "manageSellOffer").
Qed.

Lemma handleSubmittedTransaction_account_ledger url tx l :
  accountDataUpdates (Index.handleSubmittedTransaction handleManageOffer url tx l)
  = addUpdates (accountOverlaysOf url tx) (accountDataUpdates l).
Proof. apply ingest_account_ledger. Qed.

Lemma translator_updates_carry url tx u :
  (∃ op, u ∈ ChangeTrust.changeTrust url op tx)
  ∨ (∃ op, u ∈ SetOptions.setAccountOptions url op tx) →
  frontierURL u = url ∧ transactionHash u = hashHex tx.
Proof.
  intros [[op Hin]|[op Hin]].
  - unfold ChangeTrust.changeTrust in Hin.
    destruct (limitEqZero _); by apply list_elem_of_singleton in Hin as ->.
  - apply setAccountOptions_cases in Hin
      as [(k & w & ->)|[(k & ->)|[->|(w & ->)]]]; done.
Qed.

Lemma accountOverlaysOf_carry url tx :
  Forall (λ u, frontierURL u = url ∧ transactionHash u = hashHex tx)
         (accountOverlaysOf url tx).
Proof.
  unfold accountOverlaysOf. apply Forall_forall. intros u Hin.
  apply list_elem_of_In, in_concat in Hin as (us & Hus & Hu).
  apply in_map_iff in Hus as (op & <- & _). apply list_elem_of_In in Hu.
  apply translator_updates_carry.
  destruct op as [ct|so|type]; [left|right|]; eauto. by apply elem_of_nil in Hu.
Qed.

Lemma filter_none {A} (keep : A → bool) (xs : list A) :
  Forall (λ x, keep x = false) xs → List.filter keep xs = [].
Proof. induction 1 as [|x xs Hx _ IH]; simpl; [done|]. by rewrite Hx. Qed.

Lemma filter_all {A} (keep : A → bool) (xs : list A) :
  Forall (λ x, keep x = true) xs → List.filter keep xs = xs.
Proof. induction 1 as [|x xs Hx _ IH]; simpl; [done|]. by rewrite Hx, IH. Qed.

(** X4.  A submission answered with status 200 puts the account overlays
    of all operations of the transaction into the ledger, in the order of
    the operations; each carries the endpoint's URL and the hash of the
    transaction.  A submission answered otherwise leaves both ledgers as
    they were. *)
Theorem submitTransaction_records_overlays (url : string) (tx : Transaction)
    (response : Response) (l : Ledgers) :
  (status response = 200%Z →
     accountDataUpdates (submitTransaction handleManageOffer url tx response l)
     = addUpdates (accountOverlaysOf url tx) (accountDataUpdates l)
     ∧ emitted (accountDataUpdates (submitTransaction handleManageOffer url tx response l))
       = emitted (accountDataUpdates l) ++ accountOverlaysOf url tx
     ∧ Forall (λ u, frontierURL u = url ∧ transactionHash u = hashHex tx)
              (accountOverlaysOf url tx))
  ∧ (status response ≠ 200%Z →
     submitTransaction handleManageOffer url tx response l = l).
Proof.
  unfold submitTransaction. split.
  - intros ->. simpl. rewrite handleSubmittedTransaction_account_ledger.
    split; [done|]. split; [apply emitted_addUpdates | apply accountOverlaysOf_carry].
  - intros Hstatus. by destruct (Z.eqb_spec (status response) 200).
Qed.

Section Pages.
Variable parsePage : Response → Error + CollectionPage TransactionRecord.

(** X5.  Submitting and then confirming is a round trip: once a page of
    transactions that holds the hash of the submitted transaction has
    come from the endpoint it was submitted to, [getUpdates] returns, for
    every key, what it would return had the transaction never been
    submitted. *)
Theorem submit_then_confirm_round_trip (url requestURL : string) (tx : Transaction)
    (accepted confirming : Response) (emptyOn404 : bool)
    (page : CollectionPage TransactionRecord) (l : Ledgers)
    (forURL forAccount : string) :
  status accepted = 200%Z →
  (status confirming =? 404)%Z && emptyOn404 = false →
  parsePage confirming = inr page →
  hashHex tx ∈ List.map hash (records page) →
  getUpdates forURL forAccount
    (accountDataUpdates
       (fetchAccountTransactions parsePage url requestURL emptyOn404 confirming
          (submitTransaction handleManageOffer url tx accepted l)).2)
  = getUpdates forURL forAccount
      (accountDataUpdates
         (fetchAccountTransactions parsePage url requestURL emptyOn404 confirming l).2).
Proof.
  intros Haccepted Hshortcut Hpage Hin.
  unfold fetchAccountTransactions. rewrite Hshortcut, Hpage. simpl.
  unfold submitTransaction. rewrite Haccepted. simpl.
  rewrite handleSubmittedTransaction_account_ledger.
  rewrite !getUpdates_removeStaleUpdates.
  rewrite getUpdates_addUpdates_by_key.
  rewrite List.filter_app.
  rewrite (filter_none _ (List.filter _ (accountOverlaysOf url tx))); [by rewrite app_nil_r|].
  apply Forall_forall. intros u Hu.
  apply list_elem_of_In, List.filter_In in Hu as [Hu _].
  apply list_elem_of_In in Hu.
  pose proof (accountOverlaysOf_carry url tx) as Hcarry.
  rewrite Forall_forall in Hcarry. destruct (Hcarry u Hu) as [Hurl Hhash].
  apply negb_false_iff, isStale_true. by rewrite Hurl, Hhash.
Qed.

(** X6.  Retiring is per endpoint: a page that holds the hash but comes
    from another endpoint than the one the transaction was submitted to
    retires none of its overlays; [getUpdates] for the endpoint of the
    submission answers as before the page came. *)
Theorem confirmation_at_other_endpoint_retires_nothing (url other requestURL : string)
    (tx : Transaction) (accepted confirming : Response) (emptyOn404 : bool)
    (l : Ledgers) (forAccount : string) :
  other ≠ url →
  status accepted = 200%Z →
  Forall (λ u, frontierURL u = url) (getUpdates url forAccount (accountDataUpdates l)) →
  getUpdates url forAccount
    (accountDataUpdates
       (fetchAccountTransactions parsePage other requestURL emptyOn404 confirming
          (submitTransaction handleManageOffer url tx accepted l)).2)
  = getUpdates url forAccount
      (accountDataUpdates (submitTransaction handleManageOffer url tx accepted l)).
Proof.
  intros Hother Haccepted Hstored.
  unfold fetchAccountTransactions.
  destruct ((status confirming =? 404)%Z && emptyOn404); [done|].
  destruct (parsePage confirming) as [e|page]; [done|]. simpl.
  rewrite getUpdates_removeStaleUpdates.
  apply filter_all. apply Forall_forall. intros u Hu.
  apply negb_true_iff. apply not_true_is_false. rewrite isStale_true. intros [Hurl _].
  unfold submitTransaction in Hu. rewrite Haccepted in Hu. simpl in Hu.
  rewrite handleSubmittedTransaction_account_ledger in Hu.
  rewrite getUpdates_addUpdates_by_key in Hu. apply elem_of_app in Hu as [Hu|Hu].
  - rewrite Forall_forall in Hstored. specialize (Hstored u Hu). congruence.
  - apply list_elem_of_In, List.filter_In in Hu as [Hu _]. apply list_elem_of_In in Hu.
    pose proof (accountOverlaysOf_carry url tx) as Hcarry.
    rewrite Forall_forall in Hcarry. destruct (Hcarry u Hu) as [Hu' _]. congruence.
Qed.

End Pages.
End SubmissionFacts.

Section SubmissionRuns.
Import Ledger Sdk Frontier Http Index Fetches Scenario.

Lemma submit_then_confirm_round_trip_witness :
  getUpdates Sample.frontier Sample.accountA
    (accountDataUpdates
       (fetchAccountTransactions parseConfirming Sample.frontier "self" false answered
          (submitTransaction (H := Sample.packages) noOffers Sample.frontier Sample.tx1
             accepted newLedgers)).2)
  = getUpdates Sample.frontier Sample.accountA
      (accountDataUpdates
         (fetchAccountTransactions parseConfirming Sample.frontier "self" false answered
            newLedgers).2).
Proof.
  apply (submit_then_confirm_round_trip (H := Sample.packages) noOffers parseConfirming
           Sample.frontier "self" Sample.tx1 accepted answered false confirmingPage).
  - reflexivity.
  - reflexivity.
  - reflexivity.
  - vm_compute. repeat constructor.
Defined.

Lemma confirmation_at_other_endpoint_retires_nothing_witness :
  getUpdates Sample.frontier Sample.accountA
    (accountDataUpdates
       (fetchAccountTransactions parseConfirming otherFrontier "self" false answered
          (submitTransaction (H := Sample.packages) noOffers Sample.frontier Sample.tx1
             accepted newLedgers)).2)
  = getUpdates Sample.frontier Sample.accountA
      (accountDataUpdates
         (submitTransaction (H := Sample.packages) noOffers Sample.frontier Sample.tx1
            accepted newLedgers)).
Proof.
  apply (confirmation_at_other_endpoint_retires_nothing (H := Sample.packages) noOffers
           parseConfirming Sample.frontier otherFrontier "self" Sample.tx1 accepted answered
           false newLedgers Sample.accountA).
  - vm_compute. discriminate.
  - reflexivity.
  - vm_compute. constructor.
Defined.

End SubmissionRuns.

Section FetchAccountFacts.
Import Ledger Sdk Frontier Http Index Fetches ChangeTrust.
Context `{Packages}.
Variable handleManageOffer :
  string → string → Transaction → list (OptimisticUpdate (list OfferRecord)).
Variable parseAccount : Response → Error + AccountResponse.

Lemma notPoolShares_false b : notPoolShares b = false ↔ ∃ shares, b = LinePoolShares shares.
Proof. destruct b; simpl; split; try done; eauto; by intros [? ?]. Qed.

(** X7.  A missing account is [null] whatever the ledger holds, and a
    response that does not parse fails with the parser's error.  An
    account that no overlay is waiting for is shown as the endpoint
    reports it but without its liquidity-pool entries: exactly those are
    taken out, the other entries stay in their order, and no other field
    changes. *)
Theorem fetchAccountData_without_overlays (url : string) (response : Response)
    (l : Ledgers) :
  (status response = 404%Z → fetchAccountData parseAccount url response l = inr None)
  ∧ (status response ≠ 404%Z →
     ∀ e, parseAccount response = inl e →
          fetchAccountData parseAccount url response l = inl e)
  ∧ (status response ≠ 404%Z →
     ∀ reported, parseAccount response = inr reported →
       getUpdates url (account_id reported) (accountDataUpdates l) = [] →
       ∃ shown,
         fetchAccountData parseAccount url response l = inr (Some shown)
         ∧ shown = withBalances reported (balances shown)
         ∧ RemovesExactly (λ b, ∃ shares, b = LinePoolShares shares)
                          (balances reported) (balances shown)).
Proof.
  unfold fetchAccountData. split; [by intros ->|].
  split; intros Hstatus; apply Z.eqb_neq in Hstatus; rewrite Hstatus.
  - by intros e ->.
  - intros reported -> Hnone. eexists. split; [reflexivity|].
    unfold Overlay.optimisticallyUpdateAccountData. simpl. rewrite Hnone. simpl.
    split; [done|]. eapply RemovesExactly_iff; [|apply filter_RemovesExactly].
    intros b. apply notPoolShares_false.
Qed.

(** X8.  Giving up the trustline of an asset, seen through
    [fetchAccountData].  Let no overlay wait for an account at an
    endpoint, and let the endpoint accept a transaction whose one
    operation, of that account, gives up the trustline of an asset.  Then
    the account fetched from that endpoint is shown without the entry of
    that asset and without its liquidity-pool entries; every other entry
    is shown, in the order of the report. *)
Theorem fetchAccountData_after_untrusting_asset (url : string) (tx : Transaction)
    (op : Sdk.ChangeTrust) (asset : Asset) (accepted response : Response)
    (reported : AccountResponse) (l : Ledgers) :
  operations tx = [OpChangeTrust op] →
  line op = LineAsset asset →
  limitEqZero (Sdk.limit op) = true →
  status accepted = 200%Z →
  status response ≠ 404%Z →
  parseAccount response = inr reported →
  account_id reported = JS.orElse (ct_source op) (source tx) →
  getUpdates url (account_id reported) (accountDataUpdates l) = [] →
  ∃ shown,
    fetchAccountData parseAccount url response
      (submitTransaction handleManageOffer url tx accepted l) = inr (Some shown)
    ∧ shown = withBalances reported (balances shown)
    ∧ RemovesExactly
        (λ b, isEntryFor (LineAsset asset) b ∨ ∃ shares, b = LinePoolShares shares)
        (balances reported) (balances shown).
Proof.
  intros Hops Hline Hzero Haccepted Hstatus Hparse Hid Hnone.
  unfold fetchAccountData, submitTransaction.
  apply Z.eqb_neq in Hstatus. rewrite Hstatus, Hparse, Haccepted. simpl.
  eexists. split; [reflexivity|].
  unfold Overlay.optimisticallyUpdateAccountData. simpl.
  rewrite handleSubmittedTransaction_account_ledger.
  rewrite getUpdates_addUpdates_by_key, Hnone.
  unfold accountOverlaysOf. rewrite Hops. simpl.
  unfold changeTrust. rewrite Hzero. simpl.
  rewrite bool_decide_eq_true_2
    by (unfold createAccountCacheKey; simpl; by rewrite Hid).
  simpl. split; [done|].
  rewrite filter_filter.
  eapply RemovesExactly_iff; [|apply filter_RemovesExactly].
  intros b. simpl. rewrite andb_false_iff, notPoolShares_false, keptByRemoveTrustline_false.
  rewrite Hline. unfold isOtherKind. destruct b; simpl; split; intros Hb.
  - destruct Hb as [[? ?]|[?|[]]]; [done|by left].
  - destruct Hb as [?|[? ?]]; [right; by left|done].
  - destruct Hb as [[? ?]|[?|[]]]; [done|by left].
  - destruct Hb as [?|[? ?]]; [right; by left|done].
  - right; eauto.
  - left; eauto.
Qed.

End FetchAccountFacts.

Section FetchAccountRuns.
Import Ledger Sdk Frontier Http Index Fetches ChangeTrust Scenario.

Lemma fetchAccountData_after_untrusting_asset_witness :
  ∃ shown,
    fetchAccountData parseTrusting Sample.frontier answered
      (submitTransaction (H := Sample.packages) noOffers Sample.frontier untrustTx
         accepted newLedgers) = inr (Some shown)
    ∧ shown = withBalances trusting (balances shown)
    ∧ RemovesExactly
        (λ b, isEntryFor (H := Sample.packages) (LineAsset Sample.assetFOO) b
              ∨ ∃ shares, b = LinePoolShares shares)
        (balances trusting) (balances shown).
Proof.
  apply (fetchAccountData_after_untrusting_asset (H := Sample.packages) noOffers
           parseTrusting Sample.frontier untrustTx untrustFOO Sample.assetFOO accepted
           answered trusting newLedgers); try reflexivity.
  vm_compute. discriminate.
Defined.

End FetchAccountRuns.

(* ===================================================================== *)
(** * Further facts about the two translators                            *)
(* ===================================================================== *)

Section TranslatorFacts.
Import Ledger Sdk Frontier SetOptions ChangeTrust Overlay.
Context `{Packages}.

Lemma applyAll_thresholds_kept us s :
  Forall (λ u, ∀ a, thresholds (apply u a) = thresholds a) us →
  thresholds (applyAll us s) = thresholds s.
Proof.
  unfold applyAll. revert s; induction us as [|u us IH]; intros s Hus; simpl; [done|].
  apply Forall_cons in Hus as [Hu Hus]. by rewrite IH, Hu.
Qed.

Lemma setThresholds_thresholds url op tx s :
  thresholds (apply (setThresholds url op tx) s)
  = mkThresholds (default (low_threshold (thresholds s)) (lowThreshold op))
                 (default (med_threshold (thresholds s)) (medThreshold op))
                 (default (high_threshold (thresholds s)) (highThreshold op)).
Proof.
  simpl. destruct (thresholds s) as [lo me hi], (lowThreshold op), (medThreshold op),
    (highThreshold op); done.
Qed.

(** X9.  A signer shadows the thresholds: when a set-options operation
    carries an ed25519 signer with a weight of zero or more, its overlays
    leave the thresholds of the account as they are, whatever thresholds
    the operation sets.  Without such a signer the thresholds the
    operation sets are shown, and the others stay. *)
Theorem setAccountOptions_signer_shadows_thresholds (url : string) (op : Sdk.SetOptions)
    (tx : Transaction) (s : AccountResponse) :
  (∀ k w, signer op = Some (Ed25519PublicKey k (Some w)) → (0 ≤ w)%Z →
     thresholds (applyAll (setAccountOptions url op tx) s) = thresholds s)
  ∧ ((∀ k w, signer op = Some (Ed25519PublicKey k (Some w)) → (w < 0)%Z) →
     thresholds (applyAll (setAccountOptions url op tx) s)
     = mkThresholds (default (low_threshold (thresholds s)) (lowThreshold op))
                    (default (med_threshold (thresholds s)) (medThreshold op))
                    (default (high_threshold (thresholds s)) (highThreshold op))).
Proof.
  split.
  - intros k w Hsigner Hw. apply applyAll_thresholds_kept.
    unfold setAccountOptions. rewrite Hsigner. simpl.
    destruct (Z.gtb_spec w 0) as [Hpos|Hnonpos].
    + destruct (Sdk.masterWeight op); repeat constructor.
    + replace (w =? 0)%Z with true by (symmetry; apply Z.eqb_eq; lia).
      destruct (Sdk.masterWeight op); repeat constructor.
  - intros Hnone.
    assert (Hfirst :
      match ed25519WithWeight (signer op) with
      | Some (k, w) =>
          if (w >? 0)%Z then [addSigner url op k w tx]
          else if (w =? 0)%Z then [removeSigner url op k tx]
          else if bool_decide (lowThreshold op ≠ None)
                  || bool_decide (medThreshold op ≠ None)
                  || bool_decide (highThreshold op ≠ None)
               then [setThresholds url op tx] else []
      | None =>
          if bool_decide (lowThreshold op ≠ None)
             || bool_decide (medThreshold op ≠ None)
             || bool_decide (highThreshold op ≠ None)
          then [setThresholds url op tx] else []
      end
      = if bool_decide (lowThreshold op ≠ None)
           || bool_decide (medThreshold op ≠ None)
           || bool_decide (highThreshold op ≠ None)
        then [setThresholds url op tx] else []).
    { destruct (signer op) as [[k [w|]|? ?|? ?]|]; simpl; try done.
      specialize (Hnone k w eq_refl).
      destruct (Z.gtb_spec w 0); [lia|]. destruct (Z.eqb_spec w 0); [lia|done]. }
    unfold setAccountOptions. rewrite Hfirst.
    assert (Hshown :
      thresholds (applyAll (if bool_decide (lowThreshold op ≠ None)
                               || bool_decide (medThreshold op ≠ None)
                               || bool_decide (highThreshold op ≠ None)
                            then [setThresholds url op tx] else []) s)
      = mkThresholds (default (low_threshold (thresholds s)) (lowThreshold op))
                     (default (med_threshold (thresholds s)) (medThreshold op))
                     (default (high_threshold (thresholds s)) (highThreshold op))).
    { destruct (lowThreshold op) as [lo|] eqn:Hlo, (medThreshold op) as [me|] eqn:Hme,
        (highThreshold op) as [hi|] eqn:Hhi; simpl;
        unfold setThresholds; simpl; rewrite ?Hlo, ?Hme, ?Hhi;
        by destruct (thresholds s). }
    destruct (Sdk.masterWeight op) as [mw|]; [|done].
    rewrite applyAll_app. simpl. exact Hshown.
Qed.

Lemma setAccountOptions_frame url op tx u :
  u ∈ setAccountOptions url op tx →
  effectsAccountID u = JS.orElse (so_source op) (source tx)
  ∧ ∀ s, balances (apply u s) = balances s
         ∧ account_id (apply u s) = account_id s
         ∧ sequence (apply u s) = sequence s
         ∧ subentry_count (apply u s) = subentry_count s
         ∧ home_domain (apply u s) = home_domain s.
Proof.
  intros Hin. apply setAccountOptions_cases in Hin
    as [(k & w & ->)|[(k & ->)|[->|(w & ->)]]]; done.
Qed.

Lemma changeTrust_frame url op tx u :
  u ∈ changeTrust url op tx →
  effectsAccountID u = JS.orElse (ct_source op) (source tx)
  ∧ ∀ s, signers (apply u s) = signers s
         ∧ thresholds (apply u s) = thresholds s
         ∧ account_id (apply u s) = account_id s
         ∧ sequence (apply u s) = sequence s
         ∧ subentry_count (apply u s) = subentry_count s
         ∧ home_domain (apply u s) = home_domain s.
Proof.
  unfold changeTrust. intros Hin.
  destruct (limitEqZero _); by apply list_elem_of_singleton in Hin as ->.
Qed.

(** X10.  What the overlays never touch.  Every overlay of a set-options
    operation is filed under the operation's source account, or the
    transaction's when the operation has none, and leaves balances,
    account id, sequence number, sub-entry count and home domain as they
    are; every overlay of a change-trust operation is filed likewise and
    leaves signers, thresholds, account id, sequence number, sub-entry
    count and home domain as they are. *)
Theorem overlays_leave_the_rest (url : string) (tx : Transaction) :
  (∀ op u, u ∈ setAccountOptions url op tx →
     effectsAccountID u = JS.orElse (so_source op) (source tx)
     ∧ ∀ s, balances (apply u s) = balances s
            ∧ account_id (apply u s) = account_id s
            ∧ sequence (apply u s) = sequence s
            ∧ subentry_count (apply u s) = subentry_count s
            ∧ home_domain (apply u s) = home_domain s)
  ∧ (∀ op u, u ∈ changeTrust url op tx →
     effectsAccountID u = JS.orElse (ct_source op) (source tx)
     ∧ ∀ s, signers (apply u s) = signers s
            ∧ thresholds (apply u s) = thresholds s
            ∧ account_id (apply u s) = account_id s
            ∧ sequence (apply u s) = sequence s
            ∧ subentry_count (apply u s) = subentry_count s
            ∧ home_domain (apply u s) = home_domain s).
Proof.
  split; intros op u Hin.
  - by apply (setAccountOptions_frame url op tx).
  - by apply (changeTrust_frame url op tx).
Qed.







Lemma filter_kept_no_trustline op (bs : list BalanceLine) :
  existsb (isTrustlineOf op) (List.filter (keptByRemoveTrustline op) bs) = false.
Proof.
  apply not_true_is_false. intros Hhas.
  apply existsb_isTrustlineOf in Hhas as (b & Hin & Hb).
  apply list_elem_of_In, List.filter_In in Hin as [_ Hkept].
  assert (keptByRemoveTrustline op b = false) by (apply keptByRemoveTrustline_false; by left).
  congruence.
Qed.


End TranslatorFacts.

Section TranslatorRuns.
Import Ledger Sdk Frontier SetOptions ChangeTrust Overlay Scenario.


End TranslatorRuns.

(* ===================================================================== *)
(** * Facts about asset identifiers and the balance lookup               *)
(* ===================================================================== *)

Section BalanceLookupFacts.
Import Ledger Sdk Frontier Network Http Index Fetches ChangeTrust Assets.
Context `{Packages}.
Variable handleManageOffer :
  string → string → Transaction → list (OptimisticUpdate (list OfferRecord)).
Variable parseAccount : Response → Error + AccountResponse.

Lemma findMatchingBalanceLine_find op asset (bs : list BalanceLine) :
  line op = LineAsset asset →
  Forall (λ b, notPoolShares b = true) bs →
  findMatchingBalanceLine bs asset = Returned (List.find (isTrustlineOf op) bs).
Proof.
  intros Hline. induction 1 as [|b bs Hb _ IH]; simpl; [done|].
  unfold isTrustlineOf at 1. rewrite Hline.
  destruct b as [n|c|shares]; simpl in *; try done.
  - destruct (Asset_equals _ asset); [done|apply IH].
  - destruct (Asset_equals _ asset); [done|apply IH].
Qed.

Lemma find_none_existsb {A} (p : A → bool) (xs : list A) :
  existsb p xs = false → List.find p xs = None.
Proof.
  induction xs as [|x xs IH]; simpl; [done|].
  destruct (p x); simpl; [done|apply IH].
Qed.

Lemma find_some_existsb {A} (p : A → bool) (xs : list A) :
  existsb p xs = true → ∃ x, List.find p xs = Some x ∧ p x = true.
Proof.
  induction xs as [|x xs IH]; simpl; [done|].
  destruct (p x) eqn:Hp; simpl; [eauto|apply IH].
Qed.

Lemma find_app_none {A} (p : A → bool) (xs ys : list A) :
  existsb p xs = false → List.find p (xs ++ ys) = List.find p ys.
Proof.
  induction xs as [|x xs IH]; simpl; [done|].
  destruct (p x); simpl; [done|apply IH].
Qed.

Lemma Forall_filter_self {A} (p : A → bool) (xs : list A) :
  Forall (λ x, p x = true) (List.filter p xs).
Proof.
  apply Forall_forall. intros x Hx. by apply list_elem_of_In, List.filter_In in Hx as [_ ?].
Qed.

Lemma Forall_filter_keeps {A} (P : A → Prop) (q : A → bool) (xs : list A) :
  Forall P xs → Forall P (List.filter q xs).
Proof.
  rewrite !Forall_forall. intros HP x Hx.
  apply list_elem_of_In, List.filter_In in Hx as [Hx _]. by apply HP, list_elem_of_In.
Qed.

(** X13.  Looking a balance up after a change of trust.  Let no overlay
    wait for an account at an endpoint, and let the endpoint accept a
    transaction whose one operation, of that account, changes the trust
    in an asset.  Then [findMatchingBalanceLine] on the account fetched
    from that endpoint returns without throwing: it finds no entry when
    the limit was zero, and with another limit it finds an entry of that
    asset, which is the fresh entry of the operation when the endpoint
    reported none. *)
Theorem balance_lookup_after_change_of_trust (url : string) (tx : Transaction)
    (op : Sdk.ChangeTrust) (asset : Asset) (accepted response : Response)
    (reported : AccountResponse) (l : Ledgers) :
  operations tx = [OpChangeTrust op] →
  line op = LineAsset asset →
  status accepted = 200%Z →
  status response ≠ 404%Z →
  parseAccount response = inr reported →
  account_id reported = JS.orElse (ct_source op) (source tx) →
  getUpdates url (account_id reported) (accountDataUpdates l) = [] →
  ∃ shown,
    fetchAccountData parseAccount url response
      (submitTransaction handleManageOffer url tx accepted l) = inr (Some shown)
    ∧ (limitEqZero (Sdk.limit op) = true →
       findMatchingBalanceLine (balances shown) asset = Returned None)
    ∧ (limitEqZero (Sdk.limit op) = false →
       ∃ b, findMatchingBalanceLine (balances shown) asset = Returned (Some b)
            ∧ isEntryFor (LineAsset asset) b
            ∧ ((∀ b', b' ∈ balances reported → ¬ isEntryFor (LineAsset asset) b') →
               b = newBalance op)).
Proof.
  intros Hops Hline Haccepted Hstatus Hparse Hid Hnone.
  unfold fetchAccountData, submitTransaction.
  apply Z.eqb_neq in Hstatus. rewrite Hstatus, Hparse, Haccepted. simpl.
  eexists. split; [reflexivity|].
  unfold Overlay.optimisticallyUpdateAccountData. simpl.
  rewrite handleSubmittedTransaction_account_ledger.
  rewrite getUpdates_addUpdates_by_key, Hnone.
  unfold accountOverlaysOf. rewrite Hops. simpl.
  unfold changeTrust.
  pose proof (Forall_filter_self notPoolShares (balances reported)) as Hclean.
  set (bs := List.filter notPoolShares (balances reported)) in *.
  split; intros Hlimit; rewrite Hlimit; simpl;
    (rewrite bool_decide_eq_true_2
       by (unfold createAccountCacheKey; simpl; by rewrite Hid)); simpl.
  - rewrite (findMatchingBalanceLine_find op) by (done || by apply Forall_filter_keeps).
    by rewrite find_none_existsb by apply filter_kept_no_trustline.
  - destruct (existsb (isTrustlineOf op) bs) eqn:Hhas.
    + rewrite (findMatchingBalanceLine_find op) by done.
      destruct (find_some_existsb _ _ Hhas) as (b & Hfind & Hb).
      exists b. rewrite Hfind. split; [done|].
      apply isTrustlineOf_true in Hb. rewrite Hline in Hb. split; [done|].
      intros Habsent. exfalso.
      apply existsb_isTrustlineOf in Hhas as (b' & Hin & Hb').
      apply list_elem_of_In, List.filter_In in Hin as [Hin _].
      rewrite Hline in Hb'. apply (Habsent b'); [by apply list_elem_of_In | exact Hb'].
    + exists (newBalance op).
      assert (Hnew : notPoolShares (newBalance op) = true)
        by (unfold newBalance; by rewrite Hline).
      rewrite (findMatchingBalanceLine_find op)
        by (done || (apply Forall_app; split; [done|by constructor])).
      rewrite find_app_none by done. simpl. rewrite newBalance_isTrustline.
      split; [done|]. split; [|done].
      assert (Hentry : isEntryFor (LineAsset asset) (newBalance op))
        by (rewrite <- Hline; apply isTrustlineOf_true, newBalance_isTrustline).
      exact Hentry.
Qed.

End BalanceLookupFacts.

Section AssetIdentifierFacts.
Import Sdk Frontier Network Assets.
Context `{Packages}.

Lemma splitOnColon_nonempty text : splitOnColon text ≠ [].
Proof. destruct text as [|c rest]; simpl; [done|]. by destruct (Ascii.eqb c ":"), (splitOnColon rest). Qed.

Lemma splitOnColon_noColon text : noColon text = true → splitOnColon text = [text].
Proof.
  induction text as [|c rest IH]; simpl; [done|].
  intros [Hc Hrest]%andb_true_iff. apply negb_true_iff in Hc. by rewrite Hc, IH.
Qed.

Lemma splitOnColon_app first rest :
  noColon first = true →
  splitOnColon (first +:+ ":" +:+ rest) = first :: splitOnColon rest.
Proof.
  induction first as [|c first IH]; simpl; [done|].
  intros [Hc Hfirst]%andb_true_iff. apply negb_true_iff in Hc.
  rewrite Hc. by rewrite IH.
Qed.

Lemma append_colon_not_XDB a b : String.eqb (a +:+ ":" +:+ b) "XDB" = false.
Proof.
  apply String.eqb_neq.
  destruct a as [|c1 [|c2 [|c3 [|c4 a]]]]; simpl; discriminate.
Qed.

(** X14.  [parseAssetID] undoes [stringifyAsset]: the native asset, and
    every asset with an issuer whose issuer and code hold no colon and
    are accepted by the constructor, is parsed back from its identifier,
    and from the identifier of each of its balance entries that names an
    issuer. *)
Theorem parseAssetID_stringifyAsset (asset : Asset) :
  asset = Asset_native
  ∨ (∃ i, issuer asset = Some i ∧ i ≠ "" ∧ noColon i = true
          ∧ noColon (code asset) = true ∧ assetArgsAccepted (code asset) i = true) →
  parseAssetID (stringifyAsset (inl asset)) = Returned asset
  ∧ ∀ line, ChangeTrust.balancelineToAsset line = Some asset →
            (∀ c, line = LineCredit c → asset_issuer c ≠ None) →
            parseAssetID (stringifyAsset (inr line)) = Returned asset.
Proof.
  intros Hasset.
  assert (Hround : parseAssetID (stringifyAsset (inl asset)) = Returned asset).
  { destruct Hasset as [->|(i & Hissuer & Hi & Hnoi & Hnoc & Hok)]; [done|].
    assert (Hnative : Asset_isNative asset = false).
    { unfold Asset_isNative. rewrite Hissuer. by apply String.eqb_neq. }
    simpl. rewrite Hnative, Hissuer. simpl. unfold parseAssetID.
    rewrite append_colon_not_XDB, splitOnColon_app, splitOnColon_noColon by done.
    rewrite Hok. destruct asset as [c iss]; simpl in *. by subst. }
  split; [done|].
  intros [n|c|shares] Hline Hnamed; simpl in Hline; try done.
  - injection Hline as <-. done.
  - injection Hline as <-. rewrite <- Hround. f_equal. simpl.
    destruct (asset_issuer c) as [i|] eqn:Hi; [|by destruct (Hnamed c eq_refl)].
    unfold Asset_isNative, Asset_new; simpl.
    destruct Hasset as [Hnat|(i' & Hissuer & Hne & _)]; [discriminate|].
    simpl in Hissuer. injection Hissuer as ->. by apply String.eqb_neq in Hne as ->.
Qed.

End AssetIdentifierFacts.

Section AssetIdentifierRuns.
Import Sdk Frontier Network Assets.

Lemma parseAssetID_stringifyAsset_witness :
  parseAssetID (H := Sample.packages) (stringifyAsset (inl Sample.assetFOO))
    = Returned Sample.assetFOO
  ∧ ∀ line, ChangeTrust.balancelineToAsset line = Some Sample.assetFOO →
            (∀ c, line = LineCredit c → asset_issuer c ≠ None) →
            parseAssetID (H := Sample.packages) (stringifyAsset (inr line))
            = Returned Sample.assetFOO.
Proof.
  apply (parseAssetID_stringifyAsset (H := Sample.packages) Sample.assetFOO).
  right. exists Sample.issuerI. vm_compute. repeat split; discriminate.
Defined.

End AssetIdentifierRuns.

Section BalanceLookupRuns.
Import Ledger Sdk Frontier Network Http Index Fetches ChangeTrust Assets Scenario.

Lemma balance_lookup_after_change_of_trust_witness :
  ∃ shown,
    fetchAccountData parseReported Sample.frontier answered
      (submitTransaction (H := Sample.packages) noOffers Sample.frontier Sample.tx1
         accepted newLedgers) = inr (Some shown)
    ∧ (limitEqZero (Packages := Sample.packages) (Sdk.limit Sample.trustFOO) = true →
       findMatchingBalanceLine (balances shown) Sample.assetFOO = Returned None)
    ∧ (limitEqZero (Packages := Sample.packages) (Sdk.limit Sample.trustFOO) = false →
       ∃ b, findMatchingBalanceLine (balances shown) Sample.assetFOO = Returned (Some b)
            ∧ isEntryFor (H := Sample.packages) (LineAsset Sample.assetFOO) b
            ∧ ((∀ b', b' ∈ balances reported
                      → ¬ isEntryFor (H := Sample.packages) (LineAsset Sample.assetFOO) b') →
               b = newBalance (H := Sample.packages) Sample.trustFOO)).
Proof.
  apply (balance_lookup_after_change_of_trust (H := Sample.packages) noOffers
           parseReported Sample.frontier Sample.tx1 Sample.trustFOO Sample.assetFOO accepted
           answered reported newLedgers); try reflexivity.
  vm_compute. discriminate.
Defined.

End BalanceLookupRuns.

(* ===================================================================== *)
(** * Facts about runs of the net-worker                                 *)
(* ===================================================================== *)

Section RoundRobinFacts.
Import Network Runs.

Lemma pickURLs_spec count (urls : list string) st :
  (pickURLs count urls st).1
  = List.map (λ i, urls !! ((roundRobinIndex st + i) `mod` length urls)) (seq 0 count)
  ∧ roundRobinIndex (pickURLs count urls st).2 = roundRobinIndex st + count
  ∧ ∀ call, cacheOf call (pickURLs count urls st).2 = cacheOf call st.
Proof.
  revert st; induction count as [|n IH]; intros st; simpl.
  - split; [done|]. split; [lia|done].
  - destruct (IH (setRoundRobinIndex (roundRobinIndex st + 1) st)) as (Hurls & Hindex & Hcaches).
    destruct (pickURLs n urls _) as [picked st2]. simpl in *.
    split; [|split].
    + rewrite Nat.add_0_r. f_equal. rewrite Hurls, <- seq_shift, List.map_map.
      apply List.map_ext. intros i. do 2 f_equal. lia.
    + lia.
    + intros call. rewrite Hcaches. by destruct call.
Qed.

Lemma rotate_nat_add_mod base offset len :
  len ≠ 0 → rotate_nat_add base offset len = (base + offset) `mod` len.
Proof.
  intros Hlen. unfold rotate_nat_add.
  rewrite <- Nat2Z.inj_add, <- Nat2Z.inj_mod. apply Nat2Z.id.
Qed.

Lemma rotate_Permutation {A} n (l : list A) : rotate n l ≡ₚ l.
Proof.
  unfold rotate. rewrite Permutation_app_comm. by rewrite take_drop.
Qed.

(** X15.  The endpoints are taken in turn.  As many calls of
    [getRandomURL] in a row as the list has URLs return the list rotated by
    the round-robin index, so each URL of the list exactly once, and move
    the index on by that many; a call with a list that is not empty
    always returns one of its URLs, and a call with the empty list
    returns [undefined]. *)
Theorem getRandomURL_takes_turns (frontierURLs : list string) (st : NetState) :
  (frontierURLs ≠ [] →
     (pickURLs (length frontierURLs) frontierURLs st).1
       = Some <$> rotate (roundRobinIndex st) frontierURLs
     ∧ (pickURLs (length frontierURLs) frontierURLs st).1 ≡ₚ Some <$> frontierURLs
     ∧ roundRobinIndex (pickURLs (length frontierURLs) frontierURLs st).2
       = roundRobinIndex st + length frontierURLs
     ∧ ∃ url, (getRandomURL frontierURLs st).1 = Some url ∧ url ∈ frontierURLs)
  ∧ (frontierURLs = [] → (getRandomURL frontierURLs st).1 = None).
Proof.
  split; [|by intros ->].
  intros Hurls.
  assert (Hlen : length frontierURLs ≠ 0) by by destruct frontierURLs.
  destruct (pickURLs_spec (length frontierURLs) frontierURLs st) as (Hpicked & Hindex & _).
  assert (Hrot : (pickURLs (length frontierURLs) frontierURLs st).1
                 = Some <$> rotate (roundRobinIndex st) frontierURLs).
  { rewrite Hpicked. apply list_eq. intros i.
    rewrite !list_lookup_fmap.
    destruct (decide (i < length frontierURLs)) as [Hi|Hi].
    - rewrite lookup_rotate_r by done. rewrite rotate_nat_add_mod by done.
      rewrite lookup_seq_lt by done. simpl.
      destruct (lookup_lt_is_Some_2 frontierURLs
                  ((roundRobinIndex st + i) `mod` length frontierURLs)) as [url Hurl].
      { by apply Nat.mod_upper_bound. }
      by rewrite Hurl.
    - rewrite (lookup_ge_None_2 (rotate _ _)) by (rewrite length_rotate; lia).
      rewrite (lookup_ge_None_2 (seq _ _)) by (rewrite length_seq; lia). done. }
  split; [done|]. split; [by rewrite Hrot, rotate_Permutation|]. split; [done|].
  simpl.
  destruct (lookup_lt_is_Some_2 frontierURLs
              (roundRobinIndex st `mod` length frontierURLs)) as [url Hurl].
  { by apply Nat.mod_upper_bound. }
  exists url. split; [done|]. by eapply list_elem_of_lookup_2.
Qed.

End RoundRobinFacts.

Section QueueFacts.
Import Sdk Network Runs.
Context `{Packages}.

Lemma queuesKept_refl st : queuesKept st st.
Proof. by split. Qed.

Lemma queuesKept_trans st1 st2 st3 :
  queuesKept st1 st2 → queuesKept st2 st3 → queuesKept st1 st3.
Proof. intros [K1 C1] [K2 C2]. split; [|tauto]. intros url q Hq. by apply K2, K1. Qed.

Lemma queuesKept_same st st' :
  fetchQueuesByFrontier st' = fetchQueuesByFrontier st → queuesKept st st'.
Proof.
  intros Hsame. split.
  - intros url q. by rewrite Hsame.
  - intros Hconf url q. rewrite Hsame. apply Hconf.
Qed.

Lemma getRandomURL_queuesKept urls st : queuesKept st (getRandomURL urls st).2.
Proof. by apply queuesKept_same. Qed.

Lemma getFetchQueue_queuesKept url st : queuesKept st (getFetchQueue url st).2.
Proof.
  unfold getFetchQueue.
  destruct (fetchQueuesByFrontier st !! url) as [q|] eqn:Hq; simpl.
  - apply queuesKept_refl.
  - split.
    + intros url' q' Hq'. simpl. rewrite lookup_insert_ne; [done|]. congruence.
    + intros Hconf url' q'. simpl. rewrite lookup_insert. case_decide.
      * by intros [= <-].
      * apply Hconf.
Qed.

Lemma subscribeToUpdatesAndPoll_queuesKept watched urls url st :
  queuesKept st (subscribeToUpdatesAndPoll watched urls url st).2.
Proof. by apply queuesKept_same. Qed.

Lemma fetchAccountTransactions_queuesKept urls id st :
  queuesKept st (fetchAccountTransactions urls id st).2.
Proof.
  unfold fetchAccountTransactions.
  destruct (getRandomURL urls st) as [url st1] eqn:H1.
  destruct (getFetchQueue url st1) as [q st2] eqn:H2.
  assert (Hkept : queuesKept st st2).
  { eapply queuesKept_trans.
    - pose proof (getRandomURL_queuesKept urls st) as Hk. by rewrite H1 in Hk.
    - pose proof (getFetchQueue_queuesKept url st1) as Hk. by rewrite H2 in Hk. }
  destruct url as [endpoint|]; simpl; [|done].
  eapply queuesKept_trans; [exact Hkept | by apply queuesKept_same].
Qed.

Lemma cachify_queuesKept {Args} get set
    (sub : Args → NetState → Outcome Observable * NetState) key args st :
  (∀ m st0, fetchQueuesByFrontier (set m st0) = fetchQueuesByFrontier st0) →
  (∀ args0 st0, queuesKept st0 (sub args0 st0).2) →
  queuesKept st (cachify get set sub key args st).2.
Proof.
  intros Hset Hsub. unfold cachify.
  destruct (get st !! key args); [apply queuesKept_refl|].
  pose proof (Hsub args st) as Hkept.
  destruct (sub args st) as [[o|e] st']; simpl in *; [|done].
  eapply queuesKept_trans; [exact Hkept | by apply queuesKept_same].
Qed.

Lemma subscribeToAccountEffectsUncached_queuesKept args st :
  queuesKept st (subscribeToAccountEffectsUncached args st).2.
Proof.
  destruct args as [urls id]. unfold subscribeToAccountEffectsUncached.
  destruct (getRandomURL urls st) as [url st1] eqn:H1.
  destruct (getFetchQueue url st1) as [q st2] eqn:H2.
  destruct (subscribeToUpdatesAndPoll _ _ _ st2) as [o st3] eqn:H3. simpl.
  pose proof (getRandomURL_queuesKept urls st) as K1. rewrite H1 in K1.
  pose proof (getFetchQueue_queuesKept url st1) as K2. rewrite H2 in K2.
  pose proof (subscribeToUpdatesAndPoll_queuesKept (EffectsOf id) urls url st2) as K3.
  rewrite H3 in K3. simpl in *.
  by repeat (eapply queuesKept_trans; [eassumption|]).
Qed.

Lemma subscribeToAccountEffects_queuesKept args st :
  queuesKept st (subscribeToAccountEffects args st).2.
Proof.
  apply cachify_queuesKept; [done|]. apply subscribeToAccountEffectsUncached_queuesKept.
Qed.

Lemma subscribeToAccountUncached_queuesKept args st :
  queuesKept st (subscribeToAccountUncached args st).2.
Proof. destruct args as [urls id]. by apply queuesKept_same. Qed.

Lemma subscribeToOpenOrdersUncached_queuesKept args st :
  queuesKept st (subscribeToOpenOrdersUncached args st).2.
Proof. destruct args as [urls id]. by apply queuesKept_same. Qed.

Lemma subscribeToOrderbookUncached_queuesKept args st :
  queuesKept st (subscribeToOrderbookUncached args st).2.
Proof.
  destruct args as [[urls a] b]. unfold subscribeToOrderbookUncached.
  destruct (parseAssetID b) as [buying|e]; [|apply queuesKept_refl].
  destruct (parseAssetID a) as [selling|e]; [|apply queuesKept_refl].
  destruct (Asset_equals selling buying); [by apply queuesKept_same|].
  destruct (getRandomURL urls st) as [url st1] eqn:H1.
  destruct (getFetchQueue url st1) as [q st2] eqn:H2.
  destruct (subscribeToUpdatesAndPoll _ _ _ st2) as [o st3] eqn:H3. simpl.
  pose proof (getRandomURL_queuesKept urls st) as K1. rewrite H1 in K1.
  pose proof (getFetchQueue_queuesKept url st1) as K2. rewrite H2 in K2.
  pose proof (subscribeToUpdatesAndPoll_queuesKept (OrderbookOf a b) urls url st2) as K3.
  rewrite H3 in K3. simpl in *.
  by repeat (eapply queuesKept_trans; [eassumption|]).
Qed.

Lemma subscribeToAccountTransactionsUncached_queuesKept args st :
  queuesKept st (subscribeToAccountTransactionsUncached args st).2.
Proof.
  destruct args as [urls id]. unfold subscribeToAccountTransactionsUncached.
  pose proof (fetchAccountTransactions_queuesKept urls id st) as K1.
  destruct (fetchAccountTransactions urls id st) as [r st1].
  pose proof (subscribeToAccountEffects_queuesKept (urls, id) st1) as K2.
  destruct (subscribeToAccountEffects (urls, id) st1) as [[effects|e] st2]; simpl in *.
  - eapply queuesKept_trans; [exact K1|]. eapply queuesKept_trans; [exact K2|].
    by apply queuesKept_same.
  - by eapply queuesKept_trans.
Qed.

Lemma subscribe_queuesKept call st : queuesKept st (subscribe call st).2.
Proof.
  destruct call as [urls id|urls id|urls id|urls a b|urls id]; simpl.
  - apply cachify_queuesKept; [done|]. apply subscribeToAccountUncached_queuesKept.
  - apply subscribeToAccountEffects_queuesKept.
  - apply cachify_queuesKept; [done|]. apply subscribeToOpenOrdersUncached_queuesKept.
  - apply cachify_queuesKept; [done|]. apply subscribeToOrderbookUncached_queuesKept.
  - apply cachify_queuesKept; [done|].
    apply subscribeToAccountTransactionsUncached_queuesKept.
Qed.

Lemma fetchOrderbookRecord_queuesKept urls a b st :
  queuesKept st (fetchOrderbookRecord urls a b st).2.
Proof.
  unfold fetchOrderbookRecord.
  destruct (String.eqb b a).
  { destruct (parseAssetID b); apply queuesKept_refl. }
  destruct (getRandomURL urls st) as [url st1] eqn:H1.
  destruct (getFetchQueue url st1) as [q st2] eqn:H2.
  assert (Hkept : queuesKept st st2).
  { eapply queuesKept_trans.
    - pose proof (getRandomURL_queuesKept urls st) as Hk. by rewrite H1 in Hk.
    - pose proof (getFetchQueue_queuesKept url st1) as Hk. by rewrite H2 in Hk. }
  destruct (parseAssetID a); [|done].
  destruct (parseAssetID b); [|done].
  destruct url as [endpoint|]; simpl; [|done].
  eapply queuesKept_trans; [exact Hkept | by apply queuesKept_same].
Qed.

Lemma perform_queuesKept action st : queuesKept st (perform action st).
Proof.
  destruct action as [call| |urls a b|urls id]; simpl.
  - apply subscribe_queuesKept.
  - by apply queuesKept_same.
  - apply fetchOrderbookRecord_queuesKept.
  - apply fetchAccountTransactions_queuesKept.
Qed.

Lemma run_queuesKept actions st : queuesKept st (run actions st).
Proof.
  unfold run. revert st; induction actions as [|a actions IH]; intros st; simpl.
  - apply queuesKept_refl.
  - eapply queuesKept_trans; [apply perform_queuesKept | apply IH].
Qed.

(** X16.  The fetch queue of an endpoint outlives everything: through any
    run of subscriptions, fetches and resets of all subscriptions, a
    queue once built for an endpoint remains the queue that
    [getFetchQueue] returns for it, no new queue is built for that
    endpoint, and every queue on record keeps the options queues are
    built with. *)
Theorem fetch_queue_outlives_resets (actions : list Action) (url : option string)
    (st : NetState) :
  queuesConfigured st →
  let '(queue, st1) := getFetchQueue url st in
  let st2 := run actions st1 in
  getFetchQueue url st2 = (queue, st2)
  ∧ queuesConfigured st2
  ∧ concurrency queue = 4%Z ∧ interval queue = 1000%Z ∧ intervalCap queue = 4%Z
  ∧ timeout queue = 10000%Z ∧ throwOnTimeout queue = true.
Proof.
  intros Hconf.
  destruct (getFetchQueue_one_queue_per_url url st Hconf)
    as (Hconf1 & Hrecorded & _ & Hoptions).
  destruct (getFetchQueue url st) as [queue st1]. simpl in *.
  destruct (run_queuesKept actions st1) as [Hkept Hconf2].
  split; [|split; [by apply Hconf2 | exact Hoptions]].
  unfold getFetchQueue. by rewrite (Hkept url queue Hrecorded).
Qed.

End QueueFacts.

Section QueueRuns.
Import Sdk Network Runs.

Lemma fetch_queue_outlives_resets_witness :
  let '(queue, st1) := getFetchQueue (Some Sample.frontier) initialState in
  let st2 :=
    run (H := Sample.packages)
        [Subscribe (ToAccountEffects [Sample.frontier; "https://frontier2.example"]
                                     Sample.accountA);
         ResetAllSubscriptions;
         FetchOrderbookRecord ["https://frontier2.example"] "XDB" "GISSUER:FOO"]
        st1 in
  getFetchQueue (Some Sample.frontier) st2 = (queue, st2)
  ∧ queuesConfigured st2
  ∧ concurrency queue = 4%Z ∧ interval queue = 1000%Z ∧ intervalCap queue = 4%Z
  ∧ timeout queue = 10000%Z ∧ throwOnTimeout queue = true.
Proof.
  apply (fetch_queue_outlives_resets (H := Sample.packages)
           [Subscribe (ToAccountEffects [Sample.frontier; "https://frontier2.example"]
                                        Sample.accountA);
            ResetAllSubscriptions;
            FetchOrderbookRecord ["https://frontier2.example"] "XDB" "GISSUER:FOO"]
           (Some Sample.frontier) initialState).
  intros url q Hq. vm_compute in Hq. discriminate.
Defined.

End QueueRuns.

Section SharingFacts.
Import Sdk Network Runs.
Context `{Packages}.

Lemma sameFunction_refl call : sameFunction call call = true.
Proof. by destruct call. Qed.

Lemma sameFunction_via rep a b :
  sameFunction rep a = true → sameFunction rep b = true → sameFunction a b = true.
Proof. by destruct rep, a, b. Qed.

Lemma sameFunction_other rep a b :
  sameFunction rep a = true → sameFunction rep b = false → sameFunction a b = false.
Proof. by destruct rep, a, b. Qed.

Lemma sameFunction_sym a b : sameFunction a b = sameFunction b a.
Proof. by destruct a, b. Qed.

(** Steps that leave the five caches alone keep both invariants. *)
Lemma apart_same_caches st st' :
  (∀ call, cacheOf call st' = cacheOf call st) →
  nextObject st ≤ nextObject st' →
  handlesAllocated st ∧ handlesApart st →
  handlesAllocated st' ∧ handlesApart st'.
Proof.
  intros Hsame Hnext [Halloc Hapart]. split.
  - intros call key h. rewrite Hsame. intros Hh. specialize (Halloc call key h Hh). lia.
  - intros c1 k1 h1 c2 k2 h2. rewrite !Hsame. apply Hapart.
Qed.

(** A function that builds a handle newer than every cached one. *)
Lemma cachify_apart {Args} rep get set
    (sub : Args → NetState → Outcome Observable * NetState) key args st :
  lensOf rep get set →
  (∀ args0 st0, handlesAllocated st0 ∧ handlesApart st0 →
     (handlesAllocated (sub args0 st0).2 ∧ handlesApart (sub args0 st0).2)
     ∧ ∀ h, (sub args0 st0).1 = Returned h → aboveCached h (sub args0 st0).2) →
  handlesAllocated st ∧ handlesApart st →
  handlesAllocated (cachify get set sub key args st).2
  ∧ handlesApart (cachify get set sub key args st).2.
Proof.
  intros [Hget Hset] Hsub Hinv. unfold cachify.
  destruct (get st !! key args) as [cached|]; [done|].
  destruct (Hsub args st Hinv) as [[Halloc Hapart] Hnew].
  destruct (sub args st) as [[o|e] st'] eqn:Hres; simpl in *; [|done].
  destruct (Hnew o eq_refl) as [Habove Hbelow].
  destruct (Hset (<[key args:=o]> (get st')) st') as [Hn Hc].
  assert (Hentry : ∀ call k h,
    cacheOf call (set (<[key args:=o]> (get st')) st') !! k = Some h →
    (sameFunction rep call = true ∧ k = key args ∧ h = o)
    ∨ (cacheOf call st' !! k = Some h ∧ obs_id h < obs_id o)).
  { intros call k h. rewrite Hc.
    destruct (sameFunction rep call) eqn:Hsame.
    - rewrite lookup_insert. case_decide as Hk.
      + intros [= <-]. left. by subst.
      + rewrite Hget, (sameFunction_cacheOf _ _ _ Hsame). intros Hh.
        right. split; [done|]. by eapply Habove.
    - intros Hh. right. split; [done|]. by eapply Habove. }
  split.
  - intros call k h Hh. rewrite Hn.
    destruct (Hentry call k h Hh) as [(_ & _ & ->)|[Hold _]]; [done|].
    by eapply Halloc.
  - intros c1 k1 h1 c2 k2 h2 H1 H2 Hid.
    destruct (Hentry c1 k1 h1 H1) as [(S1 & -> & ->)|[O1 L1]],
             (Hentry c2 k2 h2 H2) as [(S2 & -> & ->)|[O2 L2]].
    + split; [by eapply sameFunction_via|done].
    + lia.
    + lia.
    + by eapply Hapart.
Qed.

(** The four functions that build one stream and cache nothing. *)
Lemma fresh_above st st' h :
  (∀ call, cacheOf call st' = cacheOf call st) →
  nextObject st ≤ obs_id h < nextObject st' →
  handlesAllocated st ∧ handlesApart st →
  (handlesAllocated st' ∧ handlesApart st') ∧ aboveCached h st'.
Proof.
  intros Hsame Hfresh Hinv. split.
  - apply (apart_same_caches st st'); [done|lia|done].
  - split; [|lia]. intros call k h'. rewrite Hsame. intros Hh.
    destruct Hinv as [Halloc _]. specialize (Halloc call k h' Hh). lia.
Qed.

Lemma getFetchQueue_caches url st call :
  cacheOf call (getFetchQueue url st).2 = cacheOf call st.
Proof. unfold getFetchQueue. destruct (fetchQueuesByFrontier st !! url); by destruct call. Qed.

Lemma getFetchQueue_next url st : nextObject st ≤ nextObject (getFetchQueue url st).2.
Proof.
  unfold getFetchQueue. destruct (fetchQueuesByFrontier st !! url); simpl; lia.
Qed.

Lemma subscribeToAccountEffectsUncached_caches args st call :
  cacheOf call (subscribeToAccountEffectsUncached args st).2 = cacheOf call st.
Proof.
  destruct args as [urls id]. unfold subscribeToAccountEffectsUncached. simpl.
  pose proof (getFetchQueue_caches (urls !! (roundRobinIndex st `mod` length urls))
                (setRoundRobinIndex (roundRobinIndex st + 1) st) call) as Hq.
  destruct (getFetchQueue _ _) as [q st2]. simpl in *. by destruct call.
Qed.

Lemma subscribeToAccountUncached_caches args st call :
  cacheOf call (subscribeToAccountUncached args st).2 = cacheOf call st.
Proof. destruct args as [urls id]. by destruct call. Qed.

Lemma subscribeToOpenOrdersUncached_caches args st call :
  cacheOf call (subscribeToOpenOrdersUncached args st).2 = cacheOf call st.
Proof. destruct args as [urls id]. by destruct call. Qed.

Lemma subscribeToOrderbookUncached_caches args st call :
  cacheOf call (subscribeToOrderbookUncached args st).2 = cacheOf call st.
Proof.
  destruct args as [[urls a] b]. unfold subscribeToOrderbookUncached.
  destruct (parseAssetID b) as [buying|e]; [|done].
  destruct (parseAssetID a) as [selling|e]; [|done].
  destruct (Asset_equals selling buying); [by destruct call|]. simpl.
  pose proof (getFetchQueue_caches (urls !! (roundRobinIndex st `mod` length urls))
                (setRoundRobinIndex (roundRobinIndex st + 1) st) call) as Hq.
  destruct (getFetchQueue _ _) as [q st2]. simpl in *. by destruct call.
Qed.

Lemma fetchAccountTransactions_caches urls id st call :
  cacheOf call (fetchAccountTransactions urls id st).2 = cacheOf call st.
Proof.
  unfold fetchAccountTransactions. simpl.
  pose proof (getFetchQueue_caches (urls !! (roundRobinIndex st `mod` length urls))
                (setRoundRobinIndex (roundRobinIndex st + 1) st) call) as Hq.
  destruct (getFetchQueue _ _) as [q st2]. simpl in *.
  destruct (urls !! _); by destruct call.
Qed.

Lemma fetchOrderbookRecord_caches urls a b st call :
  cacheOf call (fetchOrderbookRecord urls a b st).2 = cacheOf call st.
Proof.
  unfold fetchOrderbookRecord.
  destruct (String.eqb b a); [by destruct (parseAssetID b)|]. simpl.
  pose proof (getFetchQueue_caches (urls !! (roundRobinIndex st `mod` length urls))
                (setRoundRobinIndex (roundRobinIndex st + 1) st) call) as Hq.
  destruct (getFetchQueue _ _) as [q st2]. simpl in *.
  destruct (parseAssetID a); [|by destruct call].
  destruct (parseAssetID b); [|by destruct call].
  destruct (urls !! _); by destruct call.
Qed.

Lemma fetchOrderbookRecord_next urls a b st :
  nextObject st ≤ nextObject (fetchOrderbookRecord urls a b st).2.
Proof.
  unfold fetchOrderbookRecord.
  destruct (String.eqb b a); [by destruct (parseAssetID b)|]. simpl.
  pose proof (getFetchQueue_next (urls !! (roundRobinIndex st `mod` length urls))
                (setRoundRobinIndex (roundRobinIndex st + 1) st)) as Hq.
  destruct (getFetchQueue _ _) as [q st2]. simpl in *.
  destruct (parseAssetID a); [|done].
  destruct (parseAssetID b); [|done].
  by destruct (urls !! _).
Qed.

Lemma builds_above {Args} (sub : Args → NetState → Outcome Observable * NetState) :
  buildsFreshHandle sub →
  (∀ args st call, cacheOf call (sub args st).2 = cacheOf call st) →
  ∀ args st, handlesAllocated st ∧ handlesApart st →
    (handlesAllocated (sub args st).2 ∧ handlesApart (sub args st).2)
    ∧ ∀ h, (sub args st).1 = Returned h → aboveCached h (sub args st).2.
Proof.
  intros Hbuilds Hcaches args st Hinv.
  destruct (Hbuilds args st) as [(_ & Hnext & _) Hfresh].
  split.
  - apply (apart_same_caches st); [intros call; apply Hcaches|done|done].
  - intros h Hh. apply (fresh_above st); [intros call; apply Hcaches|by apply Hfresh|done].
Qed.

Lemma subscribeToAccountEffects_apart args st :
  handlesAllocated st ∧ handlesApart st →
  handlesAllocated (subscribeToAccountEffects args st).2
  ∧ handlesApart (subscribeToAccountEffects args st).2.
Proof.
  destruct args as [urls id].
  apply (cachify_apart (ToAccountEffects urls id)); [apply lens_effects|].
  apply builds_above; [apply subscribeToAccountEffectsUncached_builds|].
  apply subscribeToAccountEffectsUncached_caches.
Qed.

Lemma subscribeToAccountTransactionsUncached_above args st :
  handlesAllocated st ∧ handlesApart st →
  (handlesAllocated (subscribeToAccountTransactionsUncached args st).2
   ∧ handlesApart (subscribeToAccountTransactionsUncached args st).2)
  ∧ ∀ h, (subscribeToAccountTransactionsUncached args st).1 = Returned h →
         aboveCached h (subscribeToAccountTransactionsUncached args st).2.
Proof.
  destruct args as [urls id]. intros Hinv.
  unfold subscribeToAccountTransactionsUncached.
  pose proof (fetchAccountTransactions_caches urls id st) as C1.
  pose proof (fetchAccountTransactions_follows urls id st) as (_ & N1 & _).
  destruct (fetchAccountTransactions urls id st) as [r st1]. simpl in *.
  assert (Hinv1 : handlesAllocated st1 ∧ handlesApart st1)
    by (apply (apart_same_caches st); done).
  pose proof (subscribeToAccountEffects_apart (urls, id) st1 Hinv1) as Hinv2.
  destruct (subscribeToAccountEffects (urls, id) st1) as [[effects|e] st2]; simpl in *;
    [|done].
  destruct (fresh_above st2 (setNextObject (S (nextObject st2)) st2)
              (mkObservable (nextObject st2) (MulticastOver (obs_id effects) id)))
    as [Hinv3 Habove]; [by intros []|simpl; lia|done|].
  split; [done|]. by intros h [= <-].
Qed.

Lemma subscribe_apart call st :
  handlesAllocated st ∧ handlesApart st →
  handlesAllocated (subscribe call st).2 ∧ handlesApart (subscribe call st).2.
Proof.
  destruct call as [urls id|urls id|urls id|urls a b|urls id]; simpl.
  - apply (cachify_apart (ToAccount urls id)); [apply lens_account|].
    apply builds_above; [apply subscribeToAccountUncached_builds|].
    apply subscribeToAccountUncached_caches.
  - apply subscribeToAccountEffects_apart.
  - apply (cachify_apart (ToOpenOrders urls id)); [apply lens_orders|].
    apply builds_above; [apply subscribeToOpenOrdersUncached_builds|].
    apply subscribeToOpenOrdersUncached_caches.
  - apply (cachify_apart (ToOrderbook urls a b)); [apply lens_orderbook|].
    apply builds_above; [apply subscribeToOrderbookUncached_builds|].
    apply subscribeToOrderbookUncached_caches.
  - apply (cachify_apart (ToAccountTransactions urls id)); [apply lens_transactions|].
    apply subscribeToAccountTransactionsUncached_above.
Qed.

Lemma perform_apart action st :
  handlesAllocated st ∧ handlesApart st →
  handlesAllocated (perform action st) ∧ handlesApart (perform action st).
Proof.
  destruct action as [call| |urls a b|urls id]; simpl.
  - apply subscribe_apart.
  - intros _. split.
    + intros call key h. by rewrite cacheOf_reset.
    + intros c1 k1 h1 c2 k2 h2. by rewrite cacheOf_reset.
  - apply apart_same_caches; [intros call; apply fetchOrderbookRecord_caches|].
    apply fetchOrderbookRecord_next.
  - apply apart_same_caches; [intros call; apply fetchAccountTransactions_caches|].
    by destruct (fetchAccountTransactions_follows urls id st) as (_ & ? & _).
Qed.

Lemma run_apart actions st :
  handlesAllocated st ∧ handlesApart st →
  handlesAllocated (run actions st) ∧ handlesApart (run actions st).
Proof.
  unfold run. revert st; induction actions as [|a actions IH]; intros st Hinv; simpl.
  - done.
  - apply IH. by apply perform_apart.
Qed.

Lemma append_inj_r (prefix a b : string) : prefix +:+ a = prefix +:+ b → a = b.
Proof. induction prefix as [|c prefix IH]; simpl; [done|]. intros [= Heq]. by apply IH. Qed.

(** X17.  A stream object stands for one key of one function.  After any
    run from the state at module load, two subscription calls that
    return the same object are calls to the same function with the same
    key; and with one list of URLs the key of an account is the key of no
    other account.  So the streams of two accounts are never the same
    object. *)
Theorem streams_are_not_shared_across_keys (actions : list Action)
    (first second : Subscription) (h1 h2 : Observable) (st1 st2 : NetState) :
  subscribe first (run actions initialState) = (Returned h1, st1) →
  subscribe second st1 = (Returned h2, st2) →
  (obs_id h1 = obs_id h2 →
     sameFunction first second = true ∧ keyOf first = keyOf second)
  ∧ ∀ urls id1 id2,
      createAccountCacheKey urls id1 = createAccountCacheKey urls id2 → id1 = id2.
Proof.
  intros Hfirst Hsecond. split; [|intros urls id1 id2; apply append_inj_r].
  intros Hid.
  assert (Hinv : handlesAllocated (run actions initialState)
                 ∧ handlesApart (run actions initialState)).
  { apply run_apart. split; [apply initialState_handlesAllocated|].
    intros c1 k1 h c2 k2 h'. by destruct c1. }
  pose proof (subscribe_apart first _ Hinv) as Hinv1. rewrite Hfirst in Hinv1.
  simpl in Hinv1.
  pose proof (subscribe_apart second _ Hinv1) as [_ Hapart]. rewrite Hsecond in Hapart.
  simpl in Hapart.
  pose proof (subscribe_caches _ _ _ _ Hfirst) as Hcached1.
  pose proof (subscribe_caches _ _ _ _ Hsecond) as Hcached2.
  pose proof (subscribe_follows second st1) as (Hkeep & _ & _).
  rewrite Hsecond in Hkeep. simpl in Hkeep.
  by apply (Hapart first (keyOf first) h1 second (keyOf second) h2); [apply Hkeep| |].
Qed.

Lemma getFetchQueue_requested url st : requested (getFetchQueue url st).2 = requested st.
Proof. unfold getFetchQueue. by destruct (fetchQueuesByFrontier st !! url). Qed.

Lemma subscribeToAccountEffects_requested args st :
  requested (subscribeToAccountEffects args st).2 = requested st.
Proof.
  destruct args as [urls id]. unfold subscribeToAccountEffects, cachify.
  destruct (effectsSubscriptionCache st !! _); [done|].
  unfold subscribeToAccountEffectsUncached. simpl.
  pose proof (getFetchQueue_requested (urls !! (roundRobinIndex st `mod` length urls))
                (setRoundRobinIndex (roundRobinIndex st + 1) st)) as Hq.
  by destruct (getFetchQueue _ _) as [q st2].
Qed.

(** X18.  The stream of an account's transactions rides on the shared
    stream of the account's effects.  A call that builds it hands one
    request for a page of the account's transactions to the endpoint
    picked, and builds the stream over the very object that
    [subscribeToAccountEffects] returns for the same arguments, before
    and after: no second effects stream is set up. *)
Theorem transactions_stream_rides_on_effects_stream (frontierURLs : list string)
    (accountID : string) (st : NetState) :
  transactionsSubscriptionCache st !! createAccountCacheKey frontierURLs accountID = None →
  ∃ transactions effects st',
    subscribeToAccountTransactions (frontierURLs, accountID) st
      = (Returned transactions, st')
    ∧ obs_source transactions = MulticastOver (obs_id effects) accountID
    ∧ subscribeToAccountEffects (frontierURLs, accountID) st' = (Returned effects, st')
    ∧ (∀ known,
         effectsSubscriptionCache st !! createAccountCacheKey frontierURLs accountID
           = Some known → effects = known)
    ∧ (∀ endpoint, (getRandomURL frontierURLs st).1 = Some endpoint →
         requested st'
         = requested st ++ [mkRequest endpoint (AccountTransactionsPage accountID) 1]).
Proof using H.
  intros Hmiss.
  unfold subscribeToAccountTransactions, cachify. simpl. rewrite Hmiss.
  unfold subscribeToAccountTransactionsUncached.
  pose proof (fetchAccountTransactions_caches frontierURLs accountID st
                (ToAccountEffects frontierURLs accountID)) as C1.
  assert (R1 : ∀ endpoint, (getRandomURL frontierURLs st).1 = Some endpoint →
            requested (fetchAccountTransactions frontierURLs accountID st).2
            = requested st ++ [mkRequest endpoint (AccountTransactionsPage accountID) 1]).
  { intros endpoint. unfold fetchAccountTransactions. simpl. intros ->.
    pose proof (getFetchQueue_requested (Some endpoint)
                  (setRoundRobinIndex (roundRobinIndex st + 1) st)) as Hq.
    destruct (getFetchQueue _ _) as [q st2]. simpl in *. by rewrite Hq. }
  destruct (fetchAccountTransactions frontierURLs accountID st) as [r st1].
  simpl in C1, R1.
  destruct (subscribeToAccountEffects_returns (frontierURLs, accountID) st1) as [e He].
  pose proof (subscribe_caches (ToAccountEffects frontierURLs accountID) st1 e) as Hcached.
  pose proof (subscribeToAccountEffects_requested (frontierURLs, accountID) st1) as R2.
  simpl in Hcached.
  destruct (subscribeToAccountEffects (frontierURLs, accountID) st1) as [res st2] eqn:Heff.
  simpl in He. subst res. simpl in *.
  specialize (Hcached st2 eq_refl).
  eexists _, e, _. split; [reflexivity|]. split; [done|]. split; [|split].
  - by apply cachify_hit.
  - intros known Hknown. rewrite <- C1 in Hknown.
    unfold subscribeToAccountEffects in Heff.
    rewrite (cachify_hit _ _ _ (λ args, createAccountCacheKey args.1 args.2)
               (frontierURLs, accountID) st1 known Hknown) in Heff.
    by injection Heff as <- _.
  - intros endpoint Hpicked. simpl. rewrite R2. by apply R1.
Qed.

End SharingFacts.

Section SharingRuns.
Import Sdk Network Runs.

Lemma streams_are_not_shared_across_keys_witness :
  ∃ h1 h2 st1 st2,
    subscribe (H := Sample.packages) (ToAccount [Sample.frontier] Sample.accountA)
      (run (H := Sample.packages)
           [Subscribe (ToAccountTransactions [Sample.frontier] Sample.accountA);
            ResetAllSubscriptions] initialState) = (Returned h1, st1)
    ∧ subscribe (H := Sample.packages) (ToAccount [Sample.frontier] Sample.issuerI) st1
      = (Returned h2, st2)
    ∧ (obs_id h1 = obs_id h2 →
       sameFunction (ToAccount [Sample.frontier] Sample.accountA)
                    (ToAccount [Sample.frontier] Sample.issuerI) = true
       ∧ keyOf (ToAccount [Sample.frontier] Sample.accountA)
         = keyOf (ToAccount [Sample.frontier] Sample.issuerI)).
Proof.
  eexists _, _, _, _. split; [reflexivity|]. split; [reflexivity|].
  apply (streams_are_not_shared_across_keys (H := Sample.packages)
           [Subscribe (ToAccountTransactions [Sample.frontier] Sample.accountA);
            ResetAllSubscriptions]
           (ToAccount [Sample.frontier] Sample.accountA)
           (ToAccount [Sample.frontier] Sample.issuerI) _ _ _ _ eq_refl eq_refl).
Defined.

Lemma transactions_stream_rides_on_effects_stream_witness :
  ∃ transactions effects st',
    subscribeToAccountTransactions ([Sample.frontier], Sample.accountA) initialState
      = (Returned transactions, st')
    ∧ obs_source transactions = MulticastOver (obs_id effects) Sample.accountA
    ∧ subscribeToAccountEffects ([Sample.frontier], Sample.accountA) st'
      = (Returned effects, st').
Proof.
  destruct (transactions_stream_rides_on_effects_stream (H := Sample.packages)
              [Sample.frontier] Sample.accountA initialState)
    as (t & e & st' & Ht & Hsrc & He & _); [reflexivity|].
  by exists t, e, st'.
Defined.

End SharingRuns.

(* ===================================================================== *)
(** * Facts about the handlers of the live streams                       *)
(* ===================================================================== *)

Section EffectsStreamFacts.
Import Streams.

Lemma last_cons_default {A} (x : A) (l : list A) :
  last (x :: l) = Some (default x (last l)).
Proof. rewrite last_cons. by destruct (last l). Qed.

Lemma effects_live_spec (updates : list EffectRecord) (c : EffectsClosure) :
  Forall (λ u, created_at u ≠ "") updates →
  sublist (live effectsShouldApplyUpdate effectsApplyUpdate updates c).1 updates
  ∧ (∀ first rest,
       (live effectsShouldApplyUpdate effectsApplyUpdate updates c).1 = first :: rest →
       effectsShouldApplyUpdate first c = true)
  ∧ (∀ i a b,
       (live effectsShouldApplyUpdate effectsApplyUpdate updates c).1 !! i = Some a →
       (live effectsShouldApplyUpdate effectsApplyUpdate updates c).1 !! S i = Some b →
       String.leb (created_at a) (created_at b) = true
       ∧ effect_paging_token a ≠ effect_paging_token b)
  ∧ (live effectsShouldApplyUpdate effectsApplyUpdate updates c).2
    = match last (live effectsShouldApplyUpdate effectsApplyUpdate updates c).1 with
      | Some e => mkEffects (Some (effect_paging_token e)) (Some (created_at e))
      | None => c
      end.
Proof.
  intros Hstamped. revert c.
  induction Hstamped as [|u updates Hu _ IH]; intros c; simpl.
  - split; [constructor|]. split; [done|]. split; [|done]. by intros i a b [=].
  - destruct (effectsShouldApplyUpdate u c) eqn:Hshould.
    + destruct (IH (mkEffects (Some (effect_paging_token u)) (Some (created_at u))))
        as (Hsub & Hfirst & Hadj & Hclosure).
      destruct (live _ _ updates _) as [rest c2]. simpl in *.
      split; [by constructor|]. split; [by intros ? ? [= <- _]|]. split.
      * intros [|i] a b; simpl; [|apply Hadj].
        intros [= <-] Hb. destruct rest as [|b' rest]; simplify_eq/=.
        pose proof (Hfirst b rest eq_refl) as Hpass.
        unfold effectsShouldApplyUpdate in Hpass. simpl in Hpass.
        apply String.eqb_neq in Hu. rewrite Hu in Hpass. simpl in Hpass.
        apply andb_true_iff in Hpass as [Hleb Hcursor].
        split; [done|]. apply negb_true_iff, bool_decide_eq_false in Hcursor. congruence.
      * rewrite last_cons. by destruct (last rest).
    + destruct (IH c) as (Hsub & Hfirst & Hadj & Hclosure).
      destruct (live _ _ updates c) as [rest c2]. simpl in *.
      split; [by constructor|]. done.
Qed.

(** X19.  What the stream of an account's effects yields is in order.
    With every effect carrying a time stamp, and from any state of the
    subscription: the effects applied are among those offered, in their
    order; each one applied is no older than the one applied before it
    (the first: than the latest effect known before) and has another
    paging token; a subscription that knows no effect yet applies the
    first one offered; and a reconnect asks for the effects after the
    paging token of the last one applied. *)
Theorem effects_stream_is_ordered (updates : list EffectRecord) (c : EffectsClosure) :
  Forall (λ u, created_at u ≠ "") updates →
  let '(applied, c') := live effectsShouldApplyUpdate effectsApplyUpdate updates c in
  sublist applied updates
  ∧ (∀ latest first,
       latestEffectCreatedAt c = Some latest → latest ≠ "" → head applied = Some first →
       String.leb latest (created_at first) = true
       ∧ Some (effect_paging_token first) ≠ latestCursor c)
  ∧ (truthy (latestEffectCreatedAt c) = false → head applied = head updates)
  ∧ (∀ i a b, applied !! i = Some a → applied !! S i = Some b →
       String.leb (created_at a) (created_at b) = true
       ∧ effect_paging_token a ≠ effect_paging_token b)
  ∧ (∀ e, last applied = Some e →
       latestCursor c' = Some (effect_paging_token e)
       ∧ (effect_paging_token e ≠ "" → effectsCursor c' = effect_paging_token e))
  ∧ (applied = [] → c' = c).
Proof.
  intros Hstamped.
  destruct (effects_live_spec updates c Hstamped) as (Hsub & Hfirst & Hadj & Hclosure).
  assert (Hhead : truthy (latestEffectCreatedAt c) = false →
                  head (live effectsShouldApplyUpdate effectsApplyUpdate updates c).1
                  = head updates).
  { intros Hnew. destruct updates as [|u updates]; [done|]. simpl.
    unfold effectsShouldApplyUpdate at 1. rewrite Hnew. simpl.
    by destruct (live _ _ updates _). }
  destruct (live _ _ updates c) as [applied c']. simpl in *.
  split; [done|]. split; [|split; [done|split; [done|split]]].
  - intros latest first Hlatest Hstamp Hhd.
    destruct applied as [|first' rest]; [done|]. injection Hhd as ->.
    specialize (Hfirst first rest eq_refl).
    unfold effectsShouldApplyUpdate in Hfirst. rewrite Hlatest in Hfirst. simpl in Hfirst.
    apply String.eqb_neq in Hstamp. rewrite Hstamp in Hfirst. simpl in Hfirst.
    apply andb_true_iff in Hfirst as [Hleb Hcursor].
    split; [done|]. by apply negb_true_iff, bool_decide_eq_false in Hcursor.
  - intros e He. rewrite He in Hclosure. subst c'. split; [done|].
    intros Hcursor. unfold effectsCursor. simpl.
    by apply String.eqb_neq in Hcursor as ->.
  - intros ->. by simpl in Hclosure.
Qed.

End EffectsStreamFacts.

Section EffectsStreamRuns.
Import Streams.

Lemma effects_stream_is_ordered_witness :
  let known := mkEffect "100" "2021-03-01T09:30:00Z" "account_created" "GACCOUNTA" in
  let updates :=
    [mkEffect "100" "2021-03-01T09:30:00Z" "account_created" "GACCOUNTA";
     mkEffect "101" "2021-03-01T10:00:00Z" "account_credited" "GACCOUNTA";
     mkEffect "101" "2021-03-01T10:00:00Z" "account_credited" "GACCOUNTA";
     mkEffect "099" "2021-03-01T09:00:00Z" "account_debited" "GACCOUNTA";
     mkEffect "102" "2021-03-01T10:00:05Z" "trade" "GACCOUNTA"] in
  let c := (effectsInit (Some known) newEffectsClosure).2 in
  let '(applied, c') := live effectsShouldApplyUpdate effectsApplyUpdate updates c in
  sublist applied updates
  ∧ (∀ latest first,
       latestEffectCreatedAt c = Some latest → latest ≠ "" → head applied = Some first →
       String.leb latest (created_at first) = true
       ∧ Some (effect_paging_token first) ≠ latestCursor c)
  ∧ (truthy (latestEffectCreatedAt c) = false → head applied = head updates)
  ∧ (∀ i a b, applied !! i = Some a → applied !! S i = Some b →
       String.leb (created_at a) (created_at b) = true
       ∧ effect_paging_token a ≠ effect_paging_token b)
  ∧ (∀ e, last applied = Some e →
       latestCursor c' = Some (effect_paging_token e)
       ∧ (effect_paging_token e ≠ "" → effectsCursor c' = effect_paging_token e))
  ∧ (applied = [] → c' = c).
Proof.
  apply (effects_stream_is_ordered
           [mkEffect "100" "2021-03-01T09:30:00Z" "account_created" "GACCOUNTA";
            mkEffect "101" "2021-03-01T10:00:00Z" "account_credited" "GACCOUNTA";
            mkEffect "101" "2021-03-01T10:00:00Z" "account_credited" "GACCOUNTA";
            mkEffect "099" "2021-03-01T09:00:00Z" "account_debited" "GACCOUNTA";
            mkEffect "102" "2021-03-01T10:00:05Z" "trade" "GACCOUNTA"]
           (effectsInit
              (Some (mkEffect "100" "2021-03-01T09:30:00Z" "account_created" "GACCOUNTA"))
              newEffectsClosure).2).
  repeat constructor; discriminate.
Defined.

(** The run of the lemma above: the effect known from the start and the
    repeated one are passed over, and so is the older one. *)
Example effects_stream_sample :
  (live effectsShouldApplyUpdate effectsApplyUpdate
     [mkEffect "100" "2021-03-01T09:30:00Z" "account_created" "GACCOUNTA";
      mkEffect "101" "2021-03-01T10:00:00Z" "account_credited" "GACCOUNTA";
      mkEffect "101" "2021-03-01T10:00:00Z" "account_credited" "GACCOUNTA";
      mkEffect "099" "2021-03-01T09:00:00Z" "account_debited" "GACCOUNTA";
      mkEffect "102" "2021-03-01T10:00:05Z" "trade" "GACCOUNTA"]
     (effectsInit
        (Some (mkEffect "100" "2021-03-01T09:30:00Z" "account_created" "GACCOUNTA"))
        newEffectsClosure).2).1
  = [mkEffect "101" "2021-03-01T10:00:00Z" "account_credited" "GACCOUNTA";
     mkEffect "102" "2021-03-01T10:00:05Z" "trade" "GACCOUNTA"].
Proof. reflexivity. Qed.

End EffectsStreamRuns.

Section AccountStreamFacts.
Import Ledger Sdk Frontier Streams SetOptions Overlay.
Variable stringify : string * list BalanceLine → string.

Lemma applyAll_setOptions_kept url (us : list (OptimisticUpdate AccountResponse)) s :
  Forall (λ v, ∃ op tx, v ∈ setAccountOptions url op tx) us →
  sequence (applyAll us s) = sequence s ∧ balances (applyAll us s) = balances s.
Proof.
  unfold applyAll. revert s; induction us as [|u us IH]; intros s Hus; simpl; [done|].
  apply Forall_cons in Hus as [(op & tx & Hu) Hus].
  destruct (setAccountOptions_frame url op tx u Hu) as [_ Hframe].
  destruct (Hframe s) as (Hbal & _ & Hseq & _).
  destruct (IH (apply u s) Hus) as [-> ->]. done.
Qed.

(** X20.  Overlays of signers and thresholds do not pass the account
    stream.  Once an account has been applied, the value that
    [handleNewOptimisticUpdate] makes of it for a new overlay, when only
    overlays of set-options operations wait for the account, has the
    sequence number and balances of the applied one, and
    [shouldApplyUpdate] turns it down; [null] is turned down always. *)
Theorem signer_overlays_do_not_pass_the_account_stream (cacheKey accountID url : string)
    (shown : AccountResponse) (c : AccountClosure)
    (newOptimisticUpdate : OptimisticUpdate AccountResponse)
    (ledger : Cache AccountResponse) :
  (∀ fingerprint, stringify fingerprint ≠ "") →
  Forall (λ v, ∃ op tx, v ∈ setAccountOptions url op tx)
         (getUpdates url (account_id shown) ledger) →
  effectsAccountID newOptimisticUpdate = accountID →
  frontierURL newOptimisticUpdate = url →
  let c1 := (accountApplyUpdate stringify cacheKey (Some shown) c).2 in
  ∃ candidate,
    handleNewOptimisticUpdate accountID (Some url) cacheKey newOptimisticUpdate ledger c1
      = Some candidate
    ∧ candidate = applyAll (getUpdates url (account_id shown) ledger) shown
    ∧ sequence candidate = sequence shown
    ∧ balances candidate = balances shown
    ∧ accountShouldApplyUpdate stringify (Some candidate) c1 = false
    ∧ accountShouldApplyUpdate stringify None c1 = false.
Proof.
  intros Hnonempty Hsigners Haccount Hurl. simpl.
  unfold handleNewOptimisticUpdate. simpl.
  rewrite lookup_insert_eq, Haccount, Hurl, String.eqb_refl.
  rewrite bool_decide_eq_true_2 by done. simpl.
  eexists. split; [reflexivity|].
  rewrite optimisticallyUpdateAccountData_fold.
  destruct (applyAll_setOptions_kept url _ shown Hsigners) as [Hseq Hbal].
  split; [done|]. split; [done|]. split; [done|]. split; [|done].
  unfold createSnapshot. rewrite Hseq, Hbal.
  rewrite bool_decide_eq_true_2 by done.
  specialize (Hnonempty (sequence shown, balances shown)).
  by apply String.eqb_neq in Hnonempty as ->.
Qed.

End AccountStreamFacts.

Section MessageFacts.
Import Streams.
Context {Message : Type}.
Variable stringify : Message → string.

(** X21.  The message deduplicator hands a message on exactly when it
    differs, as serialized, from the message received just before it (the
    first one: from the empty text), and remembers the serialization of
    the last message received. *)
Theorem deduplicateMessage_hands_on_changes (messages : list Message)
    (lastMessageJson : string) :
  (deduplicated stringify messages lastMessageJson).1
    = changesOnly stringify lastMessageJson messages
  ∧ (deduplicated stringify messages lastMessageJson).2
    = default lastMessageJson (stringify <$> last messages).
Proof.
  revert lastMessageJson; induction messages as [|m messages IH]; intros lastJson;
    simpl; [done|].
  unfold deduplicateMessage.
  destruct (String.eqb_spec (stringify m) lastJson) as [Heq|Hne]; simpl.
  - destruct (IH lastJson) as [IH1 IH2].
    destruct (deduplicated stringify messages lastJson) as [rest last2]. simpl in *.
    rewrite <- Heq in *. split; [done|].
    rewrite IH2, last_cons. by destruct (last messages).
  - destruct (IH (stringify m)) as [IH1 IH2].
    destruct (deduplicated stringify messages (stringify m)) as [rest last2]. simpl in *.
    split; [by rewrite IH1|].
    rewrite IH2, last_cons. by destruct (last messages).
Qed.

End MessageFacts.

Section ConnectionFacts.
Import Streams.

Lemma messageHandler_listening event m :
  listening m = true → listening (messageHandler event m) = true.
Proof. unfold messageHandler. intros Hl. rewrite Hl. by destruct event. Qed.

(** While pauses and resumes take turns, every connection but the current
    one has been given up, and so has the current one while paused. *)
Lemma takeTurns_closed (events : list WindowMessage) (paused : bool) (m : Manager) :
  takeTurns paused events = true →
  listening m = true →
  (∀ n, Connect n ∈ calls m → n ≠ unsubscribeFromCurrent m → Unsubscribe n ∈ calls m) →
  (paused = true → Unsubscribe (unsubscribeFromCurrent m) ∈ calls m) →
  let m' := foldl (λ m event, messageHandler event m) m events in
  ∀ n, Connect n ∈ calls m' → n ≠ unsubscribeFromCurrent m' → Unsubscribe n ∈ calls m'.
Proof.
  revert paused m; induction events as [|event events IH]; intros paused m; simpl; [done|].
  intros Hturns Hlistening Hothers Hpaused.
  destruct event; simpl in Hturns.
  - apply andb_true_iff in Hturns as [_ Hturns].
    apply (IH true); [done|by apply messageHandler_listening| |];
      unfold messageHandler; rewrite Hlistening; simpl.
    + intros n [Hn|Hn]%elem_of_app Hother; [|by apply list_elem_of_singleton in Hn].
      apply elem_of_app. left. by apply Hothers.
    + intros _. apply elem_of_app. right. by apply list_elem_of_singleton.
  - apply andb_true_iff in Hturns as [-> Hturns].
    apply (IH false); [done|by apply messageHandler_listening| |done];
      unfold messageHandler; rewrite Hlistening; simpl.
    intros n [Hn|Hn]%elem_of_app Hother.
    + apply elem_of_app. left.
      destruct (decide (n = unsubscribeFromCurrent m)) as [->|Hne];
        [by apply Hpaused | by apply Hothers].
    + apply list_elem_of_singleton in Hn as [= ->]. done.
  - assert (Hsame : messageHandler OtherMessage m = m)
      by (unfold messageHandler; by rewrite Hlistening).
    rewrite Hsame. by apply (IH paused).
Qed.

(** Unsubscribe functions are called for the current connection only, and
    that number never goes down. *)
Lemma unsubscribed_below_current (events : list WindowMessage) (m : Manager) :
  listening m = true →
  unsubscribeFromCurrent m < connectionsMade m →
  (∀ n, Unsubscribe n ∈ calls m → n ≤ unsubscribeFromCurrent m) →
  let m' := foldl (λ m event, messageHandler event m) m events in
  listening m' = true
  ∧ unsubscribeFromCurrent m ≤ unsubscribeFromCurrent m'
  ∧ unsubscribeFromCurrent m' < connectionsMade m'
  ∧ connectionsMade m ≤ connectionsMade m'
  ∧ (∀ n, Unsubscribe n ∈ calls m' → n ≤ unsubscribeFromCurrent m')
  ∧ (∀ call, call ∈ calls m → call ∈ calls m').
Proof.
  revert m; induction events as [|event events IH]; intros m; simpl.
  - intros. repeat split; (done || lia).
  - intros Hlistening Hcurrent Hbelow.
    destruct (IH (messageHandler event m)) as (L & C & M & N & B & K).
    + by apply messageHandler_listening.
    + unfold messageHandler. rewrite Hlistening. destruct event; simpl; lia.
    + unfold messageHandler. rewrite Hlistening. destruct event; simpl; [| |done].
      * intros n [Hn|Hn]%elem_of_app; [by apply Hbelow|].
        by apply list_elem_of_singleton in Hn as [= ->].
      * intros n [Hn|Hn]%elem_of_app; [|by apply list_elem_of_singleton in Hn].
        specialize (Hbelow n Hn). lia.
    + split; [done|].
      assert (Hstep : unsubscribeFromCurrent m ≤ unsubscribeFromCurrent (messageHandler event m)
                      ∧ connectionsMade m ≤ connectionsMade (messageHandler event m)
                      ∧ ∀ call, call ∈ calls m → call ∈ calls (messageHandler event m)).
      { unfold messageHandler. rewrite Hlistening.
        destruct event; simpl; repeat split; try lia; try done;
          intros call Hcall; apply elem_of_app; by left. }
      destruct Hstep as (S1 & S2 & S3).
      repeat split; try done; try lia. intros call Hcall. by apply K, S3.
Qed.

(** A connection below the current one is not given up any more. *)
Lemma never_unsubscribed_below (events : list WindowMessage) (k : nat) (m : Manager) :
  listening m = true →
  unsubscribeFromCurrent m < connectionsMade m →
  k < unsubscribeFromCurrent m →
  Unsubscribe k ∉ calls m →
  k < unsubscribeFromCurrent (foldl (λ m event, messageHandler event m) m events)
  ∧ (Unsubscribe k ∉ calls (foldl (λ m event, messageHandler event m) m events))
  ∧ ∀ call, call ∈ calls m →
            call ∈ calls (foldl (λ m event, messageHandler event m) m events).
Proof.
  revert m; induction events as [|event events IH]; intros m Hl Hc Hlt Hnot; simpl; [done|].
  destruct (IH (messageHandler event m)) as (T1 & T2 & T3).
  - by apply messageHandler_listening.
  - unfold messageHandler. rewrite Hl. destruct event; simpl; lia.
  - unfold messageHandler. rewrite Hl. destruct event; simpl; lia.
  - unfold messageHandler. rewrite Hl. destruct event; simpl; [| |done].
    + intros [Hin|Hin]%elem_of_app; [done|].
      apply list_elem_of_singleton in Hin as [= Heq]. lia.
    + intros [Hin|Hin]%elem_of_app; [done|].
      by apply list_elem_of_singleton in Hin.
  - split; [done|]. split; [done|]. intros call Hcall. apply T3.
    unfold messageHandler. rewrite Hl.
    destruct event; simpl; [apply elem_of_app; by left|apply elem_of_app; by left|done].
Qed.

(** X22.  Pausing and resuming a stream connection.  When pauses and
    resumes take turns, every connection made in a session is given up by
    its end.  A resume that follows a resume makes a second connection
    while the first is live, and the first is then never given up,
    whatever happens afterwards. *)
Theorem manageStreamConnection_sessions (events : list WindowMessage) :
  (takeTurns false events = true →
     ∀ n, Connect n ∈ calls (session events) → Unsubscribe n ∈ calls (session events))
  ∧ (∀ before after, events = before ++ [AppResume; AppResume] ++ after →
     ∃ n, Connect n ∈ calls (session events) ∧ Unsubscribe n ∉ calls (session events)).
Proof.
  split.
  - intros Hturns n. unfold session, unsubscribeCompletely. simpl.
    pose proof (takeTurns_closed events false manageStreamConnection Hturns eq_refl)
      as Hclosed. simpl in Hclosed.
    intros [Hn|Hn]%elem_of_app; [|by apply list_elem_of_singleton in Hn].
    apply elem_of_app.
    destruct (decide (n = unsubscribeFromCurrent
                            (foldl (λ m event, messageHandler event m)
                                   manageStreamConnection events))) as [->|Hne].
    + right. by apply list_elem_of_singleton.
    + left. apply Hclosed; [|done|done|done].
      intros k [= <-]%list_elem_of_singleton Hk. done.
  - intros before after ->. unfold session.
    rewrite !foldl_app. simpl.
    destruct (unsubscribed_below_current before manageStreamConnection)
      as (L0 & _ & M0 & _ & B0 & _); [done|simpl; lia| |].
    { intros n Hn. by apply list_elem_of_singleton in Hn. }
    set (m0 := foldl (λ m event, messageHandler event m) manageStreamConnection before) in *.
    set (m1 := messageHandler AppResume m0).
    set (m2 := messageHandler AppResume m1).
    assert (H1 : listening m1 = true ∧ unsubscribeFromCurrent m1 = connectionsMade m0
                 ∧ connectionsMade m1 = S (connectionsMade m0)
                 ∧ calls m1 = calls m0 ++ [Connect (connectionsMade m0)]).
    { unfold m1, messageHandler. by rewrite L0. }
    destruct H1 as (L1 & C1 & N1 & K1).
    assert (H2 : listening m2 = true ∧ unsubscribeFromCurrent m2 = S (connectionsMade m0)
                 ∧ connectionsMade m2 = S (S (connectionsMade m0))
                 ∧ calls m2 = calls m1 ++ [Connect (S (connectionsMade m0))]).
    { unfold m2, messageHandler. rewrite L1. simpl. by rewrite N1. }
    destruct H2 as (L2 & C2 & N2 & K2).
    exists (connectionsMade m0).
    destruct (never_unsubscribed_below after (connectionsMade m0) m2) as (T1 & T2 & T3); [done|lia|lia| |].
    { rewrite K2, K1. intros [[Hin|Hin]%elem_of_app|Hin]%elem_of_app.
      - specialize (B0 _ Hin). lia.
      - by apply list_elem_of_singleton in Hin.
      - by apply list_elem_of_singleton in Hin. }
    unfold unsubscribeCompletely. simpl. split.
    + apply elem_of_app. left. apply T3. rewrite K2, K1.
      apply elem_of_app. left. apply elem_of_app. right. by apply list_elem_of_singleton.
    + intros [Hin|Hin]%elem_of_app; [done|].
      apply list_elem_of_singleton in Hin as [= Heq]. lia.
Qed.

End ConnectionFacts.

Section AccountStreamRuns.
Import Ledger Sdk Frontier Streams SetOptions Overlay.

Lemma signer_overlays_do_not_pass_the_account_stream_witness :
  let stringify := λ fingerprint : string * list BalanceLine,
                     "[" +:+ fingerprint.1 +:+ "," +:+ pretty (length fingerprint.2) +:+ "]" in
  let ledger := addUpdates [Sample.zeroMaster] newCache in
  let c1 := (accountApplyUpdate stringify "key" (Some Sample.snapshot)
               (mkAccountClosure ∅ None)).2 in
  ∃ candidate,
    handleNewOptimisticUpdate Sample.accountA (Some Sample.frontier) "key"
      Sample.zeroMaster ledger c1 = Some candidate
    ∧ candidate
      = applyAll (getUpdates Sample.frontier (account_id Sample.snapshot) ledger)
                 Sample.snapshot
    ∧ sequence candidate = sequence Sample.snapshot
    ∧ balances candidate = balances Sample.snapshot
    ∧ accountShouldApplyUpdate stringify (Some candidate) c1 = false
    ∧ accountShouldApplyUpdate stringify None c1 = false.
Proof.
  apply (signer_overlays_do_not_pass_the_account_stream
           (λ fingerprint : string * list BalanceLine,
              "[" +:+ fingerprint.1 +:+ "," +:+ pretty (length fingerprint.2) +:+ "]")
           "key" Sample.accountA Sample.frontier Sample.snapshot (mkAccountClosure ∅ None)
           Sample.zeroMaster (addUpdates [Sample.zeroMaster] newCache)).
  - intros [sequence balances]. simpl. discriminate.
  - assert (Hstored : getUpdates Sample.frontier (account_id Sample.snapshot)
                        (addUpdates [Sample.zeroMaster] newCache) = [Sample.zeroMaster])
      by reflexivity.
    rewrite Hstored. constructor; [|constructor].
    exists Sample.zeroMasterWeight, Sample.tx2. apply list_elem_of_here.
  - reflexivity.
  - reflexivity.
Defined.

End AccountStreamRuns.

(* ===================================================================== *)
(** * Facts about whole runs of the wait for an account                  *)
(* ===================================================================== *)

Section WaitRunFacts.
Import Http AccountWait WaitRuns PrimFloat.
Context {Data : Type}.
Variable parse : Response → Error + Data.
Variable haveShouldCancel : bool.

Lemma waitFrom_done interval failed rounds events data flag :
  waitFrom parse haveShouldCancel interval failed rounds = (events, Done data flag) →
  ∃ waiting round later response,
    rounds = waiting ++ round :: later
    ∧ forallb (retried haveShouldCancel) waiting = true
    ∧ found haveShouldCancel round = Some response
    ∧ parse response = inr data
    ∧ flag = failed || negb (Nat.eqb (length waiting) 0)
    ∧ delaysOf events = backoff (length waiting) interval
    ∧ fetchesOf events = S (length waiting).
Proof.
  revert interval failed events.
  induction rounds as [|round later IH]; intros interval failed events; simpl; [done|].
  destruct (haveShouldCancel && cancelAnswer round) eqn:Hcancel; [done|].
  destruct (fetched round) as [response|message] eqn:Hfetched; [|done].
  destruct (status response =? 200)%Z eqn:H200.
  - destruct (parse response) as [e|d] eqn:Hparse; [done|].
    intros [= <- <- <-]. exists [], round, later, response.
    split; [done|]. split; [done|]. split.
    { unfold found. by rewrite Hcancel, Hfetched, H200. }
    split; [done|]. split; [by rewrite orb_false_r|].
    destruct haveShouldCancel; done.
  - destruct (status response =? 404)%Z eqn:H404; [|done].
    destruct (waitFrom parse haveShouldCancel (nextInterval interval) true later)
      as [events' result] eqn:Hrest.
    intros [= <- ->].
    destruct (IH _ _ _ Hrest) as (waiting & found' & later' & response' & -> & Hall & Hfound
                                   & Hparse & -> & Hdelays & Hfetches).
    exists (round :: waiting), found', later', response'.
    split; [done|]. split.
    { simpl. rewrite Hall. unfold retried. by rewrite Hcancel, Hfetched, H404. }
    split; [done|]. split; [done|]. split; [by rewrite orb_true_r|].
    split.
    + simpl. rewrite <- Hdelays. by destruct haveShouldCancel.
    + simpl. rewrite <- Hfetches. by destruct haveShouldCancel.
Qed.

Lemma waitFrom_finds interval failed waiting round later response :
  forallb (retried haveShouldCancel) waiting = true →
  found haveShouldCancel round = Some response →
  (waitFrom parse haveShouldCancel interval failed (waiting ++ round :: later)).2
  = match parse response with
    | inr data => Done data (failed || negb (Nat.eqb (length waiting) 0))
    | inl e => Thrown e
    end.
Proof.
  revert interval failed. induction waiting as [|w waiting IH]; intros interval failed; simpl.
  - intros _. unfold found.
    destruct (haveShouldCancel && cancelAnswer round); [done|].
    destruct (fetched round) as [r|]; [|done].
    destruct (status r =? 200)%Z; [|done]. intros [= ->]. simpl.
    rewrite orb_false_r. by destruct (parse response).
  - intros [Hw Hall]%andb_true_iff Hfound. unfold retried in Hw.
    apply andb_true_iff in Hw as [Hgo H404]. apply negb_true_iff in Hgo. rewrite Hgo.
    destruct (fetched w) as [r|]; [|done].
    assert (H200 : (status r =? 200)%Z = false).
    { apply Z.eqb_eq in H404. rewrite H404. done. }
    rewrite H200, H404.
    specialize (IH (nextInterval interval) true Hall Hfound).
    destruct (waitFrom parse haveShouldCancel (nextInterval interval) true
                (waiting ++ round :: later)) as [events result]. simpl in *.
    rewrite IH, orb_true_r. done.
Qed.

(** X23.  When the wait for an account resolves.  A run resolves with
    account data exactly when, after any number of turns that were
    answered with status 404, a turn is answered with status 200 and the
    response parses: the data is what the parser made of that response,
    [initialFetchFailed] tells whether a turn with status 404 came
    before, the account was fetched once per turn, and the run slept once
    per turn with status 404.  The delays are the doubles that come of
    2500 by multiplying with 1.05 and capping at 5000: the i-th is the
    i-th of the sixteen listed and 5000 ms after them; each lies between
    2500 and 5000 ms, and the next is no shorter, and longer while below
    5000 ms. *)
Theorem waitForAccountData_resolves_exactly_when (rounds : list Round) :
  (∀ events data flag,
     waitForAccountDataUncached parse haveShouldCancel rounds = (events, Done data flag) →
     ∃ waiting round later response,
       rounds = waiting ++ round :: later
       ∧ forallb (retried haveShouldCancel) waiting = true
       ∧ found haveShouldCancel round = Some response
       ∧ parse response = inr data
       ∧ flag = negb (Nat.eqb (length waiting) 0)
       ∧ fetchesOf events = S (length waiting)
       ∧ length (delaysOf events) = length waiting
       ∧ (∀ i ms, delaysOf events !! i = Some ms →
            ms = nth i [2500; 2625; 2756.25; 2894.0625; 3038.765625;
                        3190.7039062500003; 3350.2391015625003; 3517.7510566406254;
                        3693.6386094726568; 3878.32053994629; 4072.2365669436044;
                        4275.8483952907845; 4489.6408150553243; 4714.1228558080911;
                        4949.8289985984957; 5000]%float 5000%float)
       ∧ (∀ i a, delaysOf events !! i = Some a →
            leb 2500 a = true ∧ leb a 5000 = true
            ∧ ∀ b, delaysOf events !! S i = Some b →
                   leb a b = true ∧ (ltb a 5000 = true → ltb a b = true)
                   ∧ b = Math_min (mul a 1.05) 5000))
  ∧ (∀ waiting round later response data,
       rounds = waiting ++ round :: later →
       forallb (retried haveShouldCancel) waiting = true →
       found haveShouldCancel round = Some response →
       parse response = inr data →
       (waitForAccountDataUncached parse haveShouldCancel rounds).2
       = Done data (negb (Nat.eqb (length waiting) 0))).
Proof.
  split.
  - intros events data flag Hrun.
    destruct (waitFrom_done _ _ _ _ _ _ Hrun)
      as (waiting & round & later & response & -> & Hall & Hfound & Hparse & -> & Hdelays
          & Hfetches).
    exists waiting, round, later, response. repeat (split; [done|]).
    assert (Hlength : length (delaysOf events) = length waiting).
    { rewrite Hdelays. generalize firstInterval. generalize (length waiting).
      induction n as [|n IH]; intros interval; simpl; [done|]. by rewrite IH. }
    split; [done|]. rewrite Hdelays. split.
    + intros i ms. apply backoff_table.
    + intros i a Ha. destruct (backoff_grows _ _ _ Ha) as (Hmin & Hmax & Hnext).
      split; [done|]. split; [done|]. intros b Hb.
      destruct (Hnext b Hb) as [Hle Hlt]. split; [done|]. split; [done|].
      clear -Ha Hb. revert Ha Hb. generalize firstInterval. revert i.
      induction (length waiting) as [|n IH]; intros i interval; [done|].
      destruct i as [|i]; simpl.
      * intros [= <-]. destruct n as [|n]; [done|]. simpl. by intros [= <-].
      * apply IH.
  - intros waiting round later response data -> Hall Hfound Hparse.
    unfold waitForAccountDataUncached.
    rewrite (waitFrom_finds _ _ _ _ _ _ Hall Hfound), Hparse. done.
Qed.

End WaitRunFacts.

(* ===================================================================== *)
(** * Facts about the kinds of addresses                                 *)
(* ===================================================================== *)

Section AddressFacts.
Import Addresses.

Lemma nullable_sound r : nullable r = true → Lang r [].
Proof.
  induction r as [| |p|r1 IH1 r2 IH2|r1 IH1 r2 IH2|r IH]; simpl; try done.
  - intros _. constructor.
  - intros [H1 H2]%andb_true_iff. apply (Lang_cat r1 r2 [] []); auto.
  - intros [H1|H2]%orb_true_iff; [apply Lang_alt_l | apply Lang_alt_r]; auto.
  - intros Hr. apply Lang_plus_one. auto.
Qed.

Lemma deriv_sound c r s : Lang (deriv c r) s → Lang r (c :: s).
Proof.
  revert s. induction r as [| |p|r1 IH1 r2 IH2|r1 IH1 r2 IH2|r IH]; intros s; simpl.
  - inversion 1.
  - inversion 1.
  - destruct (p c) eqn:Hp; inversion 1; subst. by constructor.
  - inversion 1 as [| | |? ? ? Hl|? ? ? Hr| |]; subst.
    + inversion Hl as [| |? ? s1 s2 H1 H2| | | |]; subst.
      apply (Lang_cat r1 r2 (c :: s1) s2); auto.
    + destruct (nullable r1) eqn:Hnull; [|inversion Hr].
      apply (Lang_cat r1 r2 [] (c :: s)); [by apply nullable_sound | auto].
  - inversion 1; subst; [apply Lang_alt_l | apply Lang_alt_r]; auto.
  - inversion 1 as [| |? ? s1 s2 H1 H2| | | |]; subst.
    inversion H2 as [| | |? ? ? Hl|? ? ? Hr| |]; subst.
    + inversion Hl; subst. rewrite app_nil_r. apply Lang_plus_one. auto.
    + apply (Lang_plus_more r (c :: s1) s2); auto.
Qed.

Lemma matchesAll_sound r s : matchesAll r s = true → Lang r s.
Proof.
  revert r; induction s as [|c s IH]; intros r; simpl.
  - apply nullable_sound.
  - intros Hm. apply deriv_sound, IH, Hm.
Qed.

Lemma Lang_class p s : Lang (Class p) s → ∃ c, s = [c] ∧ p c = true.
Proof. inversion 1; subst. eauto. Qed.

Lemma Lang_times_class n p s :
  Lang (times n (Class p)) s → length s = n ∧ Forall (λ c, p c = true) s.
Proof.
  revert s; induction n as [|n IH]; intros s; simpl.
  - inversion 1. by split.
  - inversion 1 as [| |? ? s1 s2 H1 H2| | | |]; subst.
    apply Lang_class in H1 as (c & -> & Hc). destruct (IH _ H2) as [Hlen Hall].
    simpl. split; [by rewrite Hlen | by constructor].
Qed.

Lemma Lang_plus_class p s :
  Lang (Plus (Class p)) s → s ≠ [] ∧ Forall (λ c, p c = true) s.
Proof.
  remember (Plus (Class p)) as r eqn:Hr. induction 1 as [| | | | |r0 s H0|r0 s1 s2 H1 _ H2 IH2];
    try discriminate; injection Hr as ->.
  - apply Lang_class in H0 as (c & -> & Hc). split; [done|by repeat constructor].
  - apply Lang_class in H1 as (c & -> & Hc). destruct (IH2 eq_refl) as [_ Hall].
    split; [done|by constructor].
Qed.

Lemma noneOf_cons x xs c : noneOf (x :: xs) c = true → c ≠ x ∧ noneOf xs c = true.
Proof.
  unfold noneOf. simpl. intros [Hx Hxs]%negb_true_iff%orb_false_iff.
  split; [by apply Ascii.eqb_neq | by rewrite Hxs].
Qed.

Lemma noneOf_not_in xs c : noneOf xs c = true → c ∉ xs.
Proof.
  induction xs as [|x xs IH]; [intros _; apply not_elem_of_nil|].
  intros [Hx Hxs]%noneOf_cons. apply not_elem_of_cons. auto.
Qed.

Lemma Forall_noneOf_not_in xs x (s : list ascii) :
  x ∈ xs → Forall (λ c, noneOf xs c = true) s → x ∉ s.
Proof.
  intros Hx Hall Hin. rewrite Forall_forall in Hall.
  by apply (noneOf_not_in xs x (Hall x Hin)).
Qed.

Lemma publicKey_shape s :
  Lang publicKeyRe s →
  ∃ rest, s = "G"%char :: rest ∧ length rest = 55 ∧ Forall (λ c, upperOrDigit c = true) rest.
Proof.
  inversion 1 as [| |? ? s1 s2 H1 H2| | | |]; subst.
  apply Lang_class in H1 as (c & -> & Hc). apply Ascii.eqb_eq in Hc as ->.
  apply (Lang_times_class 55) in H2 as [Hlen Hall]. by exists s2.
Qed.

Lemma muxedAddress_shape s :
  Lang muxedAddressRe s →
  ∃ rest, s = "M"%char :: rest ∧ length rest = 68 ∧ Forall (λ c, upperOrDigit c = true) rest.
Proof.
  inversion 1 as [| |? ? s1 s2 H1 H2| | | |]; subst.
  apply Lang_class in H1 as (c & -> & Hc). apply Ascii.eqb_eq in Hc as ->.
  apply (Lang_times_class 68) in H2 as [Hlen Hall]. by exists s2.
Qed.

Lemma digitalBitsAddress_shape s :
  Lang digitalBitsAddressRe s →
  ∃ name label tail,
    s = name ++ star :: label ++ dot :: tail
    ∧ name ≠ [] ∧ label ≠ [] ∧ tail ≠ []
    ∧ Forall (λ c, noneOf (star :: blanks) c = true) name
    ∧ Forall (λ c, noneOf (star :: dot :: blanks) c = true) label
    ∧ Forall (λ c, noneOf (star :: blanks) c = true) tail.
Proof.
  inversion 1 as [| |? ? name s2 Hname H2| | | |]; subst.
  inversion H2 as [| |? ? s3 s4 Hstar H4| | | |]; subst.
  inversion H4 as [| |? ? label s6 Hlabel H6| | | |]; subst.
  inversion H6 as [| |? ? s7 tail Hdot Htail| | | |]; subst.
  apply Lang_class in Hstar as (c1 & -> & Hc1). apply Ascii.eqb_eq in Hc1 as ->.
  apply Lang_class in Hdot as (c2 & -> & Hc2). apply Ascii.eqb_eq in Hc2 as ->.
  apply Lang_plus_class in Hname as [? ?], Hlabel as [? ?], Htail as [? ?].
  by exists name, label, tail.
Qed.

Lemma length_list_ascii_of_string str :
  length (String.list_ascii_of_string str) = String.length str.
Proof. induction str as [|c str IH]; simpl; [done|by rewrite IH]. Qed.

Lemma not_in_count (x : ascii) (s : list ascii) : x ∉ s → count_occ ascii_dec s x = 0.
Proof. intros Hx. apply count_occ_not_In. by rewrite <- list_elem_of_In. Qed.

(** X24.  The three kinds of addresses are told apart.  A text that
    passes [isPublicKey] has 56 characters and passes neither of the other
    two tests; one that passes [isMuxedAddress] has 69 characters and does
    not pass [isDigitalBitsAddress]; and one that passes
    [isDigitalBitsAddress] is a name, one asterisk and a domain with a dot
    in it after a first label, all three parts non-empty, and holds no
    blank, tab, line break or [>]. *)
Theorem address_kinds_are_apart (str : string) :
  (isPublicKey str = true →
     String.length str = 56 ∧ isMuxedAddress str = false ∧ isDigitalBitsAddress str = false)
  ∧ (isMuxedAddress str = true →
     String.length str = 69 ∧ isDigitalBitsAddress str = false)
  ∧ (isDigitalBitsAddress str = true →
     count_occ ascii_dec (String.list_ascii_of_string str) star = 1
     ∧ Forall (λ c, c ∉ blanks) (String.list_ascii_of_string str)
     ∧ ∃ name label tail,
         String.list_ascii_of_string str = name ++ star :: label ++ dot :: tail
         ∧ name ≠ [] ∧ label ≠ [] ∧ tail ≠ [] ∧ dot ∉ label).
Proof.
  unfold isPublicKey, isMuxedAddress, isDigitalBitsAddress.
  rewrite <- length_list_ascii_of_string.
  set (s := String.list_ascii_of_string str).
  assert (Hplain : ∀ rest, Forall (λ c, upperOrDigit c = true) rest → star ∉ rest).
  { intros rest Hall Hin. rewrite Forall_forall in Hall. by specialize (Hall _ Hin). }
  assert (Hstar : ∀ t, Lang digitalBitsAddressRe t → star ∈ t).
  { intros t (name & label & tail & -> & _)%digitalBitsAddress_shape.
    apply elem_of_app. right. apply list_elem_of_here. }
  split; [|split].
  - intros (rest & Hs & Hlen & Hall)%matchesAll_sound%publicKey_shape.
    split; [rewrite Hs; simpl; by rewrite Hlen|]. split.
    + apply not_true_is_false.
      intros (rest' & Hs' & _)%matchesAll_sound%muxedAddress_shape. congruence.
    + apply not_true_is_false. intros Hin%matchesAll_sound%Hstar.
      rewrite Hs in Hin. apply elem_of_cons in Hin as [Hin|Hin]; [done|].
      by apply (Hplain rest).
  - intros (rest & Hs & Hlen & Hall)%matchesAll_sound%muxedAddress_shape.
    split; [rewrite Hs; simpl; by rewrite Hlen|].
    apply not_true_is_false. intros Hin%matchesAll_sound%Hstar.
    rewrite Hs in Hin. apply elem_of_cons in Hin as [Hin|Hin]; [done|].
    by apply (Hplain rest).
  - intros (name & label & tail & Hs & Hname & Hlabel & Htail & Aname & Alabel & Atail)
             %matchesAll_sound%digitalBitsAddress_shape.
    assert (Sname : star ∉ name)
      by (apply (Forall_noneOf_not_in (star :: blanks)); [apply list_elem_of_here|done]).
    assert (Slabel : star ∉ label)
      by (apply (Forall_noneOf_not_in (star :: dot :: blanks));
          [apply list_elem_of_here|done]).
    assert (Stail : star ∉ tail)
      by (apply (Forall_noneOf_not_in (star :: blanks)); [apply list_elem_of_here|done]).
    assert (Dlabel : dot ∉ label)
      by (apply (Forall_noneOf_not_in (star :: dot :: blanks));
          [apply list_elem_of_further, list_elem_of_here|done]).
    rewrite Hs. split; [|split].
    + rewrite count_occ_app. simpl.
      destruct (ascii_dec star star) as [_|Hne]; [|done].
      rewrite count_occ_app. simpl.
      destruct (ascii_dec dot star) as [Heq|_]; [discriminate|].
      rewrite !not_in_count by done. done.
    + assert (Hweaker : ∀ cs t, Forall (λ c, noneOf cs c = true) t →
                (∀ b, b ∈ blanks → b ∈ cs) → Forall (λ c, c ∉ blanks) t).
      { intros cs t Hall Hsub. eapply Forall_impl; [exact Hall|].
        intros c Hc Hin. simpl in Hc. by apply (noneOf_not_in cs c Hc), Hsub. }
      apply Forall_app. split.
      { apply (Hweaker (star :: blanks)); [done|]. intros b Hb. by apply list_elem_of_further. }
      constructor; [by vm_compute; intros Hin; 
                    repeat (apply elem_of_cons in Hin as [Hin|Hin]; [discriminate|]);
                    by apply elem_of_nil in Hin|].
      apply Forall_app. split.
      { apply (Hweaker (star :: dot :: blanks)); [done|]. intros b Hb.
        by do 2 apply list_elem_of_further. }
      constructor; [by vm_compute; intros Hin;
                    repeat (apply elem_of_cons in Hin as [Hin|Hin]; [discriminate|]);
                    by apply elem_of_nil in Hin|].
      apply (Hweaker (star :: blanks)); [done|]. intros b Hb. by apply list_elem_of_further.
    + by exists name, label, tail.
Qed.

(** The tests on sample texts. *)
Example address_samples :
  isPublicKey "GAAAAAAAAAAAAAAAAAAAAAAAAAAAAAAAAAAAAAAAAAAAAAAAAAAAAWHF" = true
  ∧ isPublicKey "gaaaaaaaaaaaaaaaaaaaaaaaaaaaaaaaaaaaaaaaaaaaaaaaaaaaawhf" = false
  ∧ isDigitalBitsAddress "alice*example.org" = true
  ∧ isDigitalBitsAddress "alice*bob*example.org" = false
  ∧ isDigitalBitsAddress "alice *example.org" = false
  ∧ isDigitalBitsAddress "alice*example" = false.
Proof. vm_compute. repeat split. Qed.

End AddressFacts.

(* ===================================================================== *)
(** * Facts about waiting for an account once                            *)
(* ===================================================================== *)

Section WaitingFacts.
Import Network Waiting.

Lemma getFetchQueue_roundRobinIndex url st :
  roundRobinIndex (getFetchQueue url st).2 = roundRobinIndex st.
Proof. unfold getFetchQueue. by destruct (fetchQueuesByFrontier st !! url). Qed.

(** X25.  An account is waited for once at a time.  While the wait that
    a first call started is pending, a second call for the same URLs and
    account starts nothing: it returns a promise of its own that takes the
    outcome of the pending wait, the one the first call's promise takes,
    and its [shouldCancel] is never asked, though the call takes a turn of
    the round robin.  Once the pending promise has settled, the next call
    starts a wait of its own, and its promise takes the outcome of that
    one. *)
Theorem waitForAccountData_waits_once (frontierURLs : list string) (accountID : string)
    (cancel1 cancel2 : bool) (st : WaitState) :
  accountDataWaitingCache st !! createAccountCacheKey frontierURLs accountID = None →
  let '(first, st1) := waitForAccountData frontierURLs accountID cancel1 st in
  let '(second, st2) := waitForAccountData frontierURLs accountID cancel2 st1 in
  let '(third, st3) :=
    waitForAccountData frontierURLs accountID cancel2 (settled frontierURLs accountID st2) in
  waits st1
    = waits st ++ [mkStarted (getRandomURL frontierURLs (net st)).1 accountID cancel1]
  ∧ promise_id second ≠ promise_id first
  ∧ settlesAs second = settlesAs first
  ∧ accountDataWaitingCache st1 !! createAccountCacheKey frontierURLs accountID
    = Some (mkPromise (settlesAs first) (settlesAs first))
  ∧ accountDataWaitingCache st2 = accountDataWaitingCache st1
  ∧ waits st2 = waits st1
  ∧ roundRobinIndex (net st2) = roundRobinIndex (net st) + 2
  ∧ promise_id third ≠ promise_id first ∧ promise_id third ≠ promise_id second
  ∧ settlesAs third ≠ settlesAs first
  ∧ waits st3
    = waits st2 ++ [mkStarted (getRandomURL frontierURLs (net st2)).1 accountID cancel2].
Proof.
  intros Hnone. unfold waitForAccountData at 1. rewrite Hnone. simpl.
  pose proof (getFetchQueue_roundRobinIndex
                (frontierURLs !! (roundRobinIndex (net st) `mod` length frontierURLs))
                (setRoundRobinIndex (roundRobinIndex (net st) + 1) (net st))) as Hrr.
  destruct (getFetchQueue _ _) as [q net2]. simpl in Hrr.
  unfold waitForAccountData at 1. simpl. rewrite lookup_insert_eq. simpl.
  unfold waitForAccountData, settled. simpl. rewrite lookup_delete_eq. simpl.
  destruct (getFetchQueue _ _) as [q3 net3]. simpl.
  repeat split; try done; lia.
Qed.

End WaitingFacts.

Section WaitingRuns.
Import Network Waiting.

Lemma waitForAccountData_waits_once_witness :
  let st := mkWaitState initialState ∅ 0 [] in
  let '(first, st1) := waitForAccountData [Sample.frontier] Sample.accountA true st in
  let '(second, st2) := waitForAccountData [Sample.frontier] Sample.accountA false st1 in
  let '(third, st3) :=
    waitForAccountData [Sample.frontier] Sample.accountA false
      (settled [Sample.frontier] Sample.accountA st2) in
  waits st1
    = waits st ++ [mkStarted (getRandomURL [Sample.frontier] (net st)).1 Sample.accountA true]
  ∧ promise_id second ≠ promise_id first
  ∧ settlesAs second = settlesAs first
  ∧ accountDataWaitingCache st1 !! createAccountCacheKey [Sample.frontier] Sample.accountA
    = Some (mkPromise (settlesAs first) (settlesAs first))
  ∧ accountDataWaitingCache st2 = accountDataWaitingCache st1
  ∧ waits st2 = waits st1
  ∧ roundRobinIndex (net st2) = roundRobinIndex (net st) + 2
  ∧ promise_id third ≠ promise_id first ∧ promise_id third ≠ promise_id second
  ∧ settlesAs third ≠ settlesAs first
  ∧ waits st3
    = waits st2
      ++ [mkStarted (getRandomURL [Sample.frontier] (net st2)).1 Sample.accountA false].
Proof.
  apply (waitForAccountData_waits_once [Sample.frontier] Sample.accountA true false
           (mkWaitState initialState ∅ 0 [])).
  reflexivity.
Defined.

End WaitingRuns.

(* ===================================================================== *)
(** * Sample runs                                                        *)
(* ===================================================================== *)

Section FurtherRuns.
Import Ledger Sdk Frontier Network Http Index Fetches Runs Streams AccountWait WaitRuns
       Addresses Scenario.

Lemma fetchAccountData_without_overlays_witness :
  ∃ shown,
    fetchAccountData parseReported Sample.frontier answered newLedgers = inr (Some shown)
    ∧ shown = withBalances reported (balances shown)
    ∧ RemovesExactly (λ b, ∃ shares, b = LinePoolShares shares)
                     (balances reported) (balances shown).
Proof.
  destruct (fetchAccountData_without_overlays parseReported Sample.frontier answered
              newLedgers) as (_ & _ & Hshown).
  apply (Hshown ltac:(vm_compute; discriminate) reported eq_refl eq_refl).
Defined.

Lemma setAccountOptions_signer_shadows_thresholds_witness :
  thresholds
    (Overlay.applyAll
       (SetOptions.setAccountOptions Sample.frontier
          (mkSetOptions None (Some (Ed25519PublicKey "GTHIRD" (Some 2%Z))) None
                        (Some 5%Z) None None)
          Sample.tx2)
       Sample.snapshot)
  = thresholds Sample.snapshot.
Proof.
  destruct (setAccountOptions_signer_shadows_thresholds Sample.frontier
              (mkSetOptions None (Some (Ed25519PublicKey "GTHIRD" (Some 2%Z))) None
                            (Some 5%Z) None None)
              Sample.tx2 Sample.snapshot) as [Hshadow _].
  apply (Hshadow "GTHIRD" 2%Z eq_refl). lia.
Defined.

Lemma getRandomURL_takes_turns_witness :
  (pickURLs 3 ["a"; "b"; "c"] (setRoundRobinIndex 7 initialState)).1
  = [Some "b"; Some "c"; Some "a"].
Proof.
  destruct (getRandomURL_takes_turns ["a"; "b"; "c"] (setRoundRobinIndex 7 initialState))
    as [Hturns _].
  destruct (Hturns ltac:(discriminate)) as (Hrotated & _).
  exact Hrotated.
Defined.

Lemma manageStreamConnection_sessions_witness :
  Unsubscribe 1 ∈ calls (session [AppPause; OtherMessage; AppResume; AppPause; AppResume]).
Proof.
  destruct (manageStreamConnection_sessions
              [AppPause; OtherMessage; AppResume; AppPause; AppResume]) as [Hclosed _].
  apply Hclosed; [reflexivity|]. vm_compute. repeat constructor.
Defined.

Lemma waitForAccountData_resolves_exactly_when_witness :
  (waitForAccountDataUncached bodyAsData true
     [answering 404; answering 404; answering 200; answering 500]).2
  = Done "{}" true.
Proof.
  destruct (waitForAccountData_resolves_exactly_when bodyAsData true
              [answering 404; answering 404; answering 200; answering 500]) as [_ Hfinds].
  apply (Hfinds [answering 404; answering 404] (answering 200) [answering 500]
           (mkResponse 200 "https://frontier.example/accounts/G" "{}") "{}");
    reflexivity.
Defined.

Lemma address_kinds_are_apart_witness :
  String.length "GAAAAAAAAAAAAAAAAAAAAAAAAAAAAAAAAAAAAAAAAAAAAAAAAAAAAWHF" = 56
  ∧ isMuxedAddress "GAAAAAAAAAAAAAAAAAAAAAAAAAAAAAAAAAAAAAAAAAAAAAAAAAAAAWHF" = false
  ∧ isDigitalBitsAddress "GAAAAAAAAAAAAAAAAAAAAAAAAAAAAAAAAAAAAAAAAAAAAAAAAAAAAWHF" = false.
Proof.
  destruct (address_kinds_are_apart
              "GAAAAAAAAAAAAAAAAAAAAAAAAAAAAAAAAAAAAAAAAAAAAAAAAAAAAWHF") as [Hkey _].
  apply Hkey. vm_compute. reflexivity.
Defined.

End FurtherRuns.
